(** * PhysPar: physics extraction and event detection over a decoded replay

    A shallow embedding of [PhysPar.py].  Python dictionaries are modelled
    as insertion-ordered association lists (iteration order is observable in
    [find_goals]); exceptions are modelled by a small error monad; the
    unbounded [while] loop of [find_kickoffs] is modelled with fuel.

    Numeric leaves of the decoded trace are modelled as integers: the code
    only copies, negates and compares them.  The running mean of
    [find_window_size] is modelled over the rationals. *)

From Stdlib Require Import ZArith List String Ascii Bool Lia QArith DecimalString Sorted FinFun Permutation.
Import ListNotations.
Open Scope string_scope.
Open Scope Z_scope.
Open Scope list_scope.

(** ** Exceptions *)

Inductive exn : Type :=
| AttributeError
| KeyError
| IndexError
| ValueError.

Inductive result (A : Type) : Type :=
| Ok (a : A)
| Raise (e : exn).

Arguments Ok {A} a.
Arguments Raise {A} e.

Definition bind {A B : Type} (r : result A) (k : A -> result B) : result B :=
  match r with
  | Ok a => k a
  | Raise e => Raise e
  end.

Notation "x <- c ;; k" := (bind c (fun x => k))
  (at level 61, c at next level, right associativity).

(** [for x in l: st = body(st, x)] where the body may raise. *)
Fixpoint for_each {A S : Type} (body : S -> A -> result S) (l : list A) (st : S)
  : result S :=
  match l with
  | [] => Ok st
  | x :: l' => st' <- body st x ;; for_each body l' st'
  end.

(** ** Insertion-ordered dictionaries *)

Module PyDict.

Class KeyDec (K : Type) := key_dec : forall a b : K, {a = b} + {a <> b}.

#[export] Instance Z_KeyDec : KeyDec Z := Z.eq_dec.
#[export] Instance string_KeyDec : KeyDec string := string_dec.

Section Dict.
Context {K V : Type} `{KeyDec K}.

Definition dict := list (K * V).

(** [d.get(k)] *)
Fixpoint dget (k : K) (d : dict) : option V :=
  match d with
  | [] => None
  | (k', v) :: d' => if key_dec k k' then Some v else dget k d'
  end.

(** [d[k] = v]: an existing key keeps its position, a new key goes last. *)
Fixpoint dset (k : K) (v : V) (d : dict) : dict :=
  match d with
  | [] => [(k, v)]
  | (k', v') :: d' =>
      if key_dec k k' then (k', v) :: d' else (k', v') :: dset k v d'
  end.

(** [list(d)], the keys in iteration order. *)
Definition dkeys (d : dict) : list K := map fst d.

End Dict.

Arguments dict : clear implicits.

End PyDict.

Import PyDict.

(** ** Small Python idioms *)

(** [l[i]] with Python's negative indexing. *)
Definition py_index {A : Type} (l : list A) (i : Z) : result A :=
  let n := Z.of_nat (List.length l) in
  let j := if i <? 0 then n + i else i in
  if (j <? 0) || (n <=? j) then Raise IndexError
  else match nth_error l (Z.to_nat j) with
       | Some a => Ok a
       | None => Raise IndexError
       end.

(** [x in l] for integers *)
Definition Zmem (x : Z) (l : list Z) : bool := existsb (Z.eqb x) l.

(** [x in l] for strings *)
Definition smem (x : string) (l : list string) : bool := existsb (String.eqb x) l.

(** [sorted(l)] for integers (insertion sort; stable). *)
Fixpoint insert_sorted (x : Z) (l : list Z) : list Z :=
  match l with
  | [] => [x]
  | y :: l' => if x <? y then x :: l else y :: insert_sorted x l'
  end.

Definition sorted (l : list Z) : list Z := fold_left (fun acc x => insert_sorted x acc) l [].

(** [str(n)] for an integer. *)
Definition str_of_Z (n : Z) : string := NilZero.string_of_int (Z.to_int n).

(** ** The decoded trace *)

Record vec3 := { vx : Z; vy : Z; vz : Z }.

Record quaternion := { qx : Z; qy : Z; qz : Z; qw : Z }.

(** The value under ['rigid_body_state']; the two velocities may be [null]. *)
Record rigid_body_state := {
  angular_velocity : option vec3;
  linear_velocity : option vec3;
  location : vec3;
  rotation : quaternion
}.

(** The value of one updated attribute. *)
Inductive attribute : Type :=
| RigidBodyState (rb : rigid_body_state)
| TeamPaint (team : Z)
| OtherAttribute.

(** One element of an ['updated'] list. *)
Record entry := { entry_id : Z; entry_value : attribute }.

(** [replication['value']]: exactly one of spawned / updated / destroyed. *)
Inductive replication_value : Type :=
| Spawned (class_name : string)
| Updated (entries : list entry)
| Destroyed.

Record replication := { actor_id : Z; rep_value : replication_value }.

Definition frame := list replication.

Record mark := { mark_frame : Z; mark_value : string }.

(** [self.data['content']['body']] *)
Record replay := {
  frames : list frame;
  key_frames : list Z;
  objects : list string;
  marks : list mark
}.

Definition update_frames (t : replay) : list Z := key_frames t.

(** ** Class constants *)

Definition GOAL_Y : Z := 510000.
Definition PHYS_ID : Z := 42.
Definition COLOR_ID : Z := 66.
Definition TEAM_SIZE : nat := 3.

(** ** Identity resolution *)

(** [get_spawnframe]: [max] of an empty list raises [ValueError]. *)
Definition get_spawnframe (t : replay) (frame : Z) : result Z :=
  if frame <? 0 then Raise ValueError
  else match filter (fun x => x <=? frame) (update_frames t) with
       | [] => Raise ValueError
       | x :: l => Ok (fold_left Z.max l x)
       end.

(** The unsorted dictionary built by the loop of [find_ids]. *)
Definition spawned_classes (fr : frame) : dict Z string :=
  fold_left (fun out r =>
               match rep_value r with
               | Spawned c => dset (actor_id r) c out
               | _ => out
               end) fr [].

(** [dict(sorted(output.items()))]: keys are distinct, so this sorts by key. *)
Definition sort_items (d : dict Z string) : dict Z string :=
  fold_left (fun acc k => match dget k d with
                          | Some c => dset k c acc
                          | None => acc
                          end) (sorted (dkeys d)) [].

Definition find_ids (t : replay) (spawnframe : Z) : result (dict Z string) :=
  if negb (Zmem spawnframe (update_frames t)) then Raise KeyError
  else fr <- py_index (frames t) spawnframe ;;
       Ok (sort_items (spawned_classes fr)).

Definition get_ids (t : replay) (obj : string) (spawnframe : Z) (frame : option Z)
  : result (list Z) :=
  if negb (smem obj (objects t)) then Raise KeyError
  else spawnframe' <- match frame with
                      | Some f => get_spawnframe t f
                      | None => Ok spawnframe
                      end ;;
       helper <- find_ids t spawnframe' ;;
       Ok (sorted (map fst (filter (fun kv => String.eqb (snd kv) obj) helper))).

(** [teams = {0: [], 1: []}] as a pair of lists. *)
Definition teams_t : Type := (list Z * list Z)%type.

Definition team_append (teams : teams_t) (team : Z) (actor : Z) : result teams_t :=
  if team =? 0 then Ok (fst teams ++ [actor], snd teams)
  else if team =? 1 then Ok (fst teams, snd teams ++ [actor])
  else Raise KeyError.

(** The body of [for update in updates] in [find_teams]. *)
Definition find_teams_update (t : replay) (update : Z) : result teams_t :=
  cars <- get_ids t "TAGame.Car_TA" update None ;;
  fr <- py_index (frames t) update ;;
  for_each
    (fun teams r =>
       match rep_value r with
       | Spawned _ => Ok teams
       | Destroyed =>
           if negb (Zmem (actor_id r) cars) then Ok teams else Raise KeyError
       | Updated updated =>
           if negb (Zmem (actor_id r) cars) then Ok teams
           else for_each
                  (fun teams e =>
                     if negb (entry_id e =? COLOR_ID) then Ok teams
                     else match entry_value e with
                          | TeamPaint team => team_append teams team (actor_id r)
                          | _ => Raise KeyError
                          end)
                  updated teams
       end)
    fr ([], []).

(** [find_teams(spawnframe=sf)] *)
Definition find_teams (t : replay) (spawnframe : Z) : result teams_t :=
  if negb (Zmem spawnframe (update_frames t)) then Raise KeyError
  else find_teams_update t spawnframe.

(** [find_teams()] with no argument: one entry per update frame. *)
Definition find_teams_all (t : replay) : result (dict Z teams_t) :=
  for_each (fun out update =>
              teams <- find_teams_update t update ;;
              Ok (dset update teams out))
           (update_frames t) [].

(** ** Physics extraction *)

(** A stored snapshot: attribute name -> component name -> value. *)
Definition snapshot : Type := dict string (dict string Z).

(** [self.physics]: frame index -> entity key -> snapshot. *)
Definition physics : Type := dict Z (dict string snapshot).

Definition xyz_dict (v : vec3) : dict string Z :=
  [("x", vx v); ("y", vy v); ("z", vz v)].

Definition quat_dict (q : quaternion) : dict string Z :=
  dset "w" (qw q) [("x", qx q); ("y", qy q); ("z", qz q)].

(** The dictionary built by [for attr in phys_attrs]. *)
Definition make_snapshot (av lv : vec3) (loc : vec3) (rot : quaternion) : snapshot :=
  dset "rotation" (quat_dict rot)
    (dset "location" (xyz_dict loc)
       (dset "linear_velocity" (xyz_dict lv)
          (dset "angular_velocity" (xyz_dict av) []))).

(** [if output.get(i) is None: output[i] = {}] then [output[i][key] = s] *)
Definition set_snapshot (out : physics) (i : Z) (key : string) (s : snapshot)
  : physics :=
  match dget i out with
  | Some fr => dset i (dset key s fr) out
  | None => dset i (dset key s []) out
  end.

(** [bool(output.get(j, {}).get(key, {}))] *)
Definition has_snapshot (out : physics) (j : Z) (key : string) : bool :=
  match dget j out with
  | Some fr => match dget key fr with
               | Some [] => false
               | Some _ => true
               | None => false
               end
  | None => false
  end.

(** [for n in range(num_missing): output[i-1-n][key] = output[i][key]] *)
Definition back_fill (out : physics) (i : Z) (key : string) (num_missing : Z)
  : result physics :=
  for_each (fun out n =>
              fr <- match dget i out with Some fr => Ok fr | None => Raise KeyError end ;;
              s <- match dget key fr with Some s => Ok s | None => Raise KeyError end ;;
              Ok (set_snapshot out (i - 1 - Z.of_nat n) key s))
           (seq 0 (Z.to_nat num_missing)) out.

(** [while num_missing < 5: ...]; the counter grows on every iteration that
    does not leave the loop, so [fuel] = 5 is never exhausted from 1. *)
Fixpoint interp_loop (fuel : nat) (out : physics) (i : Z) (key : string)
  (num_missing : Z) : result physics :=
  match fuel with
  | O => Ok out
  | S fuel' =>
      if num_missing <? 5 then
        if negb (has_snapshot out (i - num_missing) key)
        then interp_loop fuel' out i key (num_missing + 1)
        else back_fill out i key (num_missing - 1)
      else Ok out
  end.

(** The block under [### Interpolation]. *)
Definition interpolate_back (out : physics) (i : Z) (key : string) : result physics :=
  if (i =? 0) || has_snapshot out (i - 1) key then Ok out
  else interp_loop 5 out i key 1.

(** Storing one snapshot: the write into [output[i][key]] followed, unless
    disabled, by the interpolation block. *)
Definition store_snapshot (interpolate : bool) (out : physics) (i : Z) (key : string)
  (s : snapshot) : result physics :=
  let out' := set_snapshot out i key s in
  if negb interpolate then Ok out' else interpolate_back out' i key.

(** The first entry whose id is [PHYS_ID]. *)
Fixpoint find_phys (updated : list entry) : result (option rigid_body_state) :=
  match updated with
  | [] => Ok None
  | e :: rest =>
      if negb (entry_id e =? PHYS_ID) then find_phys rest
      else match entry_value e with
           | RigidBodyState rb => Ok (Some rb)
           | _ => Raise KeyError
           end
  end.

Definition entity_key (ball_id : list Z) (teams : teams_t) (actor : Z) : string :=
  if Zmem actor ball_id then "ball"
  else ((if Zmem actor (snd teams) then "1" else "0") ++ "_car_" ++ str_of_Z actor)%string.

(** Loop state of [get_physics]. *)
Record gp_state := {
  output : physics;
  update_pointer : nat;
  ball_id : list Z;
  car_ids : list Z;
  teams : teams_t
}.

(** Body of [for replication in frame['replications']]. *)
Definition replication_step (interpolate : bool) (i : Z) (ball_id car_ids : list Z)
  (teams : teams_t) (out : physics) (r : replication) : result physics :=
  match rep_value r with
  | Spawned _ => Ok out
  | Destroyed => Ok out
  | Updated updated =>
      if negb (Zmem (actor_id r) (ball_id ++ car_ids)) then Ok out
      else
        phys <- find_phys updated ;;
        match phys with
        | None => Ok out
        | Some rb =>
            match angular_velocity rb with
            | None => Ok out
            | Some av =>
                match linear_velocity rb with
                | None => Ok out
                | Some lv =>
                    store_snapshot interpolate out i
                      (entity_key ball_id teams (actor_id r))
                      (make_snapshot av lv (location rb) (rotation rb))
                end
            end
        end
  end.

(** The epoch-cursor block at the head of the frame loop. *)
Definition epoch_step (t : replay) (ball cars : bool) (i : Z) (st : gp_state)
  : result gp_state :=
  let uf := update_frames t in
  if Nat.eqb (update_pointer st) (List.length uf - 1)%nat then Ok st
  else
    boundary <- match nth_error uf (update_pointer st) with
                | Some b => Ok b
                | None => Raise IndexError
                end ;;
    if negb (i =? boundary) then Ok st
    else
      ball_id' <- (if ball then get_ids t "TAGame.Ball_TA" boundary None
                   else Ok (ball_id st)) ;;
      car_ids' <- (if cars then get_ids t "TAGame.Car_TA" boundary None
                   else Ok (car_ids st)) ;;
      teams' <- (if cars then find_teams t boundary else Ok (teams st)) ;;
      Ok {| output := output st;
            update_pointer := S (update_pointer st);
            ball_id := ball_id';
            car_ids := car_ids';
            teams := teams' |}.

(** Body of [for i, frame in enumerate(all_frames)]. *)
Definition frame_step (t : replay) (ball cars interpolate : bool) (i : Z)
  (fr : frame) (st : gp_state) : result gp_state :=
  st1 <- epoch_step t ball cars i st ;;
  out <- for_each (replication_step interpolate i (ball_id st1) (car_ids st1) (teams st1))
           fr (output st1) ;;
  Ok {| output := out;
        update_pointer := update_pointer st1;
        ball_id := ball_id st1;
        car_ids := car_ids st1;
        teams := teams st1 |}.

Fixpoint frames_loop (t : replay) (ball cars interpolate : bool) (i : Z)
  (fs : list frame) (st : gp_state) : result gp_state :=
  match fs with
  | [] => Ok st
  | fr :: fs' =>
      st' <- frame_step t ball cars interpolate i fr st ;;
      frames_loop t ball cars interpolate (i + 1) fs' st'
  end.

Definition gp_init : gp_state :=
  {| output := []; update_pointer := O; ball_id := []; car_ids := []; teams := ([], []) |}.

Definition get_physics_with (t : replay) (ball cars interpolate : bool)
  : result physics :=
  if negb (ball || cars) then Raise AttributeError
  else match update_frames t with
       | [] => Raise IndexError
       | u0 :: _ =>
           if negb (u0 =? 0) then Raise AttributeError
           else st <- frames_loop t ball cars interpolate 0 (frames t) gp_init ;;
                Ok (output st)
       end.

(** [self.physics = self.get_physics()] *)
Definition get_physics (t : replay) : result physics :=
  get_physics_with t true true true.

(** ** Event detection *)

(** [d[k]], raising [KeyError] when the key is absent. *)
Definition dlookup {K V : Type} `{KeyDec K} (k : K) (d : dict K V) : result V :=
  match dget k d with
  | Some v => Ok v
  | None => Raise KeyError
  end.

(** [snap[attr][var]] *)
Definition component (s : snapshot) (attr var : string) : result Z :=
  a <- dlookup attr s ;; dlookup var a.

(** ['Goal' in s] *)
Definition contains_Goal (s : string) : bool :=
  match String.index 0 "Goal" s with
  | Some _ => true
  | None => false
  end.

(** The dictionary comprehension [ball_only]. *)
Definition ball_only (phys : physics) : dict Z snapshot :=
  flat_map (fun kv => match dget "ball" (snd kv) with
                      | Some b => [(fst kv, b)]
                      | None => []
                      end) phys.

(** [possible_goals]: the candidate frames, in the iteration order of
    [self.physics]. *)
Definition possible_goals (phys : physics) : result (list Z) :=
  for_each (fun acc kv =>
              y <- component (snd kv) "location" "y" ;;
              Ok (if GOAL_Y <? Z.abs y then acc ++ [fst kv] else acc))
           (ball_only phys) [].

Definition scores (t : replay) : list mark :=
  filter (fun m => contains_Goal (mark_value m)) (marks t).

(** The inner [for goal in possible_goals: if goal >= frame: ...; break] *)
Definition first_candidate (candidates : list Z) (frame : Z) : option Z :=
  find (fun goal => frame <=? goal) candidates.

Definition team_of_mark (m : mark) : Z :=
  if String.eqb (mark_value m) "Team1Goal" then 1 else 0.

(** The loop [for score in scores], from a given [goal_frames]. *)
Definition goals_loop_from (candidates : list Z) (scores : list mark)
  (goal_frames : dict Z Z) : dict Z Z :=
  fold_left (fun goal_frames score =>
               match first_candidate candidates (mark_frame score) with
               | Some goal => dset goal (team_of_mark score) goal_frames
               | None => goal_frames
               end) scores goal_frames.

Definition goals_loop (candidates : list Z) (scores : list mark) : dict Z Z :=
  goals_loop_from candidates scores [].

Definition find_goals (t : replay) (phys : physics) : result (dict Z Z) :=
  candidates <- possible_goals phys ;;
  Ok (goals_loop candidates (scores t)).

(** Truth value of [self.physics.get(i)]: a missing or empty entry is falsy. *)
Definition frame_truthy (phys : physics) (i : Z) : bool :=
  match dget i phys with
  | Some (_ :: _) => true
  | _ => false
  end.

(** [range(a, a + n)] *)
Definition Zrange (a : Z) (n : nat) : list Z := map (fun k => a + Z.of_nat k) (seq 0 n).

Definition window_any (phys : physics) (window : Z) : bool :=
  existsb (frame_truthy phys) (Zrange window 10).

Definition window_all (phys : physics) (window : Z) : bool :=
  forallb (frame_truthy phys) (Zrange window 10).

(** The [while not found] loop.  The source has no bound on the number of
    iterations: [None] means that [fuel] iterations did not leave the loop. *)
Fixpoint kickoff_scan (fuel : nat) (phys : physics) (window : Z) (cars_reset : bool)
  : option Z :=
  match fuel with
  | O => None
  | S fuel' =>
      let cars_reset' := if negb cars_reset then negb (window_any phys window)
                         else cars_reset in
      if cars_reset' && window_all phys window then Some window
      else kickoff_scan fuel' phys (window + 1) cars_reset'
  end.

(** [list(d.keys())[:-1]] *)
Definition drop_last {A : Type} (l : list A) : list A := removelast l.

Fixpoint kickoffs_loop (fuel : nat) (phys : physics) (goal_frames : list Z)
  (output : dict Z Z) : option (dict Z Z) :=
  match goal_frames with
  | [] => Some output
  | goal_frame :: rest =>
      match kickoff_scan fuel phys goal_frame false with
      | Some window => kickoffs_loop fuel phys rest (dset goal_frame window output)
      | None => None
      end
  end.

(** [find_kickoffs]: [None] when some scan needs more than [fuel] iterations. *)
Definition find_kickoffs (fuel : nat) (t : replay) (phys : physics)
  : option (result (dict Z Z)) :=
  match find_goals t phys with
  | Raise e => Some (Raise e)
  | Ok goals =>
      match kickoffs_loop fuel phys (drop_last (dkeys goals) ++ [0]) [] with
      | Some out => Some (Ok out)
      | None => None
      end
  end.

(** [np.cumsum(arr) / np.arange(1, len(arr) + 1)], as exact fractions. *)
Fixpoint running_mean_from (count total : Z) (arr : list bool) : list Q :=
  match arr with
  | [] => []
  | b :: arr' =>
      let count' := if b then count + 1 else count in
      let total' := total + 1 in
      (inject_Z count' / inject_Z total')%Q :: running_mean_from count' total' arr'
  end.

Definition running_mean (arr : list bool) : list Q := running_mean_from 0 0 arr.

(** [x > threshold] *)
Definition Qgtb (x threshold : Q) : bool := negb (Qle_bool x threshold).

(** [np.argmin] of a boolean array: the first [False], else index 0. *)
Fixpoint first_false (l : list bool) : option nat :=
  match l with
  | [] => None
  | b :: l' => if b then option_map S (first_false l') else Some O
  end.

Definition argmin_bool (l : list bool) : result nat :=
  match l with
  | [] => Raise ValueError
  | _ => Ok (match first_false l with Some k => k | None => O end)
  end.

Definition find_window_size (arr : list bool) (threshold : Q) : result nat :=
  if Qgtb 0 threshold || Qgtb threshold 1 then Raise ValueError
  else
    let above := map (fun p => Qgtb p threshold) (running_mean arr) in
    last_k_index <- argmin_bool above ;;
    Ok (if forallb (fun b => b) above then (List.length above - 1)%nat else last_k_index).

(** [max(l)] *)
Definition py_max (l : list Z) : result Z :=
  match l with
  | [] => Raise ValueError
  | x :: l' => Ok (fold_left Z.max l' x)
  end.

(** [max([f for f in set(range(max(physics))) - set(physics.keys()) if f < goal])] *)
Definition last_kickoff (phys : physics) (goal : Z) : result Z :=
  top <- py_max (dkeys phys) ;;
  py_max (filter (fun f => match dget f phys with
                           | Some _ => false
                           | None => f <? goal
                           end)
            (Zrange 0 (Z.to_nat top))).

(** [range(goal, last_kickoff, -1)] *)
Definition Zrange_down (goal last : Z) : list Z :=
  map (fun k => goal - Z.of_nat k) (seq 0 (Z.to_nat (goal - last))).

Definition attack_line : Z := 170000.

(** The ball samples gathered by the backward scan: [(y_location, y_velocity)]. *)
Definition ball_samples (phys : physics) (goal last : Z) : result (list (Z * Z)) :=
  for_each (fun acc frame =>
              snap <- dlookup frame phys ;;
              match dget "ball" snap with
              | None => Ok acc
              | Some b =>
                  y <- component b "location" "y" ;;
                  v <- component b "linear_velocity" "y" ;;
                  Ok (acc ++ [(y, v)])
              end)
           (Zrange_down goal last) [].

(** [np.array] of the integer coordinates read from the replay is an array
    of 64-bit signed integers, and arithmetic on it wraps around. *)
Definition wrap64 (z : Z) : Z := (z + 2 ^ 63) mod 2 ^ 64 - 2 ^ 63.

(** [y *= -1] when [goals[goal]] is truthy (team 1 scores). *)
Definition flip (team : Z) (y : Z) : Z :=
  if team =? 0 then y else wrap64 (y * -1).

(** [np.logical_or(y_location > attack_line, y_velocity > 0)] after the sign
    flip for team 1. *)
Definition attacking (team : Z) (sample : Z * Z) : bool :=
  (attack_line <? flip team (fst sample)) || (0 <? flip team (snd sample)).

Definition poss_interval (phys : physics) (threshold : Q) (goal team : Z)
  : result (Z * Z) :=
  last <- last_kickoff phys goal ;;
  samples <- ball_samples phys goal last ;;
  k <- find_window_size (map (attacking team) samples) threshold ;;
  Ok (goal - Z.of_nat k, goal).

Definition poss_intervals (t : replay) (phys : physics) (threshold : Q)
  : result (list (Z * Z)) :=
  goals <- find_goals t phys ;;
  for_each (fun output g =>
              iv <- poss_interval phys threshold (fst g) (snd g) ;;
              Ok (output ++ [iv]))
           goals [].

(** ** Feature construction *)

(** Python's [set] of strings: the elements of the argument, each once.
    The order in which a [set] is iterated follows the hashes of its
    elements, which change with the hash seed of the process; it is not the
    order of the argument.  A [set_order] is one such order: [set_iter o l]
    is what [for item in set(l)] visits in a process with order [o]. *)
Record set_order : Type := {
  set_iter : list string -> list string;
  set_iter_perm : forall l, Permutation (nodup string_dec l) (set_iter l)
}.

(** [get_leaf_nodes(snapshot, val_only=True)] *)
Definition get_leaf_nodes (s : snapshot) : list Z :=
  flat_map (fun kv => map snd (snd kv)) s.

(** [car[0] == c] for a non-empty key. *)
Definition starts_with (c : ascii) (key : string) : bool :=
  match key with
  | String a _ => Ascii.eqb a c
  | EmptyString => false
  end.

(** The values appended for one group of entity keys. *)
Definition group_values (phys_snapshot : dict string snapshot) (group : list string)
  : result (list Z) :=
  for_each (fun acc item =>
              s <- dlookup item phys_snapshot ;;
              Ok (acc ++ get_leaf_nodes s))
           group [].

Definition zero_padding (group : list string) : list Z :=
  repeat 0 (13 * (TEAM_SIZE - List.length group)).

(** [create_feature].  The entity keys of a team are a [set], iterated in
    the order [o] of the process.  Each recursive call consumes one unit of
    [fuel]; [None] means the fuel ran out. *)
Fixpoint create_feature_fuel (o : set_order) (fuel : nat) (phys : physics) (frame : Z)
  (scorer : option Z) : option (result (option (list Z))) :=
  match fuel with
  | O => None
  | S fuel' =>
      let bad_scorer := match scorer with
                        | Some s => negb ((s =? 0) || (s =? 1))
                        | None => false
                        end in
      if bad_scorer then Some (Raise ValueError)
      else
        let frame_feature := match scorer with Some s => [s] | None => [] end in
        match dget frame phys with
        | None => Some (Raise KeyError)
        | Some phys_snapshot =>
            let objs := dkeys phys_snapshot in
            if negb (smem "ball" objs) then Some (Ok None)
            else if smem "" objs then Some (Raise IndexError)
            else
              let team0 := set_iter o (filter (starts_with "0") objs) in
              let team1 := set_iter o (filter (starts_with "1") objs) in
              match group_values phys_snapshot ["ball"] with
              | Raise e => Some (Raise e)
              | Ok vball =>
                  let frame_feature := frame_feature ++ vball in
                  if (TEAM_SIZE <? List.length team0)%nat
                  then create_feature_fuel o fuel' phys (frame + 1) scorer
                  else
                    match group_values phys_snapshot team0 with
                    | Raise e => Some (Raise e)
                    | Ok v0 =>
                        let frame_feature := frame_feature ++ v0 ++ zero_padding team0 in
                        if (TEAM_SIZE <? List.length team1)%nat
                        then create_feature_fuel o fuel' phys (frame + 1) scorer
                        else
                          match group_values phys_snapshot team1 with
                          | Raise e => Some (Raise e)
                          | Ok v1 =>
                              let frame_feature :=
                                frame_feature ++ v1 ++ zero_padding team1 in
                              let n := List.length frame_feature in
                              if negb (Nat.eqb n 91) && negb (Nat.eqb n 92)
                              then Some (Ok None)
                              else Some (Ok (Some frame_feature))
                          end
                    end
              end
        end
  end.

(** Every recursive call moves to a later frame that is present in
    [self.physics], so one unit of fuel per stored frame (plus one) is
    always enough. *)
Definition create_feature (o : set_order) (phys : physics) (frame : Z)
  (scorer : option Z) : option (result (option (list Z))) :=
  create_feature_fuel o (S (List.length phys)) phys frame scorer.


(** ** Vocabulary of the properties *)

(** [output.get(j, {}).get(key)] *)
Definition snap_at (out : physics) (j : Z) (key : string) : option snapshot :=
  match dget j out with
  | Some fr => dget key fr
  | None => None
  end.

(** The attribute names of a snapshot, each with its component names. *)
Definition shape (s : snapshot) : list (string * list string) :=
  map (fun kv => (fst kv, dkeys (snd kv))) s.

Definition physics_shape : list (string * list string) :=
  [("angular_velocity", ["x"; "y"; "z"]);
   ("linear_velocity", ["x"; "y"; "z"]);
   ("location", ["x"; "y"; "z"]);
   ("rotation", ["x"; "y"; "z"; "w"])].

(** Every rigid-body state carried by an update of the trace. *)
Definition entry_bodies (updated : list entry) : list rigid_body_state :=
  flat_map (fun e => match entry_value e with
                     | RigidBodyState rb => [rb]
                     | _ => []
                     end) updated.

Definition replication_bodies (r : replication) : list rigid_body_state :=
  match rep_value r with
  | Updated updated => entry_bodies updated
  | _ => []
  end.

Definition frame_bodies (fr : frame) : list rigid_body_state :=
  flat_map replication_bodies fr.

Definition trace_bodies (t : replay) : list rigid_body_state :=
  flat_map frame_bodies (frames t).

(** The snapshot a rigid-body state gives rise to; none when a velocity is
    [null]. *)
Definition snapshot_of_body (rb : rigid_body_state) : option snapshot :=
  match angular_velocity rb, linear_velocity rb with
  | Some av, Some lv => Some (make_snapshot av lv (location rb) (rotation rb))
  | _, _ => None
  end.

(** A property of every snapshot stored in a collection. *)
Definition all_snapshots (P : snapshot -> Prop) (out : physics) : Prop :=
  forall j key s, snap_at out j key = Some s -> P s.


(** [scorer is None or scorer in (0, 1)] *)
Definition valid_scorer (scorer : option Z) : Prop :=
  scorer = None \/ scorer = Some 0 \/ scorer = Some 1.

(** The length the feature vector is meant to have: 7 groups of 13 values,
    after the optional label. *)
Definition feature_length (scorer : option Z) : nat :=
  match scorer with
  | Some _ => 92
  | None => 91
  end.


(** ** Sample traces *)

Definition sample_body (y v : Z) : rigid_body_state :=
  {| angular_velocity := Some {| vx := 1; vy := 2; vz := 3 |};
     linear_velocity := Some {| vx := 4; vy := v; vz := 6 |};
     location := {| vx := 7; vy := y; vz := 9 |};
     rotation := {| qx := 10; qy := 11; qz := 12; qw := 13 |} |}.

(** An update carrying rigid-body physics: ball or car at height [y] along
    the field with speed [v] in that direction. *)
Definition moves (actor y v : Z) : replication :=
  {| actor_id := actor;
     rep_value := Updated [ {| entry_id := PHYS_ID;
                               entry_value := RigidBodyState (sample_body y v) |} ] |}.

Definition spawns (actor : Z) (class_name : string) : replication :=
  {| actor_id := actor; rep_value := Spawned class_name |}.

Definition paints (actor team : Z) : replication :=
  {| actor_id := actor;
     rep_value := Updated [ {| entry_id := COLOR_ID; entry_value := TeamPaint team |} ] |}.

Definition sample_objects : list string := ["TAGame.Ball_TA"; "TAGame.Car_TA"].

(** Frame 0 of the samples: ball is actor 1, actor 2 a car of team 0 and
    actor 3 a car of team 1. *)
Definition kickoff_frame : frame :=
  [spawns 1 "TAGame.Ball_TA"; spawns 2 "TAGame.Car_TA"; spawns 3 "TAGame.Car_TA";
   paints 2 0; paints 3 1].

Definition physics_of (t : replay) : physics :=
  match get_physics t with
  | Ok phys => phys
  | Raise _ => []
  end.

(** Ball and both cars move in frame 1; in frame 2 only a car does. *)
Definition trace_basic : replay :=
  {| frames := [kickoff_frame;
                [moves 1 100 5; moves 2 (-50) 0; moves 3 50 0];
                [moves 2 (-40) 1]];
     key_frames := [0; 3];
     objects := sample_objects;
     marks := [] |}.

Definition physics_basic : physics := Eval vm_compute in physics_of trace_basic.

(** Only a car moves in frame 1; the ball first moves in frame 2. *)
Definition trace_late_ball : replay :=
  {| frames := [kickoff_frame; [moves 2 (-50) 0]; [moves 1 100 5; moves 2 (-40) 1]];
     key_frames := [0; 3];
     objects := sample_objects;
     marks := [] |}.

Definition physics_late_ball : physics := Eval vm_compute in physics_of trace_late_ball.


(** [frame in self.physics] *)
Definition dmem_frame (phys : physics) (frame : Z) : bool :=
  match dget frame phys with
  | Some _ => true
  | None => false
  end.


(** The ball moves in frames 1 and 5: a gap of three frames. *)
Definition trace_gap3 : replay :=
  {| frames := [kickoff_frame; [moves 1 100 5]; []; []; []; [moves 1 200 5]];
     key_frames := [0; 6];
     objects := sample_objects;
     marks := [] |}.

Definition physics_gap3 : physics := Eval vm_compute in physics_of trace_gap3.

(** The ball moves in frames 1 and 6: a gap of four frames. *)
Definition trace_gap4 : replay :=
  {| frames := [kickoff_frame; [moves 1 100 5]; []; []; []; []; [moves 1 200 5]];
     key_frames := [0; 7];
     objects := sample_objects;
     marks := [] |}.

Definition physics_gap4 : physics := Eval vm_compute in physics_of trace_gap4.

Definition snapshot_before_gap : snapshot :=
  Eval vm_compute in match snapshot_of_body (sample_body 100 5) with
                     | Some s => s
                     | None => []
                     end.

(** The collection after frame 1 of the two traces above. *)
Definition physics_before_gap : physics :=
  set_snapshot [] 1 "ball" snapshot_before_gap.

Definition snapshot_after_gap : snapshot :=
  Eval vm_compute in match snapshot_of_body (sample_body 200 5) with
                     | Some s => s
                     | None => []
                     end.

(** Two epochs: the ball is actor 1 from frame 0 and actor 5 from frame 2. *)
Definition trace_two_epochs : replay :=
  {| frames := [kickoff_frame;
                [moves 1 100 5];
                [spawns 5 "TAGame.Ball_TA"; spawns 2 "TAGame.Car_TA"; paints 2 0];
                [moves 5 300 5]];
     key_frames := [0; 2];
     objects := sample_objects;
     marks := [] |}.

(** The loop state in which [get_physics] leaves its frame loop. *)
Definition final_state (t : replay) : result gp_state :=
  frames_loop t true true true 0 (frames t) gp_init.


(** Whether an entry of [self.physics] is a candidate goal frame: it has a
    ball whose [location.y] lies beyond the goal line. *)
Definition goal_entry (kv : Z * dict string snapshot) : bool :=
  match dget "ball" (snd kv) with
  | Some b => match component b "location" "y" with
              | Ok y => GOAL_Y <? Z.abs y
              | Raise _ => false
              end
  | None => false
  end.

(** The ball is seen in frame 1 and crosses the goal line in frame 3;
    frame 2 has no update at all.  Two marks, at frames 2 and 3. *)
Definition trace_late_entry : replay :=
  {| frames := [kickoff_frame; [moves 1 100 5]; []; [moves 1 600000 5]];
     key_frames := [0; 4];
     objects := sample_objects;
     marks := [ {| mark_frame := 2; mark_value := "Team0Goal" |};
                {| mark_frame := 3; mark_value := "Team1Goal" |} ] |}.

Definition physics_late_entry : physics := Eval vm_compute in physics_of trace_late_entry.


(** The candidate goal frames, in the iteration order of the collection. *)
Definition candidate_frames (phys : physics) : list Z :=
  map fst (filter goal_entry phys).


(** The loop of [find_kickoffs] leaves the goal frame [goal_frame] with
    window [w]: some number of iterations reaches [found = True]. *)
Definition scan_finds (phys : physics) (goal_frame w : Z) : Prop :=
  exists fuel, kickoff_scan fuel phys goal_frame false = Some w.

(** The loop never leaves: no number of iterations is enough. *)
Definition scan_diverges (phys : physics) (goal_frame : Z) : Prop :=
  forall fuel, kickoff_scan fuel phys goal_frame false = None.

(** [find_kickoffs] never returns nor raises. *)
Definition find_kickoffs_diverges (t : replay) (phys : physics) : Prop :=
  forall fuel, find_kickoffs fuel t phys = None.


(** Number of [True] entries of a boolean array. *)
Fixpoint count_true (arr : list bool) : Z :=
  match arr with
  | [] => 0
  | b :: arr' => (if b then 1 else 0) + count_true arr'
  end.

(** The mean of the first [j + 1] entries: the share of attacking samples
    from the goal back to sample [j], inclusive. *)
Definition mean_upto (arr : list bool) (j : nat) : Q :=
  (inject_Z (count_true (firstn (S j) arr)) / inject_Z (Z.of_nat (S j)))%Q.

(** A kickoff after ten empty frames, the ball moving towards the positive
    goal in frames 10 to 29 and beyond the goal line in frame 25, and one
    scoring mark for team 0 at frame 24. *)
Definition trace_possession : replay :=
  {| frames := kickoff_frame :: repeat [] 9 ++
               repeat [moves 1 100 5] 15 ++ [[moves 1 600000 5]] ++
               repeat [moves 1 100 5] 4;
     key_frames := [0; 30];
     objects := sample_objects;
     marks := [ {| mark_frame := 24; mark_value := "Team0Goal" |} ] |}.

Definition physics_possession : physics := Eval vm_compute in physics_of trace_possession.




(** The class under which actor [a] is spawned in a frame: that of its
    last spawn replication there, if any. *)
Definition spawn_class_of (fr : frame) (a : Z) : option string :=
  fold_left (fun acc r =>
               match rep_value r with
               | Spawned c => if Z.eq_dec a (actor_id r) then Some c else acc
               | _ => acc
               end) fr None.

(** Actor [a] is one of [cars] and some update of the frame paints it with
    team [team]. *)
Definition painted (fr : frame) (cars : list Z) (a team : Z) : Prop :=
  exists r updated e,
    In r fr /\ actor_id r = a /\ Zmem a cars = true /\
    rep_value r = Updated updated /\
    In e updated /\ entry_id e = COLOR_ID /\ entry_value e = TeamPaint team.


(** The two forms of an entity key: ['ball'] and ['{team}_car_{actor_id}']. *)
Definition is_entity_key (k : string) : Prop :=
  k = "ball" \/
  exists a, k = ("0_car_" ++ str_of_Z a)%string \/ k = ("1_car_" ++ str_of_Z a)%string.

(** Shape of the collection while frame [n] is being processed: frame
    indices are distinct and within [0, n], no frame entry is empty, and
    the entity keys of a frame are distinct and well formed. *)
Definition collection_ok (n : Z) (out : physics) : Prop :=
  NoDup (dkeys out) /\
  (forall j, In j (dkeys out) -> 0 <= j <= n) /\
  (forall j fr, dget j out = Some fr ->
                fr <> [] /\ NoDup (dkeys fr) /\
                forall k, In k (dkeys fr) -> is_entity_key k).




(** [trace_basic] with the single update frame 0. *)
Definition trace_single_boundary : replay :=
  {| frames := frames trace_basic;
     key_frames := [0];
     objects := sample_objects;
     marks := [] |}.


(** [time_before_goals]: seconds of possession before each goal, at the
    default threshold and 30 frames per second; the division is exact. *)
Definition time_before_goals (t : replay) (phys : physics) : result (list Q) :=
  intervals <- poss_intervals t phys (95 # 100) ;;
  Ok (map (fun interval => (inject_Z (snd interval - fst interval) / inject_Z 30)%Q)
        intervals).


(** The cars of the team whose keys start with [c], in the order in which
    the process iterates their [set]. *)
Definition team_cars (o : set_order) (phys_snapshot : dict string snapshot) (c : ascii)
  : list string :=
  set_iter o (filter (starts_with c) (dkeys phys_snapshot)).

(** The values of the entity stored under [k], none when there is none. *)
Definition leaves_at (phys_snapshot : dict string snapshot) (k : string) : list Z :=
  match dget k phys_snapshot with
  | Some s => get_leaf_nodes s
  | None => []
  end.

(** The values of one team in a feature vector: the leaves of each of its
    cars, one car after the other, then the zero padding. *)
Definition team_block (o : set_order) (phys_snapshot : dict string snapshot) (c : ascii)
  : list Z :=
  flat_map (leaves_at phys_snapshot) (team_cars o phys_snapshot c) ++
  zero_padding (team_cars o phys_snapshot c).

(** The optional leading label. *)
Definition label_of (scorer : option Z) : list Z :=
  match scorer with
  | Some s => [s]
  | None => []
  end.




(** ** Dataset assembly *)

(** [range(start, stop, step)] *)
Definition py_range (start stop step : Z) : result (list Z) :=
  if step =? 0 then Raise ValueError
  else if 0 <? step
       then Ok (map (fun k => start + Z.of_nat k * step)
                  (seq 0 (Z.to_nat ((stop - start + step - 1) / step))))
       else Ok (map (fun k => start + Z.of_nat k * step)
                  (seq 0 (Z.to_nat ((start - stop - step - 1) / - step)))).

(** [self.create_feature(i, scorer)] as a call that always comes back: the
    fuel of [create_feature] is never exhausted, so the last branch is
    never taken. *)
Definition create_feature_call (o : set_order) (phys : physics) (frame : Z)
  (scorer : option Z) : result (option (list Z)) :=
  match create_feature o phys frame scorer with
  | Some r => r
  | None => Ok None
  end.

(** [shave_phys] *)
Definition shave_phys (o : set_order) (t : replay) (phys : physics)
  (slice_interval : Z) (threshold : Q) : result (list (list Z)) :=
  intervals <- poss_intervals t phys threshold ;;
  goals <- find_goals t phys ;;
  for_each
    (fun dataset interval =>
       scorer <- dlookup (snd interval) goals ;;
       sampled <- py_range (fst interval) (snd interval) slice_interval ;;
       for_each (fun dataset i =>
                   frame_feature <- create_feature_call o phys i (Some scorer) ;;
                   Ok (match frame_feature with
                       | Some row => dataset ++ [row]
                       | None => dataset
                       end))
         sampled dataset)
    intervals [].

(** The column names written by [create_csv_header] of [build_data.py]. *)
Definition csv_schema : list string :=
  ["scores_next"; "ball_av_x"; "ball_av_y"; "ball_av_z"; "ball_lv_x"; "ball_lv_y";
   "ball_lv_z"; "ball_loc_x"; "ball_loc_y"; "ball_loc_z"; "ball_rot_x"; "ball_rot_y";
   "ball_rot_z"; "ball_rot_w"; "0car1_av_x"; "0car1_av_y"; "0car1_av_z"; "0car1_lv_x";
   "0car1_lv_y"; "0car1_lv_z"; "0car1_loc_x"; "0car1_loc_y"; "0car1_loc_z";
   "0car1_rot_x"; "0car1_rot_y"; "0car1_rot_z"; "0car1_rot_w"; "0car2_av_x";
   "0car2_av_y"; "0car2_av_z"; "0car2_lv_x"; "0car2_lv_y"; "0car2_lv_z"; "0car2_loc_x";
   "0car2_loc_y"; "0car2_loc_z"; "0car2_rot_x"; "0car2_rot_y"; "0car2_rot_z";
   "0car2_rot_w"; "0car3_av_x"; "0car3_av_y"; "0car3_av_z"; "0car3_lv_x"; "0car3_lv_y";
   "0car3_lv_z"; "0car3_loc_x"; "0car3_loc_y"; "0car3_loc_z"; "0car3_rot_x";
   "0car3_rot_y"; "0car3_rot_z"; "0car3_rot_w"; "1car1_av_x"; "1car1_av_y";
   "1car1_av_z"; "1car1_lv_x"; "1car1_lv_y"; "1car1_lv_z"; "1car1_loc_x";
   "1car1_loc_y"; "1car1_loc_z"; "1car1_rot_x"; "1car1_rot_y"; "1car1_rot_z";
   "1car1_rot_w"; "1car2_av_x"; "1car2_av_y"; "1car2_av_z"; "1car2_lv_x"; "1car2_lv_y";
   "1car2_lv_z"; "1car2_loc_x"; "1car2_loc_y"; "1car2_loc_z"; "1car2_rot_x";
   "1car2_rot_y"; "1car2_rot_z"; "1car2_rot_w"; "1car3_av_x"; "1car3_av_y";
   "1car3_av_z"; "1car3_lv_x"; "1car3_lv_y"; "1car3_lv_z"; "1car3_loc_x";
   "1car3_loc_y"; "1car3_loc_z"; "1car3_rot_x"; "1car3_rot_y"; "1car3_rot_z";
   "1car3_rot_w"].


(** Two iteration orders of a [set]: the order of the argument, and its
    reverse. *)
Definition key_order : set_order :=
  {| set_iter := nodup string_dec;
     set_iter_perm := fun l => Permutation_refl (nodup string_dec l) |}.

Definition reversed_order : set_order :=
  {| set_iter := fun l => rev (nodup string_dec l);
     set_iter_perm := fun l => Permutation_rev (nodup string_dec l) |}.

(** The rows sampled from [trace_possession] every 5 frames at threshold 0. *)
Definition dataset_possession : list (list Z) :=
  Eval vm_compute in match shave_phys key_order trace_possession physics_possession 5 0 with
                     | Ok dataset => dataset
                     | Raise _ => []
                     end.

(** The first of those rows. *)
Definition row_possession : list Z :=
  Eval vm_compute in hd [] dataset_possession.


(** The relation kept between the collection built without interpolation
    ([raw]) and the one built with it ([int]) while frame [n] is being
    processed. *)
Definition refines (n : Z) (raw int : physics) : Prop :=
  (forall j k s, snap_at raw j k = Some s -> snap_at int j k = Some s) /\
  (forall j k, has_snapshot int j k = true ->
               has_snapshot raw j k = true \/
               exists p i, p < j < i /\ i - p <= 4 /\
                           has_snapshot raw p k = true /\ has_snapshot raw i k = true) /\
  (forall p i k, p < i -> i - p <= 4 ->
                 has_snapshot int p k = true -> has_snapshot int i k = true ->
                 forall j, p < j < i -> has_snapshot int j k = true) /\
  (forall j k, has_snapshot int j k = true -> 0 <= j <= n) /\
  (forall j k s, snap_at int j k = Some s -> s <> []).

(** Two loop states that differ at most in their collections. *)
Definition same_control (st1 st2 : gp_state) : Prop :=
  update_pointer st1 = update_pointer st2 /\
  ball_id st1 = ball_id st2 /\
  car_ids st1 = car_ids st2 /\
  teams st1 = teams st2.


(** [trace_gap3] extracted without interpolation. *)
Definition physics_gap3_raw : physics :=
  Eval vm_compute in match get_physics_with trace_gap3 true true false with
                     | Ok phys => phys
                     | Raise _ => []
                     end.


(** ** Vocabulary of the possession intervals *)







(** ** Vocabulary of the feature builder *)

(** The vector assembled for a frame before its length is checked. *)
Definition assembled (o : set_order) (scorer : option Z)
  (phys_snapshot : dict string snapshot) (b : snapshot) : list Z :=
  label_of scorer ++ get_leaf_nodes b ++
  team_block o phys_snapshot "0" ++ team_block o phys_snapshot "1".


(** Two cars of team 0 (actors 2 and 4) and one of team 1 (actor 3), all
    moving with the ball in frame 1. *)
Definition trace_two_cars : replay :=
  {| frames := [[spawns 1 "TAGame.Ball_TA"; spawns 2 "TAGame.Car_TA";
                 spawns 3 "TAGame.Car_TA"; spawns 4 "TAGame.Car_TA";
                 paints 2 0; paints 3 1; paints 4 0];
                [moves 1 100 5; moves 2 20 0; moves 3 30 0; moves 4 40 0]];
     key_frames := [0; 2];
     objects := sample_objects;
     marks := [] |}.

Definition physics_two_cars : physics := Eval vm_compute in physics_of trace_two_cars.

(** The snapshots that [moves] gives the ball and the cars of
    [trace_two_cars]. *)
Definition snapshot_at (y v : Z) : snapshot :=
  Eval cbv in match snapshot_of_body (sample_body y v) with
              | Some s => s
              | None => []
              end.

(** ** Vocabulary of the kickoffs *)

(** From [goal_frame] on there is a window of ten frames without snapshots
    and, at or after it, a window of ten frames that all have snapshots. *)
Definition reset_then_stored (phys : physics) (goal_frame : Z) : Prop :=
  exists w0 w, goal_frame <= w0 <= w /\
               window_any phys w0 = false /\ window_all phys w = true.

(** * Properties *)

(** ** Facts about the error monad and loops *)

Lemma bind_Ok_inv {A B : Type} (r : result A) (k : A -> result B) (b : B) :
  bind r k = Ok b -> exists a, r = Ok a /\ k a = Ok b.
Proof.
  destruct r as [a|e]; simpl; [eauto | discriminate].
Qed.

Lemma for_each_invariant {A S : Type} (P : S -> Prop) (body : S -> A -> result S) :
  forall (l : list A) (st st' : S),
    P st ->
    (forall s x s', In x l -> P s -> body s x = Ok s' -> P s') ->
    for_each body l st = Ok st' -> P st'.
Proof.
  induction l as [|x l IH]; simpl; intros st st' HP Hstep Hrun.
  - now inversion Hrun; subst.
  - apply bind_Ok_inv in Hrun. destruct Hrun as (s1 & Hx & Hrest).
    apply (IH s1 st'); eauto.
Qed.

Lemma for_each_app {A S : Type} (body : S -> A -> result S) (l1 l2 : list A) (st : S) :
  for_each body (l1 ++ l2) st = (st1 <- for_each body l1 st ;; for_each body l2 st1).
Proof.
  revert st. induction l1 as [|x l1 IH]; simpl; intros st; [reflexivity|].
  destruct (body st x) as [s1|e]; simpl; [apply IH | reflexivity].
Qed.

(** ** Facts about dictionaries *)

Section DictFacts.
Context {K V : Type} `{KeyDec K}.

Lemma dget_dset_same (k : K) (v : V) (d : dict K V) : dget k (dset k v d) = Some v.
Proof.
  induction d as [|[k' v'] d IH]; simpl.
  - destruct (key_dec k k); congruence.
  - destruct (key_dec k k') as [->|Hne]; simpl.
    + destruct (key_dec k' k'); congruence.
    + destruct (key_dec k k'); congruence.
Qed.

Lemma dget_dset_other (k k' : K) (v : V) (d : dict K V) :
  k <> k' -> dget k' (dset k v d) = dget k' d.
Proof.
  intros Hne. induction d as [|[k0 v0] d IH]; simpl.
  - destruct (key_dec k' k); congruence.
  - destruct (key_dec k k0) as [->|Hk]; simpl.
    + destruct (key_dec k' k0); congruence.
    + destruct (key_dec k' k0); congruence.
Qed.

Lemma dget_In (k : K) (v : V) (d : dict K V) : dget k d = Some v -> In (k, v) d.
Proof.
  induction d as [|[k' v'] d IH]; simpl; [discriminate|].
  destruct (key_dec k k') as [->|Hne].
  - intros [= ->]. now left.
  - intros Hg. right. auto.
Qed.

Lemma dget_In_keys (k : K) (v : V) (d : dict K V) : dget k d = Some v -> In k (dkeys d).
Proof.
  intros Hg. apply dget_In in Hg. unfold dkeys.
  change k with (fst (k, v)). now apply in_map.
Qed.

Lemma dget_None_keys (k : K) (d : dict K V) : dget k d = None <-> ~ In k (dkeys d).
Proof.
  induction d as [|[k' v'] d IH]; simpl.
  - tauto.
  - destruct (key_dec k k') as [->|Hne].
    + split; [discriminate | intros Hn; exfalso; apply Hn; now left].
    + rewrite IH. split; intros Hn; [intros [Heq|Hin]; [congruence|tauto] | tauto].
Qed.

Lemma In_keys_dget (k : K) (d : dict K V) : In k (dkeys d) -> exists v, dget k d = Some v.
Proof.
  intros Hin. destruct (dget k d) as [v|] eqn:E; [eauto|].
  apply dget_None_keys in E. contradiction.
Qed.

Lemma dkeys_dset_In (k : K) (v : V) (d : dict K V) (k' : K) :
  In k' (dkeys (dset k v d)) <-> k' = k \/ In k' (dkeys d).
Proof.
  induction d as [|[k0 v0] d IH]; simpl.
  - intuition congruence.
  - destruct (key_dec k k0) as [->|Hne]; simpl.
    + intuition congruence.
    + rewrite IH. intuition congruence.
Qed.

Lemma dkeys_dset_NoDup (k : K) (v : V) (d : dict K V) :
  NoDup (dkeys d) -> NoDup (dkeys (dset k v d)).
Proof.
  induction d as [|[k0 v0] d IH]; simpl; intros Hnd.
  - constructor; [intros []|constructor].
  - inversion Hnd as [|? ? Hnin Hnd']; subst.
    destruct (key_dec k k0) as [->|Hne]; simpl.
    + now constructor.
    + constructor; [|auto].
      intros Hin. apply dkeys_dset_In in Hin. destruct Hin; [congruence|contradiction].
Qed.


(** Writing a new key appends it. *)
Lemma dkeys_dset_fresh (k : K) (v : V) (d : dict K V) :
  ~ In k (dkeys d) -> dkeys (dset k v d) = dkeys d ++ [k].
Proof.
  induction d as [|[k0 v0] d IH]; simpl; [reflexivity|].
  intros Hn. destruct (key_dec k k0) as [->|Hne]; simpl.
  - exfalso. apply Hn. now left.
  - rewrite IH; [reflexivity|tauto].
Qed.

End DictFacts.

(** ** The snapshot store *)

Lemma snap_at_set_same (out : physics) (i : Z) (key : string) (s : snapshot) :
  snap_at (set_snapshot out i key s) i key = Some s.
Proof.
  unfold snap_at, set_snapshot.
  destruct (dget i out) as [fr|]; rewrite dget_dset_same; apply dget_dset_same.
Qed.

Lemma snap_at_set_other (out : physics) (i j : Z) (key k : string) (s : snapshot) :
  j <> i \/ k <> key ->
  snap_at (set_snapshot out i key s) j k = snap_at out j k.
Proof.
  intros Hne. unfold snap_at, set_snapshot.
  destruct (Z.eq_dec j i) as [->|Hji].
  - destruct Hne as [Hne|Hne]; [congruence|].
    destruct (dget i out) as [fr|] eqn:E; rewrite dget_dset_same.
    + apply dget_dset_other. congruence.
    + rewrite dget_dset_other by congruence. reflexivity.
  - destruct (dget i out) as [fr|]; rewrite dget_dset_other by congruence; reflexivity.
Qed.

Lemma has_snapshot_snap_at (out : physics) (j : Z) (key : string) :
  has_snapshot out j key =
  match snap_at out j key with
  | Some (_ :: _) => true
  | _ => false
  end.
Proof.
  unfold has_snapshot, snap_at. destruct (dget j out) as [fr|]; [|reflexivity].
  destruct (dget key fr) as [[|? ?]|]; reflexivity.
Qed.

Lemma all_snapshots_set (P : snapshot -> Prop) (out : physics) (i : Z) (key : string)
  (s : snapshot) :
  all_snapshots P out -> P s -> all_snapshots P (set_snapshot out i key s).
Proof.
  intros Hall Hs j k s' Hget.
  destruct (Z.eq_dec j i) as [->|Hji].
  - destruct (string_dec k key) as [->|Hk].
    + rewrite snap_at_set_same in Hget. congruence.
    + rewrite snap_at_set_other in Hget by auto. eauto.
  - rewrite snap_at_set_other in Hget by auto. eauto.
Qed.

Lemma back_fill_step_inv (out out' : physics) (i : Z) (key : string) (n : nat) :
  (fr <- match dget i out with Some fr => Ok fr | None => Raise KeyError end ;;
   s <- match dget key fr with Some s => Ok s | None => Raise KeyError end ;;
   Ok (set_snapshot out (i - 1 - Z.of_nat n) key s)) = Ok out' ->
  exists s, snap_at out i key = Some s /\
            out' = set_snapshot out (i - 1 - Z.of_nat n) key s.
Proof.
  unfold snap_at. destruct (dget i out) as [fr|]; simpl; [|discriminate].
  destruct (dget key fr) as [s|]; simpl; [|discriminate].
  intros [= <-]. eauto.
Qed.

Lemma all_snapshots_back_fill (P : snapshot -> Prop) (out out' : physics) (i : Z)
  (key : string) (m : Z) :
  all_snapshots P out -> back_fill out i key m = Ok out' -> all_snapshots P out'.
Proof.
  unfold back_fill. intros Hall Hrun.
  eapply for_each_invariant with (P := all_snapshots P); [exact Hall| |exact Hrun].
  intros o n o' _ Ho Hstep. apply back_fill_step_inv in Hstep.
  destruct Hstep as (s & Hs & ->). apply all_snapshots_set; eauto.
Qed.

Lemma all_snapshots_interp_loop (P : snapshot -> Prop) (fuel : nat) :
  forall (out out' : physics) (i : Z) (key : string) (m : Z),
    all_snapshots P out -> interp_loop fuel out i key m = Ok out' ->
    all_snapshots P out'.
Proof.
  induction fuel as [|fuel IH]; simpl; intros out out' i key m Hall Hrun.
  - now inversion Hrun; subst.
  - destruct (m <? 5); [|now inversion Hrun; subst].
    destruct (negb (has_snapshot out (i - m) key)).
    + eapply IH; eauto.
    + eapply all_snapshots_back_fill; eauto.
Qed.

Lemma all_snapshots_store (P : snapshot -> Prop) (interpolate : bool)
  (out out' : physics) (i : Z) (key : string) (s : snapshot) :
  all_snapshots P out -> P s -> store_snapshot interpolate out i key s = Ok out' ->
  all_snapshots P out'.
Proof.
  unfold store_snapshot, interpolate_back. intros Hall Hs Hrun.
  pose proof (all_snapshots_set P out i key s Hall Hs) as Hset.
  destruct (negb interpolate); [now inversion Hrun; subst|].
  destruct ((i =? 0) || has_snapshot (set_snapshot out i key s) (i - 1) key).
  - now inversion Hrun; subst.
  - eapply all_snapshots_interp_loop; eauto.
Qed.

(** ** Invariants of the extraction loop *)

Lemma find_phys_In (updated : list entry) (rb : rigid_body_state) :
  find_phys updated = Ok (Some rb) -> In rb (entry_bodies updated).
Proof.
  unfold entry_bodies.
  induction updated as [|e rest IH]; simpl; [discriminate|].
  destruct (negb (entry_id e =? PHYS_ID)).
  - intros Hf. apply in_or_app. right. auto.
  - destruct (entry_value e) as [rb'| |]; try discriminate.
    intros [= ->]. now left.
Qed.

Section SnapshotInvariant.
Variable P : snapshot -> Prop.

Lemma all_snapshots_replication_step (interpolate : bool) (i : Z)
  (ball_id car_ids : list Z) (teams : teams_t) (out out' : physics) (r : replication) :
  (forall rb s, In rb (replication_bodies r) -> snapshot_of_body rb = Some s -> P s) ->
  all_snapshots P out ->
  replication_step interpolate i ball_id car_ids teams out r = Ok out' ->
  all_snapshots P out'.
Proof.
  unfold replication_step, replication_bodies. intros Hbody Hall Hrun.
  destruct (rep_value r) as [c|updated|]; try (now inversion Hrun; subst).
  destruct (negb (Zmem (actor_id r) (ball_id ++ car_ids))); [now inversion Hrun; subst|].
  apply bind_Ok_inv in Hrun. destruct Hrun as ([rb|] & Hfind & Hrun);
    [|now inversion Hrun; subst].
  apply find_phys_In in Hfind.
  specialize (Hbody rb). unfold snapshot_of_body in Hbody.
  destruct (angular_velocity rb) as [av|]; [|now inversion Hrun; subst].
  destruct (linear_velocity rb) as [lv|]; [|now inversion Hrun; subst].
  eapply all_snapshots_store; eauto.
Qed.

Lemma all_snapshots_frame_step (t : replay) (ball cars interpolate : bool) (i : Z)
  (fr : frame) (st st' : gp_state) :
  (forall rb s, In rb (frame_bodies fr) -> snapshot_of_body rb = Some s -> P s) ->
  all_snapshots P (output st) ->
  frame_step t ball cars interpolate i fr st = Ok st' ->
  all_snapshots P (output st').
Proof.
  unfold frame_step. intros Hbody Hall Hrun.
  apply bind_Ok_inv in Hrun. destruct Hrun as (st1 & Hepoch & Hrun).
  apply bind_Ok_inv in Hrun. destruct Hrun as (out & Hreps & Hrun).
  inversion Hrun; subst; simpl. clear Hrun.
  assert (Hout1 : output st1 = output st).
  { unfold epoch_step in Hepoch.
    destruct (Nat.eqb _ _); [now inversion Hepoch|].
    apply bind_Ok_inv in Hepoch. destruct Hepoch as (b & _ & Hepoch).
    destruct (negb (i =? b)); [now inversion Hepoch|].
    apply bind_Ok_inv in Hepoch. destruct Hepoch as (? & _ & Hepoch).
    apply bind_Ok_inv in Hepoch. destruct Hepoch as (? & _ & Hepoch).
    apply bind_Ok_inv in Hepoch. destruct Hepoch as (? & _ & Hepoch).
    now inversion Hepoch. }
  eapply for_each_invariant with (P := all_snapshots P); [|  |exact Hreps].
  - now rewrite Hout1.
  - intros o r o' Hin Ho Hstep.
    eapply all_snapshots_replication_step; [|exact Ho|exact Hstep].
    intros rb s Hrb. apply Hbody. unfold frame_bodies.
    apply in_flat_map. eauto.
Qed.

Lemma all_snapshots_frames_loop (t : replay) (ball cars interpolate : bool) :
  forall (fs : list frame) (i : Z) (st st' : gp_state),
    (forall fr rb s, In fr fs -> In rb (frame_bodies fr) ->
                     snapshot_of_body rb = Some s -> P s) ->
    all_snapshots P (output st) ->
    frames_loop t ball cars interpolate i fs st = Ok st' ->
    all_snapshots P (output st').
Proof.
  induction fs as [|fr fs IH]; simpl; intros i st st' Hbody Hall Hrun.
  - now inversion Hrun; subst.
  - apply bind_Ok_inv in Hrun. destruct Hrun as (st1 & Hstep & Hrun).
    eapply IH; [| |exact Hrun].
    + intros fr' rb s Hin. apply Hbody. now right.
    + eapply all_snapshots_frame_step; [|exact Hall|exact Hstep].
      intros rb s. apply Hbody. now left.
Qed.

Lemma all_snapshots_get_physics (t : replay) (ball cars interpolate : bool)
  (phys : physics) :
  (forall rb s, In rb (trace_bodies t) -> snapshot_of_body rb = Some s -> P s) ->
  get_physics_with t ball cars interpolate = Ok phys ->
  all_snapshots P phys.
Proof.
  unfold get_physics_with. intros Hbody Hrun.
  destruct (negb (ball || cars)); [discriminate|].
  destruct (update_frames t) as [|u0 ?]; [discriminate|].
  destruct (negb (u0 =? 0)); [discriminate|].
  apply bind_Ok_inv in Hrun. destruct Hrun as (st & Hloop & Hrun).
  inversion Hrun; subst. clear Hrun.
  eapply all_snapshots_frames_loop; [| |exact Hloop].
  - intros fr rb s Hin Hrb. apply Hbody. unfold trace_bodies.
    apply in_flat_map. eauto.
  - intros j key s. unfold snap_at. simpl. discriminate.
Qed.

End SnapshotInvariant.

Lemma make_snapshot_shape (av lv loc : vec3) (rot : quaternion) :
  shape (make_snapshot av lv loc rot) = physics_shape.
Proof. reflexivity. Qed.

Lemma make_snapshot_leaves (av lv loc : vec3) (rot : quaternion) :
  get_leaf_nodes (make_snapshot av lv loc rot) =
  [vx av; vy av; vz av; vx lv; vy lv; vz lv; vx loc; vy loc; vz loc;
   qx rot; qy rot; qz rot; qw rot].
Proof. reflexivity. Qed.

(** C10: every snapshot stored by the extraction, interpolated or not, has
    exactly the attributes angular_velocity, linear_velocity and location,
    each with components x, y, z, and rotation with x, y, z, w (13 values in
    all), and it is the snapshot of a rigid-body state of the trace whose
    angular and linear velocity are both non-null. *)
Theorem stored_snapshots_complete (t : replay) (ball cars interpolate : bool)
  (phys : physics) (i : Z) (fr : dict string snapshot) (key : string) (s : snapshot) :
  get_physics_with t ball cars interpolate = Ok phys ->
  dget i phys = Some fr ->
  dget key fr = Some s ->
  shape s = physics_shape /\
  List.length (get_leaf_nodes s) = 13%nat /\
  exists rb av lv,
    In rb (trace_bodies t) /\
    angular_velocity rb = Some av /\
    linear_velocity rb = Some lv /\
    s = make_snapshot av lv (location rb) (rotation rb).
Proof.
  intros Hrun Hi Hkey.
  assert (Hall : all_snapshots
                   (fun s => exists rb av lv,
                        In rb (trace_bodies t) /\
                        angular_velocity rb = Some av /\
                        linear_velocity rb = Some lv /\
                        s = make_snapshot av lv (location rb) (rotation rb)) phys).
  { eapply all_snapshots_get_physics; [|exact Hrun].
    intros rb s' Hin. unfold snapshot_of_body.
    destruct (angular_velocity rb) as [av|] eqn:Eav; [|discriminate].
    destruct (linear_velocity rb) as [lv|] eqn:Elv; [|discriminate].
    intros [= <-]. exists rb, av, lv. auto. }
  destruct (Hall i key s) as (rb & av & lv & Hin & Hav & Hlv & ->).
  { unfold snap_at. now rewrite Hi. }
  split; [apply make_snapshot_shape|].
  split; [reflexivity|].
  exists rb, av, lv. auto.
Qed.

(** ** The feature builder *)

Lemma smem_In (x : string) (l : list string) : smem x l = true <-> In x l.
Proof.
  unfold smem. rewrite existsb_exists. split.
  - intros (y & Hin & Heq). apply String.eqb_eq in Heq. now subst.
  - intros Hin. exists x. split; [exact Hin | apply String.eqb_refl].
Qed.

Lemma smem_dkeys_false {V : Type} (k : string) (d : dict string V) :
  smem k (dkeys d) = false <-> dget k d = None.
Proof.
  rewrite dget_None_keys, <- smem_In. destruct (smem k (dkeys d)); split; congruence.
Qed.

Lemma valid_scorer_check (scorer : option Z) :
  valid_scorer scorer ->
  match scorer with
  | Some s => negb ((s =? 0) || (s =? 1))
  | None => false
  end = false.
Proof.
  intros [->|[->| ->]]; reflexivity.
Qed.

(** A run that exhausts its fuel went through [fuel] consecutive stored frames. *)
Lemma create_feature_fuel_None (o : set_order) (phys : physics) (scorer : option Z) :
  forall (fuel : nat) (frame : Z),
    create_feature_fuel o fuel phys frame scorer = None ->
    forall k, (k < fuel)%nat -> In (frame + Z.of_nat k) (dkeys phys).
Proof.
  induction fuel as [|fuel IH]; intros frame Hnone k Hk; [lia|].
  simpl in Hnone.
  destruct (match scorer with Some s => negb ((s =? 0) || (s =? 1)) | None => false end);
    [discriminate|].
  destruct (dget frame phys) as [snap|] eqn:Hframe; [|discriminate].
  assert (Hrec : create_feature_fuel o fuel phys (frame + 1) scorer = None).
  { destruct (negb (smem "ball" (dkeys snap))); [discriminate|].
    destruct (smem "" (dkeys snap)); [discriminate|].
    destruct (group_values snap ["ball"]); [|discriminate].
    destruct (TEAM_SIZE <? List.length (set_iter o (filter (starts_with "0") (dkeys snap))))%nat; [exact Hnone|].
    destruct (group_values snap (set_iter o _)); [|discriminate].
    destruct (TEAM_SIZE <? List.length (set_iter o (filter (starts_with "1") (dkeys snap))))%nat; [exact Hnone|].
    destruct (group_values snap (set_iter o _)); [|discriminate].
    destruct (_ && _); discriminate. }
  destruct k as [|k].
  - rewrite Z.add_0_r. eapply dget_In_keys; eauto.
  - replace (frame + Z.of_nat (S k)) with (frame + 1 + Z.of_nat k) by lia.
    apply IH; [exact Hrec | lia].
Qed.

Lemma consecutive_keys_bound (l : list Z) (frame : Z) (n : nat) :
  (forall k, (k < n)%nat -> In (frame + Z.of_nat k) l) -> (n <= List.length l)%nat.
Proof.
  intros Hin.
  assert (Hlen : List.length (Zrange frame n) = n).
  { unfold Zrange. now rewrite length_map, length_seq. }
  rewrite <- Hlen. apply NoDup_incl_length.
  - unfold Zrange. apply Injective_map_NoDup; [|apply seq_NoDup].
    intros a b Hab. lia.
  - intros z Hz. unfold Zrange in Hz. apply in_map_iff in Hz.
    destruct Hz as (k & <- & Hk). apply in_seq in Hk. apply Hin. lia.
Qed.


(** [create_feature] always produces an outcome: the fuel it is given is
    never exhausted. *)
Lemma create_feature_total (o : set_order) (phys : physics) (frame : Z) (scorer : option Z) :
  exists r, create_feature o phys frame scorer = Some r.
Proof.
  unfold create_feature.
  destruct (create_feature_fuel o (S (List.length phys)) phys frame scorer) as [r|] eqn:E;
    [eauto|].
  pose proof (create_feature_fuel_None o phys scorer _ frame E) as Hin.
  apply consecutive_keys_bound in Hin. unfold dkeys in Hin.
  rewrite length_map in Hin. lia.
Qed.

Lemma group_values_length (snap : dict string snapshot) (group : list string) :
  (forall k s, dget k snap = Some s -> List.length (get_leaf_nodes s) = 13%nat) ->
  forall v, group_values snap group = Ok v ->
            List.length v = (13 * List.length group)%nat.
Proof.
  intros H13. unfold group_values.
  assert (Hgen : forall acc v,
             for_each (fun acc item => s <- dlookup item snap ;; Ok (acc ++ get_leaf_nodes s))
               group acc = Ok v ->
             List.length v = (List.length acc + 13 * List.length group)%nat).
  { induction group as [|item group IH]; simpl; intros acc v Hrun.
    - inversion Hrun; subst. lia.
    - apply bind_Ok_inv in Hrun. destruct Hrun as (acc1 & Hitem & Hrun).
      apply bind_Ok_inv in Hitem. destruct Hitem as (s & Hs & Hacc).
      inversion Hacc; subst. clear Hacc.
      unfold dlookup in Hs. destruct (dget item snap) as [s'|] eqn:E; [|discriminate].
      inversion Hs; subst.
      apply IH in Hrun. rewrite Hrun, length_app, (H13 _ _ E). lia. }
  intros v Hrun. apply Hgen in Hrun. simpl in Hrun. exact Hrun.
Qed.

Lemma zero_padding_length (group : list string) :
  List.length (zero_padding group) = (13 * (TEAM_SIZE - List.length group))%nat.
Proof. unfold zero_padding. apply repeat_length. Qed.

(** On a store whose snapshots all have 13 leaves, a returned vector has the
    intended length. *)
Lemma create_feature_fuel_length (o : set_order) (phys : physics) (scorer : option Z) :
  all_snapshots (fun s => List.length (get_leaf_nodes s) = 13%nat) phys ->
  forall (fuel : nat) (frame : Z) (v : list Z),
    create_feature_fuel o fuel phys frame scorer = Some (Ok (Some v)) ->
    List.length v = feature_length scorer.
Proof.
  intros Hall. induction fuel as [|fuel IH]; intros frame v Hrun; [discriminate|].
  simpl in Hrun.
  destruct (match scorer with Some s => negb ((s =? 0) || (s =? 1)) | None => false end);
    [discriminate|].
  destruct (dget frame phys) as [snap|] eqn:Hframe; [|discriminate].
  assert (H13 : forall k s, dget k snap = Some s ->
                            List.length (get_leaf_nodes s) = 13%nat).
  { intros k s Hk. apply (Hall frame k). unfold snap_at. now rewrite Hframe. }
  destruct (negb (smem "ball" (dkeys snap))); [discriminate|].
  destruct (smem "" (dkeys snap)); [discriminate|].
  destruct (group_values snap ["ball"]) as [vb|] eqn:Eb; [|discriminate].
  destruct (TEAM_SIZE <? List.length (set_iter o (filter (starts_with "0") (dkeys snap))))%nat eqn:E0; [eauto|].
  destruct (group_values snap (set_iter o (filter (starts_with "0") (dkeys snap)))) as [v0|] eqn:Ev0;
    [|discriminate].
  destruct (TEAM_SIZE <? List.length (set_iter o (filter (starts_with "1") (dkeys snap))))%nat eqn:E1; [eauto|].
  destruct (group_values snap (set_iter o (filter (starts_with "1") (dkeys snap)))) as [v1|] eqn:Ev1;
    [|discriminate].
  destruct (_ && _); [discriminate|].
  inversion Hrun; subst. clear Hrun.
  apply (group_values_length snap _ H13) in Eb, Ev0, Ev1.
  apply Nat.ltb_ge in E0, E1.
  repeat rewrite length_app. rewrite !zero_padding_length, Eb, Ev0, Ev1.
  unfold feature_length, TEAM_SIZE in *. simpl List.length.
  destruct scorer; simpl List.length; lia.
Qed.


(** Every snapshot stored by the extraction has 13 leaves. *)
Lemma snapshots_have_13_leaves (t : replay) (ball cars interpolate : bool)
  (phys : physics) :
  get_physics_with t ball cars interpolate = Ok phys ->
  all_snapshots (fun s => List.length (get_leaf_nodes s) = 13%nat) phys.
Proof.
  apply all_snapshots_get_physics.
  intros rb s _. unfold snapshot_of_body.
  destruct (angular_velocity rb); [|discriminate].
  destruct (linear_velocity rb); [|discriminate].
  intros [= <-]. reflexivity.
Qed.

(** Elements and size of a [set], whatever its iteration order. *)
Lemma set_iter_In (o : set_order) (l : list string) (k : string) :
  In k (set_iter o l) <-> In k l.
Proof.
  rewrite <- (nodup_In string_dec l k). split.
  - apply Permutation_in. apply Permutation_sym, set_iter_perm.
  - apply Permutation_in. apply set_iter_perm.
Qed.


Lemma set_iter_NoDup (o : set_order) (l : list string) : NoDup (set_iter o l).
Proof.
  eapply Permutation_NoDup; [apply set_iter_perm | apply NoDup_nodup].
Qed.

Lemma set_iter_of_NoDup (o : set_order) (l : list string) :
  NoDup l -> Permutation l (set_iter o l).
Proof.
  intros Hnd. rewrite <- (nodup_fixed_point string_dec Hnd) at 1. apply set_iter_perm.
Qed.

(** The values gathered for a group of stored keys: the leaves of each key
    in turn. *)
Lemma group_values_leaves (snap : dict string snapshot) (group : list string) :
  (forall k, In k group -> In k (dkeys snap)) ->
  group_values snap group = Ok (flat_map (leaves_at snap) group).
Proof.
  unfold group_values.
  assert (Hgen : forall (acc : list Z),
             (forall k, In k group -> In k (dkeys snap)) ->
             for_each (fun acc item => s <- dlookup item snap ;; Ok (acc ++ get_leaf_nodes s))
               group acc = Ok (acc ++ flat_map (leaves_at snap) group)).
  { induction group as [|k group IH]; intros acc Hin; simpl.
    - now rewrite app_nil_r.
    - destruct (In_keys_dget k snap (Hin k (or_introl eq_refl))) as (s & Hs).
      unfold dlookup at 1. unfold leaves_at at 1. rewrite Hs. simpl.
      rewrite IH by (intros k' Hk'; apply Hin; now right).
      now rewrite <- app_assoc. }
  intros Hin. now rewrite Hgen.
Qed.

Lemma team_cars_keys (o : set_order) (snap : dict string snapshot) (c : ascii) :
  forall k, In k (team_cars o snap c) -> In k (dkeys snap).
Proof.
  intros k Hk. unfold team_cars in Hk. apply set_iter_In, filter_In in Hk. tauto.
Qed.

(** The outcome of [create_feature] on a stored frame that has a ball, no
    empty key and at most [TEAM_SIZE] cars in each team: the assembled
    vector when it has 91 or 92 entries, [None] otherwise. *)
Lemma create_feature_single_frame (o : set_order) (phys : physics) (frame : Z)
  (scorer : option Z) (phys_snapshot : dict string snapshot) (b : snapshot) :
  valid_scorer scorer ->
  dget frame phys = Some phys_snapshot ->
  dget "ball" phys_snapshot = Some b ->
  ~ In "" (dkeys phys_snapshot) ->
  (List.length (team_cars o phys_snapshot "0") <= TEAM_SIZE)%nat ->
  (List.length (team_cars o phys_snapshot "1") <= TEAM_SIZE)%nat ->
  create_feature o phys frame scorer =
  Some (Ok (if Nat.eqb (List.length (assembled o scorer phys_snapshot b)) 91 ||
               Nat.eqb (List.length (assembled o scorer phys_snapshot b)) 92
            then Some (assembled o scorer phys_snapshot b) else None)).
Proof.
  intros Hvalid Hframe Hball Hempty H0 H1.
  unfold create_feature. cbn [create_feature_fuel].
  rewrite (valid_scorer_check _ Hvalid), Hframe.
  assert (Hsb : smem "ball" (dkeys phys_snapshot) = true).
  { apply smem_In. eapply dget_In_keys; eauto. }
  rewrite Hsb. simpl negb. cbv iota.
  assert (Hnoempty : smem "" (dkeys phys_snapshot) = false).
  { destruct (smem "" (dkeys phys_snapshot)) eqn:E; [|reflexivity].
    apply smem_In in E. contradiction. }
  rewrite Hnoempty.
  assert (Hvb : group_values phys_snapshot ["ball"] = Ok (get_leaf_nodes b)).
  { unfold group_values. simpl. unfold dlookup. rewrite Hball. reflexivity. }
  rewrite Hvb.
  fold (team_cars o phys_snapshot "0"). fold (team_cars o phys_snapshot "1").
  apply Nat.ltb_ge in H0. apply Nat.ltb_ge in H1. rewrite H0, H1.
  rewrite !group_values_leaves by apply team_cars_keys.
  fold (label_of scorer).
  fold (team_block o phys_snapshot "0"). fold (team_block o phys_snapshot "1").
  assert (Heq : ((label_of scorer ++ get_leaf_nodes b) ++ team_block o phys_snapshot "0") ++
                team_block o phys_snapshot "1" = assembled o scorer phys_snapshot b).
  { unfold assembled. now rewrite <- !app_assoc. }
  rewrite Heq.
  destruct (Nat.eqb (List.length (assembled o scorer phys_snapshot b)) 91);
    destruct (Nat.eqb (List.length (assembled o scorer phys_snapshot b)) 92); reflexivity.
Qed.



(** C9: a frame with no entry in the collection makes [create_feature]
    raise; with a valid scorer the exception is the [KeyError] of the
    lookup, and no scorer lets the call return a value or [None]. *)
Theorem create_feature_missing_frame (o : set_order) (phys : physics) (frame : Z) (scorer : option Z) :
  dget frame phys = None ->
  (valid_scorer scorer -> create_feature o phys frame scorer = Some (Raise KeyError)) /\
  (exists e, create_feature o phys frame scorer = Some (Raise e)).
Proof.
  intros Hmiss. unfold create_feature. simpl. rewrite Hmiss. split.
  - intros Hvalid. now rewrite (valid_scorer_check _ Hvalid).
  - destruct (match scorer with Some s => negb ((s =? 0) || (s =? 1)) | None => false end);
      eauto.
Qed.

(** C2 (as the code has it): a stored frame without a ['ball'] entry makes
    [create_feature] return [None]; there is no move to the next frame. *)
Theorem create_feature_without_ball (o : set_order) (phys : physics) (frame : Z) (scorer : option Z)
  (phys_snapshot : dict string snapshot) :
  valid_scorer scorer ->
  dget frame phys = Some phys_snapshot ->
  dget "ball" phys_snapshot = None ->
  create_feature o phys frame scorer = Some (Ok None).
Proof.
  intros Hvalid Hframe Hball. unfold create_feature. simpl.
  rewrite (valid_scorer_check _ Hvalid), Hframe.
  apply smem_dkeys_false in Hball. now rewrite Hball.
Qed.

Lemma stored_snapshots_complete_witness :
  shape (make_snapshot {| vx := 1; vy := 2; vz := 3 |} {| vx := 4; vy := 5; vz := 6 |}
           {| vx := 7; vy := 100; vz := 9 |}
           {| qx := 10; qy := 11; qz := 12; qw := 13 |}) = physics_shape /\
  List.length
    (get_leaf_nodes
       (make_snapshot {| vx := 1; vy := 2; vz := 3 |} {| vx := 4; vy := 5; vz := 6 |}
          {| vx := 7; vy := 100; vz := 9 |}
          {| qx := 10; qy := 11; qz := 12; qw := 13 |})) = 13%nat /\
  exists rb av lv,
    In rb (trace_bodies trace_basic) /\
    angular_velocity rb = Some av /\
    linear_velocity rb = Some lv /\
    make_snapshot {| vx := 1; vy := 2; vz := 3 |} {| vx := 4; vy := 5; vz := 6 |}
      {| vx := 7; vy := 100; vz := 9 |}
      {| qx := 10; qy := 11; qz := 12; qw := 13 |} =
    make_snapshot av lv (location rb) (rotation rb).
Proof.
  eapply (stored_snapshots_complete trace_basic true true true physics_basic 1 _ "ball");
    reflexivity.
Defined.


Lemma create_feature_missing_frame_witness :
  (valid_scorer None -> create_feature key_order physics_basic 7 None = Some (Raise KeyError)) /\
  (exists e, create_feature key_order physics_basic 7 None = Some (Raise e)).
Proof.
  apply (create_feature_missing_frame key_order physics_basic 7 None). reflexivity.
Defined.

Lemma create_feature_without_ball_witness :
  create_feature key_order physics_late_ball 1 None = Some (Ok None).
Proof.
  eapply (create_feature_without_ball key_order physics_late_ball 1 None);
    [left; reflexivity | reflexivity | reflexivity].
Defined.

(** C2 as stated fails: frame 1 is stored without a ball and frame 2 yields
    a feature, yet the call on frame 1 returns [None], not that feature. *)
Lemma create_feature_no_shift_on_missing_ball :
  dget "ball" (match dget 1 physics_late_ball with Some fr => fr | None => [] end) = None /\
  dmem_frame physics_late_ball 1 = true /\
  create_feature key_order physics_late_ball 1 None = Some (Ok None) /\
  create_feature key_order physics_late_ball 1 None <> create_feature key_order physics_late_ball 2 None /\
  exists v, create_feature key_order physics_late_ball 2 None = Some (Ok (Some v)).
Proof.
  repeat split; try reflexivity.
  - vm_compute. discriminate.
  - eexists. vm_compute. reflexivity.
Qed.

(** ** The interpolation block *)

Lemma has_snapshot_set_other (out : physics) (i j : Z) (key k : string) (s : snapshot) :
  j <> i \/ k <> key ->
  has_snapshot (set_snapshot out i key s) j k = has_snapshot out j k.
Proof.
  intros Hne. now rewrite !has_snapshot_snap_at, snap_at_set_other.
Qed.

Lemma back_fill_spec (i : Z) (key : string) (s : snapshot) :
  forall (n : nat) (out : physics),
    snap_at out i key = Some s ->
    exists out',
      back_fill out i key (Z.of_nat n) = Ok out' /\
      (forall j, i - Z.of_nat n <= j < i -> snap_at out' j key = Some s) /\
      (forall j k, k <> key \/ j < i - Z.of_nat n \/ i <= j ->
                   snap_at out' j k = snap_at out j k).
Proof.
  unfold back_fill. intros n. rewrite Nat2Z.id.
  induction n as [|n IH]; intros out Hs.
  - exists out. simpl. split; [reflexivity|]. split; [intros j Hj; lia | reflexivity].
  - destruct (IH out Hs) as (out1 & Hrun & Hfill & Hrest).
    rewrite seq_S, for_each_app, Hrun. simpl.
    assert (Hs1 : snap_at out1 i key = Some s).
    { rewrite Hrest; [exact Hs | right; right; lia]. }
    unfold snap_at in Hs1.
    destruct (dget i out1) as [fr|]; [|discriminate]. simpl.
    rewrite Hs1. simpl.
    eexists. split; [reflexivity|]. split.
    + intros j Hj. destruct (Z.eq_dec j (i - 1 - Z.of_nat n)) as [->|Hne].
      * apply snap_at_set_same.
      * rewrite snap_at_set_other by auto. apply Hfill. lia.
    + intros j k Hjk. rewrite snap_at_set_other.
      * apply Hrest. destruct Hjk as [Hk|Hj]; [now left | right; lia].
      * destruct Hjk as [Hk|Hj]; [now right | left; lia].
Qed.

(** At frame 0 the interpolation block does nothing. *)
Lemma store_snapshot_frame0 (out : physics) (key : string) (s : snapshot) :
  store_snapshot true out 0 key s = Ok (set_snapshot out 0 key s).
Proof. reflexivity. Qed.

(** No snapshot in the window [i-4, i-1]: nothing is filled. *)
Lemma store_snapshot_no_fill (out : physics) (i : Z) (key : string) (s : snapshot) :
  (forall j, i - 4 <= j < i -> has_snapshot out j key = false) ->
  store_snapshot true out i key s = Ok (set_snapshot out i key s).
Proof.
  intros Hgap. unfold store_snapshot, interpolate_back. simpl negb. cbv iota.
  destruct (i =? 0); [reflexivity|]. simpl orb.
  assert (H' : forall j, i - 4 <= j < i ->
                         has_snapshot (set_snapshot out i key s) j key = false).
  { intros j Hj. rewrite has_snapshot_set_other by (left; lia). now apply Hgap. }
  rewrite (H' (i - 1)) by lia.
  cbn [interp_loop]. simpl (_ <? 5).  cbv iota.
  rewrite (H' (i - 1)) by lia. simpl negb. cbv iota.
  simpl (_ <? 5). cbv iota.
  rewrite (H' (i - 2)) by lia. simpl negb. cbv iota.
  simpl (_ <? 5). cbv iota.
  rewrite (H' (i - 3)) by lia. simpl negb. cbv iota.
  simpl (_ <? 5). cbv iota.
  rewrite (H' (i - 4)) by lia. simpl negb. cbv iota.
  reflexivity.
Qed.

Lemma interp_loop_fill (out : physics) (i : Z) (key : string) (s : snapshot) (g : nat) :
  (1 <= g <= 3)%nat ->
  snap_at out i key = Some s ->
  (forall j, i - Z.of_nat g <= j < i -> has_snapshot out j key = false) ->
  has_snapshot out (i - Z.of_nat g - 1) key = true ->
  interp_loop 5 out i key 1 = back_fill out i key (Z.of_nat g).
Proof.
  intros Hg Hs Hgap Hprev.
  assert (Hcases : g = 1%nat \/ g = 2%nat \/ g = 3%nat) by lia.
  cbn [interp_loop]. simpl (1 <? 5). cbv iota.
  rewrite (Hgap (i - 1)) by lia. simpl negb. cbv iota.
  simpl (_ <? 5). cbv iota. simpl (1 + 1).
  destruct Hcases as [->|[->| ->]]; simpl Z.of_nat in *.
  - replace (i - 2) with (i - 1 - 1) by lia. rewrite Hprev. reflexivity.
  - rewrite (Hgap (i - 2)) by lia. simpl negb. cbv iota.
    simpl (_ <? 5). cbv iota. simpl (2 + 1).
    replace (i - 3) with (i - 2 - 1) by lia. rewrite Hprev. reflexivity.
  - rewrite (Hgap (i - 2)) by lia. simpl negb. cbv iota.
    simpl (_ <? 5). cbv iota. simpl (2 + 1).
    rewrite (Hgap (i - 3)) by lia. simpl negb. cbv iota.
    simpl (_ <? 5). cbv iota. simpl (3 + 1).
    replace (i - 4) with (i - 3 - 1) by lia. rewrite Hprev. reflexivity.
Qed.

(** C1 (as the code has it): when a snapshot is stored for a key at frame
    [i] after a gap of [g] frames without one, the block fills every frame
    of the gap with the snapshot just stored if the gap has 1 to 3 frames
    and is preceded by a snapshot; it fills nothing if no frame of
    [i-4 .. i-1] has a snapshot (so for every gap of 4 or more frames, and
    when there is no earlier snapshot); and at frame 0 it does nothing. *)
Theorem interpolation_window (out : physics) (i : Z) (key : string) (s : snapshot)
  (g : Z) :
  i <> 0 ->
  1 <= g ->
  (forall j, i - g <= j < i -> has_snapshot out j key = false) ->
  (g <= 3 -> has_snapshot out (i - g - 1) key = true ->
   exists out',
     store_snapshot true out i key s = Ok out' /\
     (forall j, i - g <= j <= i -> snap_at out' j key = Some s) /\
     (forall j k, k <> key \/ j < i - g \/ i < j ->
                  snap_at out' j k = snap_at out j k)) /\
  (4 <= g -> store_snapshot true out i key s = Ok (set_snapshot out i key s)) /\
  ((forall j, i - 4 <= j < i -> has_snapshot out j key = false) ->
   store_snapshot true out i key s = Ok (set_snapshot out i key s)) /\
  store_snapshot true out 0 key s = Ok (set_snapshot out 0 key s).
Proof.
  intros Hi Hg Hgap. split; [|split; [|split]].
  - intros Hg3 Hprev.
    unfold store_snapshot, interpolate_back. simpl negb. cbv iota.
    apply Z.eqb_neq in Hi. rewrite Hi. simpl orb.
    rewrite has_snapshot_set_other by (left; lia).
    rewrite (Hgap (i - 1)) by lia.
    set (out1 := set_snapshot out i key s).
    assert (Hs1 : snap_at out1 i key = Some s) by apply snap_at_set_same.
    rewrite (interp_loop_fill out1 i key s (Z.to_nat g)); rewrite ?Z2Nat.id by lia;
      try lia; try exact Hs1.
    + destruct (back_fill_spec i key s (Z.to_nat g) out1 Hs1) as (out' & Hrun & Hfill & Hrest).
      rewrite Z2Nat.id in Hrun, Hfill, Hrest by lia.
      exists out'. split; [exact Hrun|]. split.
      * intros j Hj. destruct (Z.eq_dec j i) as [->|Hne].
        -- rewrite Hrest; [exact Hs1 | right; right; lia].
        -- apply Hfill. lia.
      * intros j k Hjk. rewrite Hrest.
        -- unfold out1. apply snap_at_set_other.
           destruct Hjk as [Hk|Hj]; [now right | left; lia].
        -- destruct Hjk as [Hk|Hj]; [now left | right; lia].
    + intros j Hj. unfold out1. rewrite has_snapshot_set_other by (left; lia).
      now apply Hgap.
    + unfold out1. rewrite has_snapshot_set_other by (left; lia). exact Hprev.
  - intros Hg4. apply store_snapshot_no_fill. intros j Hj. apply Hgap. lia.
  - apply store_snapshot_no_fill.
  - apply store_snapshot_frame0.
Qed.

Lemma interpolation_window_witness :
  (3 <= 3 -> has_snapshot physics_before_gap (5 - 3 - 1) "ball" = true ->
   exists out',
     store_snapshot true physics_before_gap 5 "ball" snapshot_after_gap = Ok out' /\
     (forall j, 5 - 3 <= j <= 5 -> snap_at out' j "ball" = Some snapshot_after_gap) /\
     (forall j k, k <> "ball" \/ j < 5 - 3 \/ 5 < j ->
                  snap_at out' j k = snap_at physics_before_gap j k)) /\
  (4 <= 3 -> store_snapshot true physics_before_gap 5 "ball" snapshot_after_gap =
             Ok (set_snapshot physics_before_gap 5 "ball" snapshot_after_gap)) /\
  ((forall j, 5 - 4 <= j < 5 -> has_snapshot physics_before_gap j "ball" = false) ->
   store_snapshot true physics_before_gap 5 "ball" snapshot_after_gap =
   Ok (set_snapshot physics_before_gap 5 "ball" snapshot_after_gap)) /\
  store_snapshot true physics_before_gap 0 "ball" snapshot_after_gap =
  Ok (set_snapshot physics_before_gap 0 "ball" snapshot_after_gap).
Proof.
  apply (interpolation_window physics_before_gap 5 "ball" snapshot_after_gap 3).
  - discriminate.
  - lia.
  - intros j Hj.
    assert (Hcases : j = 2 \/ j = 3 \/ j = 4) by lia.
    destruct Hcases as [->|[->| ->]]; reflexivity.
Defined.

(** The store step instantiated just before is the one the extraction takes on
    [trace_gap3]: the three frames of the gap are filled. *)
Lemma gap_of_three_is_filled :
  get_physics trace_gap3 = Ok physics_gap3 /\
  store_snapshot true physics_before_gap 5 "ball" snapshot_after_gap = Ok physics_gap3 /\
  snap_at physics_gap3 2 "ball" = Some snapshot_after_gap /\
  snap_at physics_gap3 3 "ball" = Some snapshot_after_gap /\
  snap_at physics_gap3 4 "ball" = Some snapshot_after_gap /\
  snap_at physics_gap3 5 "ball" = Some snapshot_after_gap.
Proof. repeat split; reflexivity. Qed.

(** C1 as stated fails: the ball has snapshots at frames 1 and 6 and none
    in the four frames between, and none of the four is filled. *)
Lemma gap_of_four_is_not_filled :
  get_physics trace_gap4 = Ok physics_gap4 /\
  has_snapshot physics_gap4 1 "ball" = true /\
  has_snapshot physics_gap4 6 "ball" = true /\
  snap_at physics_gap4 2 "ball" = None /\
  snap_at physics_gap4 3 "ball" = None /\
  snap_at physics_gap4 4 "ball" = None /\
  snap_at physics_gap4 5 "ball" = None.
Proof. repeat split; reflexivity. Qed.

(** ** The epoch cursor *)

(** Once the cursor points at the last boundary it never moves again and
    nothing is resolved. *)
Lemma epoch_step_last_boundary (t : replay) (ball cars : bool) (i : Z) (st : gp_state) :
  update_pointer st = (List.length (update_frames t) - 1)%nat ->
  epoch_step t ball cars i st = Ok st.
Proof.
  intros Hp. unfold epoch_step. rewrite Hp, Nat.eqb_refl. reflexivity.
Qed.

(** C7 fails on the code: in [trace_two_epochs] the boundary list is
    [0; 2] and the ball is actor 5 from frame 2 on, as [get_ids] and
    [find_teams] report for that boundary; the frame loop never resolves
    boundary 2 (the cursor stops at index 1, the ball id stays [1]), and
    the ball update of frame 3 is dropped. *)
Theorem last_epoch_boundary_not_resolved :
  update_frames trace_two_epochs = [0; 2] /\
  get_ids trace_two_epochs "TAGame.Ball_TA" 2 None = Ok [5] /\
  find_teams trace_two_epochs 2 = Ok ([2], []) /\
  (exists st, final_state trace_two_epochs = Ok st /\
              update_pointer st = 1%nat /\
              ball_id st = [1] /\
              car_ids st = [2; 3] /\
              teams st = ([2], [3])) /\
  (exists phys, get_physics trace_two_epochs = Ok phys /\
                dkeys phys = [1] /\
                snap_at phys 3 "ball" = None).
Proof.
  repeat split; try reflexivity.
  - eexists. vm_compute. repeat split; reflexivity.
  - eexists. vm_compute. repeat split; reflexivity.
Qed.

(** ** Goal detection *)

Lemma possible_goals_filter (phys : physics) (candidates : list Z) :
  possible_goals phys = Ok candidates ->
  candidates = map fst (filter goal_entry phys).
Proof.
  unfold possible_goals.
  assert (Hgen : forall acc c,
             for_each (fun acc kv =>
                         y <- component (snd kv) "location" "y" ;;
                         Ok (if GOAL_Y <? Z.abs y then acc ++ [fst kv] else acc))
               (ball_only phys) acc = Ok c ->
             c = acc ++ map fst (filter goal_entry phys)).
  { induction phys as [|[f snap] phys IH]; simpl; intros acc c Hrun.
    - inversion Hrun. now rewrite app_nil_r.
    - unfold goal_entry at 1. simpl snd.
      destruct (dget "ball" snap) as [b|]; simpl in Hrun.
      + apply bind_Ok_inv in Hrun. destruct Hrun as (acc1 & Hstep & Hrun).
        apply bind_Ok_inv in Hstep. destruct Hstep as (y & Hy & Hacc).
        rewrite Hy. inversion Hacc; subst. clear Hacc.
        apply IH in Hrun. subst c.
        destruct (GOAL_Y <? Z.abs y); simpl; [now rewrite <- app_assoc | reflexivity].
      + now apply IH. }
  intros Hrun. now apply Hgen in Hrun.
Qed.

Lemma first_candidate_spec (candidates : list Z) (frame goal : Z) :
  first_candidate candidates frame = Some goal <->
  exists before after,
    candidates = before ++ goal :: after /\
    frame <= goal /\
    forall c, In c before -> c < frame.
Proof.
  unfold first_candidate. split.
  - induction candidates as [|c cs IH]; simpl; [discriminate|].
    destruct (frame <=? c) eqn:E.
    + intros [= <-]. exists [], cs. split; [reflexivity|].
      split; [now apply Z.leb_le | intros ? []].
    + intros Hfind. destruct (IH Hfind) as (before & after & -> & Hle & Hlt).
      exists (c :: before), after. split; [reflexivity|]. split; [exact Hle|].
      intros c' [<-|Hin]; [now apply Z.leb_gt | auto].
  - intros (before & after & -> & Hle & Hlt).
    induction before as [|c before IH]; simpl.
    + apply Z.leb_le in Hle. now rewrite Hle.
    + assert (E : (frame <=? c) = false) by (apply Z.leb_gt; apply Hlt; now left).
      rewrite E. apply IH. intros c' Hin. apply Hlt. now right.
Qed.

(** When the candidates come in ascending order, the first one at or after
    the mark is the smallest one at or after the mark. *)
Lemma first_candidate_sorted (candidates : list Z) (frame goal : Z) :
  StronglySorted Z.lt candidates ->
  first_candidate candidates frame = Some goal ->
  forall c, In c candidates -> frame <= c -> goal <= c.
Proof.
  intros Hsorted Hfirst c Hin Hc.
  apply first_candidate_spec in Hfirst.
  destruct Hfirst as (before & after & -> & Hle & Hlt).
  apply in_app_or in Hin. destruct Hin as [Hin|[<-|Hin]].
  - apply Hlt in Hin. lia.
  - lia.
  - clear Hlt. induction before as [|b before IH]; simpl in Hsorted.
    + inversion Hsorted as [|? ? _ Hall]; subst.
      rewrite Forall_forall in Hall. apply Hall in Hin. lia.
    + inversion Hsorted; subst. auto.
Qed.

(** What the loop over the scoring marks leaves in [goal_frames]. *)
Lemma goals_loop_spec (candidates : list Z) :
  forall (ms : list mark) (acc : dict Z Z) (goal team : Z),
    dget goal (goals_loop_from candidates ms acc) = Some team <->
    (exists before m after,
        ms = before ++ m :: after /\
        first_candidate candidates (mark_frame m) = Some goal /\
        team_of_mark m = team /\
        forall m', In m' after -> first_candidate candidates (mark_frame m') <> Some goal) \/
    (dget goal acc = Some team /\
     forall m', In m' ms -> first_candidate candidates (mark_frame m') <> Some goal).
Proof.
  unfold goals_loop_from.
  induction ms as [|m ms IH]; intros acc goal team; simpl.
  - split.
    + intros Hg. right. split; [exact Hg | intros ? []].
    + intros [(before & m & after & Heq & _)|[Hg _]]; [|exact Hg].
      destruct before; discriminate.
  - rewrite IH. clear IH. split.
    + intros [(before & m' & after & -> & Hfirst & Hteam & Hlast)|[Hacc Hnone]].
      * left. exists (m :: before), m', after. auto.
      * destruct (first_candidate candidates (mark_frame m)) as [g|] eqn:E.
        -- destruct (Z.eq_dec g goal) as [->|Hne].
           ++ rewrite dget_dset_same in Hacc. inversion Hacc; subst.
              left. exists [], m, ms. auto.
           ++ rewrite dget_dset_other in Hacc by exact Hne.
              right. split; [exact Hacc|].
              intros m' [<-|Hin]; [congruence | auto].
        -- right. split; [exact Hacc|].
           intros m' [<-|Hin]; [congruence | auto].
    + intros [(before & m' & after & Heq & Hfirst & Hteam & Hlast)|[Hacc Hnone]].
      * destruct before as [|b before]; simpl in Heq; inversion Heq; subst.
        -- right. rewrite Hfirst, dget_dset_same. auto.
        -- left. exists before, m', after. auto.
      * right. split; [|intros m' Hin; apply Hnone; now right].
        destruct (first_candidate candidates (mark_frame m)) as [g|] eqn:E;
          [|exact Hacc].
        rewrite dget_dset_other; [exact Hacc|].
        intros ->. apply (Hnone m); [now left | exact E].
Qed.

Lemma goals_loop_keeps (candidates : list Z) (goal : Z) :
  forall (ms : list mark) (acc : dict Z Z),
    (exists team, dget goal acc = Some team) ->
    exists team, dget goal (goals_loop_from candidates ms acc) = Some team.
Proof.
  induction ms as [|m ms IH]; intros acc Hacc; simpl; [exact Hacc|].
  apply IH. destruct (first_candidate candidates (mark_frame m)) as [g|]; [|exact Hacc].
  destruct (Z.eq_dec g goal) as [->|Hne].
  - rewrite dget_dset_same. eauto.
  - now rewrite dget_dset_other.
Qed.

Lemma goals_loop_records (candidates : list Z) (goal : Z) :
  forall (ms : list mark) (acc : dict Z Z) (m : mark),
    In m ms ->
    first_candidate candidates (mark_frame m) = Some goal ->
    exists team, dget goal (goals_loop_from candidates ms acc) = Some team.
Proof.
  induction ms as [|m0 ms IH]; intros acc m Hin Hfirst; [destruct Hin|].
  simpl. destruct Hin as [->|Hin].
  - apply goals_loop_keeps. rewrite Hfirst, dget_dset_same. eauto.
  - eapply IH; eauto.
Qed.

(** C6 (as the code has it): each scoring mark, taken in the order of the
    mark list, selects the first candidate frame at or after it in the
    iteration order of the collection; the selected frame is recorded, and
    it is the smallest such candidate when the candidates are in ascending
    order.  The recorded goal frames are exactly the selected candidates,
    each with the side of the last mark of the list that selects it, and a
    recorded frame is never before the marks that select it. *)
Theorem find_goals_selection (t : replay) (phys : physics) (goals : dict Z Z) :
  find_goals t phys = Ok goals ->
  (forall goal team,
      dget goal goals = Some team <->
      exists before m after,
        scores t = before ++ m :: after /\
        first_candidate (candidate_frames phys) (mark_frame m) = Some goal /\
        team_of_mark m = team /\
        forall m', In m' after ->
                   first_candidate (candidate_frames phys) (mark_frame m') <> Some goal) /\
  (forall m goal,
      In m (scores t) ->
      first_candidate (candidate_frames phys) (mark_frame m) = Some goal ->
      (exists before after,
          candidate_frames phys = before ++ goal :: after /\
          mark_frame m <= goal /\
          forall c, In c before -> c < mark_frame m) /\
      (exists team, dget goal goals = Some team) /\
      (StronglySorted Z.lt (candidate_frames phys) ->
       forall c, In c (candidate_frames phys) -> mark_frame m <= c -> goal <= c)).
Proof.
  unfold find_goals. intros Hrun.
  apply bind_Ok_inv in Hrun. destruct Hrun as (candidates & Hcand & Hrun).
  apply possible_goals_filter in Hcand. fold (candidate_frames phys) in Hcand.
  subst candidates. inversion Hrun; subst. clear Hrun. split.
  - intros goal team. unfold goals_loop. rewrite goals_loop_spec. split.
    + intros [Hlast|[Hnil _]]; [exact Hlast | discriminate].
    + intros Hlast. now left.
  - intros m goal Hin Hfirst. split; [now apply first_candidate_spec|]. split.
    + unfold goals_loop. eapply goals_loop_records; eauto.
    + intros Hsorted. now apply first_candidate_sorted.
Qed.

Lemma find_goals_selection_witness :
  (forall goal team,
      dget goal [(3, 1)] = Some team <->
      exists before m after,
        scores trace_late_entry = before ++ m :: after /\
        first_candidate (candidate_frames physics_late_entry) (mark_frame m) = Some goal /\
        team_of_mark m = team /\
        forall m', In m' after ->
                   first_candidate (candidate_frames physics_late_entry) (mark_frame m') <>
                   Some goal) /\
  (forall m goal,
      In m (scores trace_late_entry) ->
      first_candidate (candidate_frames physics_late_entry) (mark_frame m) = Some goal ->
      (exists before after,
          candidate_frames physics_late_entry = before ++ goal :: after /\
          mark_frame m <= goal /\
          forall c, In c before -> c < mark_frame m) /\
      (exists team, dget goal [(3, 1)] = Some team) /\
      (StronglySorted Z.lt (candidate_frames physics_late_entry) ->
       forall c, In c (candidate_frames physics_late_entry) ->
                 mark_frame m <= c -> goal <= c)).
Proof.
  apply (find_goals_selection trace_late_entry physics_late_entry [(3, 1)]).
  reflexivity.
Defined.

(** C6 as stated fails: the collection lists its frames as 1, 3, 2, so the
    candidates are tried as 3, 2.  The mark at frame 2 (side 0) gets frame 3
    although frame 2 is a candidate at that mark; the mark at frame 3
    (side 1) gets frame 3 too, and the one recorded goal carries side 1. *)
Lemma find_goals_not_smallest_candidate :
  get_physics trace_late_entry = Ok physics_late_entry /\
  dkeys physics_late_entry = [1; 3; 2] /\
  candidate_frames physics_late_entry = [3; 2] /\
  map (fun m => (mark_frame m, team_of_mark m)) (scores trace_late_entry) =
  [(2, 0); (3, 1)] /\
  find_goals trace_late_entry physics_late_entry = Ok [(3, 1)].
Proof. repeat split; reflexivity. Qed.

(** ** Kickoff detection *)

(** What a finished scan has seen. *)
Lemma kickoff_scan_sound (phys : physics) :
  forall (fuel : nat) (window : Z) (cars_reset : bool) (w : Z),
    kickoff_scan fuel phys window cars_reset = Some w ->
    window <= w /\
    window_all phys w = true /\
    exists w0,
      (if cars_reset then w0 = window
       else window <= w0 /\ window_any phys w0 = false /\
            forall w', window <= w' < w0 -> window_any phys w' = true) /\
      w0 <= w /\
      forall w', w0 <= w' < w -> window_all phys w' = false.
Proof.
  induction fuel as [|fuel IH]; intros window cars_reset w Hrun; [discriminate|].
  simpl in Hrun.
  destruct cars_reset; simpl in Hrun.
  - destruct (window_all phys window) eqn:Eall.
    + inversion Hrun; subst. split; [lia|]. split; [exact Eall|].
      exists w. split; [reflexivity|]. split; [lia | intros; lia].
    + apply IH in Hrun. destruct Hrun as (Hle & Hall & w0 & -> & Hw0 & Hmin).
      split; [lia|]. split; [exact Hall|].
      exists window. split; [reflexivity|]. split; [lia|].
      intros w' Hw'. destruct (Z.eq_dec w' window) as [->|Hne]; [exact Eall|].
      apply Hmin. lia.
  - destruct (window_any phys window) eqn:Eany; simpl in Hrun.
    + apply IH in Hrun. destruct Hrun as (Hle & Hall & w0 & (Hw0 & Hreset & Hfirst) & Hw0w & Hmin).
      split; [lia|]. split; [exact Hall|].
      exists w0. split; [|split; [exact Hw0w | exact Hmin]].
      split; [lia|]. split; [exact Hreset|].
      intros w' Hw'. destruct (Z.eq_dec w' window) as [->|Hne]; [exact Eany|].
      apply Hfirst. lia.
    + destruct (window_all phys window) eqn:Eall.
      * inversion Hrun; subst. split; [lia|]. split; [exact Eall|].
        exists w. split; [|split; [lia | intros; lia]].
        split; [lia|]. split; [exact Eany | intros; lia].
      * apply IH in Hrun. destruct Hrun as (Hle & Hall & w0 & -> & Hw0 & Hmin).
        split; [lia|]. split; [exact Hall|].
        exists window. split; [|split; [lia|]].
        -- split; [lia|]. split; [exact Eany | intros; lia].
        -- intros w' Hw'. destruct (Z.eq_dec w' window) as [->|Hne]; [exact Eall|].
           apply Hmin. lia.
Qed.

(** A reset window followed by a window of stored frames is always reached. *)
Lemma kickoff_scan_complete (phys : physics) (w : Z) :
  window_all phys w = true ->
  forall (n : nat) (window : Z) (cars_reset : bool),
    w - window = Z.of_nat n ->
    (cars_reset = true \/
     exists w0, window <= w0 <= w /\ window_any phys w0 = false) ->
    exists w', kickoff_scan (S n) phys window cars_reset = Some w'.
Proof.
  intros Hready. induction n as [|n IH]; intros window cars_reset Hdist Hreset.
  - assert (window = w) by lia. subst window. simpl.
    assert (Hcr : (if negb cars_reset then negb (window_any phys w) else cars_reset) = true).
    { destruct Hreset as [->|(w0 & Hw0 & Hany)]; [reflexivity|].
      assert (w0 = w) by lia. subst w0. rewrite Hany. now destruct cars_reset. }
    rewrite Hcr, Hready. simpl. eauto.
  - cbn [kickoff_scan].
    destruct ((if negb cars_reset then negb (window_any phys window) else cars_reset)
              && window_all phys window) eqn:E; [eauto|].
    apply IH; [lia|].
    destruct (if negb cars_reset then negb (window_any phys window) else cars_reset) eqn:Ecr;
      [now left|].
    right. destruct Hreset as [->|(w0 & Hw0 & Hany)]; [discriminate|].
    exists w0. split; [|exact Hany].
    destruct (Z.eq_dec w0 window) as [->|Hne]; [|lia].
    rewrite Hany in Ecr. destruct cars_reset; discriminate.
Qed.

Lemma kickoff_scan_mono (phys : physics) :
  forall (fuel fuel' : nat) (window : Z) (cars_reset : bool) (w : Z),
    (fuel <= fuel')%nat ->
    kickoff_scan fuel phys window cars_reset = Some w ->
    kickoff_scan fuel' phys window cars_reset = Some w.
Proof.
  induction fuel as [|fuel IH]; intros fuel' window cars_reset w Hle Hrun; [discriminate|].
  destruct fuel' as [|fuel']; [lia|]. simpl in *.
  destruct (_ && _); [exact Hrun|]. apply IH; [lia | exact Hrun].
Qed.

(** C3 (as the code has it): the scan from a goal frame leaves its loop
    exactly when some window at or after the goal frame has ten frames
    without snapshots and some window at or after that one has ten frames
    with snapshots, and the window it returns is the first such after the
    first reset window; when there is no such pair of windows the scan does
    not leave the loop for any number of iterations: it has no cap on the
    number of frames and raises nothing. *)
Theorem kickoff_scan_termination (phys : physics) (goal_frame : Z) :
  ((exists w, scan_finds phys goal_frame w) <->
   (exists w0 w, goal_frame <= w0 <= w /\
                 window_any phys w0 = false /\ window_all phys w = true)) /\
  (forall w, scan_finds phys goal_frame w ->
             window_all phys w = true /\
             exists w0, goal_frame <= w0 <= w /\
                        window_any phys w0 = false /\
                        (forall w', goal_frame <= w' < w0 -> window_any phys w' = true) /\
                        (forall w', w0 <= w' < w -> window_all phys w' = false)) /\
  ((forall w0 w, goal_frame <= w0 <= w -> window_any phys w0 = false ->
                 window_all phys w = false) ->
   scan_diverges phys goal_frame).
Proof.
  assert (Hsound : forall w, scan_finds phys goal_frame w ->
             window_all phys w = true /\
             exists w0, goal_frame <= w0 <= w /\
                        window_any phys w0 = false /\
                        (forall w', goal_frame <= w' < w0 -> window_any phys w' = true) /\
                        (forall w', w0 <= w' < w -> window_all phys w' = false)).
  { intros w (fuel & Hrun). apply kickoff_scan_sound in Hrun.
    destruct Hrun as (_ & Hall & w0 & (Hle & Hany & Hfirst) & Hw0 & Hmin).
    split; [exact Hall|]. exists w0. repeat split; auto; lia. }
  split; [|split].
  - split.
    + intros (w & Hfinds). destruct (Hsound w Hfinds) as (Hall & w0 & Hle & Hany & _).
      exists w0, w. auto.
    + intros (w0 & w & Hle & Hany & Hall).
      destruct (kickoff_scan_complete phys w Hall (Z.to_nat (w - goal_frame))
                  goal_frame false) as (w' & Hrun).
      * rewrite Z2Nat.id; lia.
      * right. exists w0. split; [lia | exact Hany].
      * exists w', (S (Z.to_nat (w - goal_frame))). exact Hrun.
  - exact Hsound.
  - intros Hnone fuel.
    destruct (kickoff_scan fuel phys goal_frame false) as [w|] eqn:E; [|reflexivity].
    destruct (Hsound w (ex_intro _ fuel E)) as (Hall & w0 & Hle & Hany & _).
    rewrite (Hnone w0 w Hle Hany) in Hall. discriminate.
Qed.

Lemma frame_truthy_keys (phys : physics) (j : Z) :
  frame_truthy phys j = true -> In j (dkeys phys).
Proof.
  unfold frame_truthy. destruct (dget j phys) as [fr|] eqn:E; [|discriminate].
  intros _. eapply dget_In_keys; eauto.
Qed.

Lemma window_all_ends (phys : physics) (w : Z) :
  window_all phys w = true ->
  frame_truthy phys w = true /\ frame_truthy phys (w + 9) = true.
Proof.
  unfold window_all. rewrite forallb_forall. intros Hall. split.
  - apply Hall. unfold Zrange. apply in_map_iff. exists 0%nat.
    split; [simpl; lia | apply in_seq; lia].
  - apply Hall. unfold Zrange. apply in_map_iff. exists 9%nat.
    split; [simpl; lia | apply in_seq; lia].
Qed.

(** C3 as stated fails: on [trace_basic] (snapshots in frames 1 and 2
    only, no goal) no number of iterations makes [find_kickoffs] return or
    raise. *)
Lemma find_kickoffs_can_loop_forever :
  get_physics trace_basic = Ok physics_basic /\
  find_kickoffs_diverges trace_basic physics_basic.
Proof.
  split; [reflexivity|]. intros fuel. unfold find_kickoffs.
  change (find_goals trace_basic physics_basic) with (@Ok (dict Z Z) []).
  cbn [dkeys map drop_last removelast app kickoffs_loop].
  destruct (kickoff_scan fuel physics_basic 0 false) as [w|] eqn:E; [|reflexivity].
  exfalso. apply kickoff_scan_sound in E. destruct E as (_ & Hall & _).
  apply window_all_ends in Hall. destruct Hall as (H0 & H9).
  apply frame_truthy_keys in H0, H9. simpl in H0, H9. lia.
Qed.

(** ** Possession intervals *)

Lemma Qgtb_true (x threshold : Q) : Qgtb x threshold = true <-> (threshold < x)%Q.
Proof.
  unfold Qgtb. rewrite negb_true_iff. split.
  - intros E. apply Qnot_le_lt. intros Hle. apply Qle_bool_iff in Hle. congruence.
  - intros Hlt. destruct (Qle_bool x threshold) eqn:E; [|reflexivity].
    apply Qle_bool_iff in E. exfalso. apply (Qlt_not_le _ _ Hlt E).
Qed.

Lemma Qgtb_false (x threshold : Q) : Qgtb x threshold = false <-> (x <= threshold)%Q.
Proof.
  unfold Qgtb. rewrite negb_false_iff. apply Qle_bool_iff.
Qed.

Lemma Qdiv_inject_Z_eq (a a' b b' : Z) :
  a = a' -> b = b' -> (inject_Z a / inject_Z b)%Q = (inject_Z a' / inject_Z b')%Q.
Proof. intros -> ->. reflexivity. Qed.

Lemma running_mean_from_length (arr : list bool) :
  forall count total, List.length (running_mean_from count total arr) = List.length arr.
Proof.
  induction arr as [|b arr IH]; intros count total; simpl; [reflexivity|].
  now rewrite IH.
Qed.

Lemma running_mean_from_nth (arr : list bool) :
  forall (count total : Z) (j : nat),
    (j < List.length arr)%nat ->
    nth j (running_mean_from count total arr) 0%Q =
    (inject_Z (count + count_true (firstn (S j) arr)) /
     inject_Z (total + Z.of_nat (S j)))%Q.
Proof.
  induction arr as [|b arr IH]; intros count total j Hj; simpl in Hj; [lia|].
  destruct j as [|j].
  - cbn [running_mean_from nth firstn count_true].
    destruct b; apply Qdiv_inject_Z_eq; lia.
  - cbn [running_mean_from nth]. rewrite IH by lia.
    cbn [firstn count_true]. destruct b; apply Qdiv_inject_Z_eq; lia.
Qed.

(** The model of [cumsum / arange] is the mean of the entries seen so far. *)
Lemma running_mean_nth (arr : list bool) (j : nat) :
  (j < List.length arr)%nat ->
  nth j (running_mean arr) 0%Q = mean_upto arr j.
Proof.
  intros Hj. unfold running_mean, mean_upto. rewrite running_mean_from_nth by exact Hj.
  reflexivity.
Qed.

Lemma first_false_spec (l : list bool) :
  forall k, first_false l = Some k ->
            (k < List.length l)%nat /\
            nth k l true = false /\
            forall j, (j < k)%nat -> nth j l true = true.
Proof.
  induction l as [|b l IH]; intros k; simpl; [discriminate|].
  destruct b.
  - destruct (first_false l) as [k'|]; [|discriminate]. simpl. intros [= <-].
    destruct (IH k' eq_refl) as (Hlt & Hnth & Hbefore).
    split; [lia|]. split; [exact Hnth|].
    intros [|j] Hj; [reflexivity | apply Hbefore; lia].
  - intros [= <-]. split; [lia|]. split; [reflexivity | intros; lia].
Qed.

Lemma first_false_None (l : list bool) :
  first_false l = None <-> forallb (fun b => b) l = true.
Proof.
  induction l as [|b l IH]; simpl; [tauto|].
  destruct b; simpl; [|split; discriminate].
  rewrite <- IH. destruct (first_false l); simpl; split; congruence.
Qed.

Lemma forallb_nth (l : list bool) :
  forallb (fun b => b) l = true ->
  forall j, nth j l true = true.
Proof.
  induction l as [|b l IH]; simpl; intros Hall [|j]; try reflexivity.
  - now apply andb_prop in Hall.
  - apply IH. now apply andb_prop in Hall.
Qed.

(** What [find_window_size] returns: the number of leading entries whose
    running mean is strictly above the threshold, capped at [len - 1]. *)
Lemma find_window_size_spec (arr : list bool) (threshold : Q) (k : nat) :
  find_window_size arr threshold = Ok k ->
  (0 <= threshold)%Q /\ (threshold <= 1)%Q /\
  (k < List.length arr)%nat /\
  (forall j, (j < k)%nat -> (threshold < mean_upto arr j)%Q) /\
  ((mean_upto arr k <= threshold)%Q \/
   (k = (List.length arr - 1)%nat /\
    forall j, (j < List.length arr)%nat -> (threshold < mean_upto arr j)%Q)).
Proof.
  unfold find_window_size.
  destruct (Qgtb 0 threshold) eqn:E0; [discriminate|].
  destruct (Qgtb threshold 1) eqn:E1; [discriminate|]. simpl orb. cbv iota.
  apply Qgtb_false in E0, E1.
  set (above := map (fun p => Qgtb p threshold) (running_mean arr)).
  assert (Hlen : List.length above = List.length arr).
  { unfold above, running_mean. now rewrite length_map, running_mean_from_length. }
  assert (Hnth : forall j, (j < List.length arr)%nat ->
                           nth j above true = Qgtb (mean_upto arr j) threshold).
  { intros j Hj. unfold above.
    rewrite (nth_indep _ true (Qgtb 0%Q threshold)) by (rewrite length_map; unfold running_mean;
      rewrite running_mean_from_length; exact Hj).
    rewrite (map_nth (fun p => Qgtb p threshold)). now rewrite running_mean_nth. }
  intros Hrun. apply bind_Ok_inv in Hrun. destruct Hrun as (k0 & Harg & Hrun).
  unfold argmin_bool in Harg.
  destruct above as [|a0 above'] eqn:Eabove; [discriminate|]. rewrite <- Eabove in *.
  assert (Hpos : (0 < List.length arr)%nat) by (rewrite <- Hlen, Eabove; simpl; lia).
  inversion Harg; subst k0. clear Harg.
  split; [exact E0|]. split; [exact E1|].
  destruct (forallb (fun b => b) above) eqn:Eall.
  - inversion Hrun; subst k. clear Hrun. rewrite Hlen.
    assert (Hall : forall j, (j < List.length arr)%nat -> (threshold < mean_upto arr j)%Q).
    { intros j Hj. apply Qgtb_true. rewrite <- Hnth by exact Hj. now apply forallb_nth. }
    split; [lia|]. split; [intros j Hj; apply Hall; lia|]. right. split; [reflexivity|exact Hall].
  - destruct (first_false above) as [kf|] eqn:Ef.
    + inversion Hrun; subst k. clear Hrun.
      apply first_false_spec in Ef. destruct Ef as (Hlt & Hk & Hbefore).
      rewrite Hlen in Hlt.
      split; [exact Hlt|]. split.
      * intros j Hj. apply Qgtb_true. rewrite <- Hnth by lia. now apply Hbefore.
      * left. apply Qgtb_false. rewrite <- Hnth by exact Hlt. exact Hk.
    + apply first_false_None in Ef. congruence.
Qed.

Lemma fold_max_spec (l : list Z) :
  forall x, (fold_left Z.max l x = x \/ In (fold_left Z.max l x) l) /\
            x <= fold_left Z.max l x /\
            forall y, In y l -> y <= fold_left Z.max l x.
Proof.
  induction l as [|a l IH]; intros x; simpl.
  - split; [now left|]. split; [lia | intros ? []].
  - destruct (IH (Z.max x a)) as (Hin & Hle & Hall). split; [|split].
    + destruct Hin as [Heq|Hin]; [|now right; right].
      rewrite Heq. destruct (Z.max_spec x a) as [[_ ->]|[_ ->]]; [right; now left | now left].
    + lia.
    + intros y [<-|Hy]; [lia | now apply Hall].
Qed.

Lemma py_max_spec (l : list Z) (m : Z) :
  py_max l = Ok m -> In m l /\ forall y, In y l -> y <= m.
Proof.
  destruct l as [|x l]; simpl; [discriminate|]. intros [= <-].
  destruct (fold_max_spec l x) as (Hin & Hle & Hall). split.
  - destruct Hin as [-> | Hin]; [now left | now right].
  - intros y [<-|Hy]; [exact Hle | now apply Hall].
Qed.


Lemma Zrange_In (a : Z) (n : nat) (z : Z) :
  In z (Zrange a n) <-> a <= z < a + Z.of_nat n.
Proof.
  unfold Zrange. rewrite in_map_iff. split.
  - intros (k & <- & Hk). apply in_seq in Hk. lia.
  - intros Hz. exists (Z.to_nat (z - a)). split; [lia | apply in_seq; lia].
Qed.



Lemma forallb_false_exists {A : Type} (f : A -> bool) (l : list A) :
  forallb f l = false -> exists x, In x l /\ f x = false.
Proof.
  induction l as [|a l IH]; simpl; [discriminate|].
  destruct (f a) eqn:E; simpl.
  - intros Hl. destruct (IH Hl) as (x & Hin & Hx). eauto.
  - intros _. eauto.
Qed.

Lemma window_all_frames (phys : physics) (w j : Z) :
  window_all phys w = true -> w <= j < w + 10 -> frame_truthy phys j = true.
Proof.
  unfold window_all. rewrite forallb_forall. intros Hall Hj.
  apply Hall. apply Zrange_In. simpl. lia.
Qed.

Lemma window_any_frames (phys : physics) (w j : Z) :
  window_any phys w = false -> w <= j < w + 10 -> frame_truthy phys j = false.
Proof.
  unfold window_any. intros Hany Hj.
  destruct (frame_truthy phys j) eqn:E; [|reflexivity].
  assert (Hex : existsb (frame_truthy phys) (Zrange w 10) = true).
  { apply existsb_exists. exists j. split; [apply Zrange_In; simpl; lia | exact E]. }
  congruence.
Qed.

(** The frame just before a kickoff found by the scan has no snapshots. *)
Lemma kickoff_scan_previous_frame (phys : physics) (goal_frame w : Z) :
  scan_finds phys goal_frame w ->
  goal_frame < w /\ frame_truthy phys (w - 1) = false.
Proof.
  intros (fuel & Hrun). apply kickoff_scan_sound in Hrun.
  destruct Hrun as (_ & Hall & w0 & (Hle & Hany & _) & Hw0 & Hmin).
  assert (Hlt : w0 < w).
  { destruct (Z.eq_dec w0 w) as [->|Hne]; [|lia].
    pose proof (window_all_frames phys w w Hall ltac:(lia)) as Ht.
    pose proof (window_any_frames phys w w Hany ltac:(lia)) as Hf. congruence. }
  split; [lia|].
  destruct (forallb_false_exists _ _ (Hmin (w - 1) ltac:(lia))) as (j & Hin & Hj).
  apply Zrange_In in Hin. simpl in Hin.
  destruct (Z.eq_dec j (w - 1)) as [->|Hne]; [exact Hj|].
  pose proof (window_all_frames phys w j Hall ltac:(lia)) as Ht. congruence.
Qed.


Lemma last_kickoff_spec (phys : physics) (goal last : Z) :
  last_kickoff phys goal = Ok last ->
  0 <= last < goal /\ dget last phys = None.
Proof.
  unfold last_kickoff. intros Hrun.
  apply bind_Ok_inv in Hrun. destruct Hrun as (top & _ & Hmax).
  apply py_max_spec in Hmax. destruct Hmax as (Hin & _).
  apply filter_In in Hin. destruct Hin as (Hrange & Hf).
  apply Zrange_In in Hrange.
  destruct (dget last phys); [discriminate|]. apply Z.ltb_lt in Hf.
  split; [lia | reflexivity].
Qed.















(** * Further properties of the resolver *)

(** ** [get_spawnframe] *)

(** [get_spawnframe] returns the largest update frame at or before the
    given frame. *)
Theorem get_spawnframe_largest (t : replay) (frame b : Z) :
  get_spawnframe t frame = Ok b ->
  0 <= frame /\
  In b (update_frames t) /\
  b <= frame /\
  forall x, In x (update_frames t) -> x <= frame -> x <= b.
Proof.
  unfold get_spawnframe. destruct (frame <? 0) eqn:Eneg; [discriminate|].
  apply Z.ltb_ge in Eneg.
  destruct (filter (fun x => x <=? frame) (update_frames t)) as [|x l] eqn:Ef;
    [discriminate|].
  intros [= <-].
  destruct (fold_max_spec l x) as (Hin & Hle & Hall).
  assert (Hmem : In (fold_left Z.max l x) (x :: l)).
  { destruct Hin as [-> | Hin]; [now left | now right]. }
  rewrite <- Ef in Hmem. apply filter_In in Hmem. destruct Hmem as (Hmem & Hb).
  apply Z.leb_le in Hb. repeat split; auto.
  intros y Hy Hyf.
  assert (Hy' : In y (x :: l)).
  { rewrite <- Ef. apply filter_In. split; [exact Hy | now apply Z.leb_le]. }
  destruct Hy' as [<-|Hy']; [exact Hle | now apply Hall].
Qed.

(** [get_spawnframe] fails exactly for a negative frame or a frame that
    lies before every update frame, and then with [ValueError]. *)
Theorem get_spawnframe_error (t : replay) (frame : Z) (e : exn) :
  get_spawnframe t frame = Raise e <->
  e = ValueError /\
  (frame < 0 \/ forall x, In x (update_frames t) -> frame < x).
Proof.
  unfold get_spawnframe. destruct (frame <? 0) eqn:Eneg.
  - apply Z.ltb_lt in Eneg. split; [intros [= <-]; auto | intros [-> _]; reflexivity].
  - apply Z.ltb_ge in Eneg.
    destruct (filter (fun x => x <=? frame) (update_frames t)) as [|x l] eqn:Ef.
    + split; [|intros [-> _]; reflexivity].
      intros [= <-]. split; [reflexivity|]. right. intros x Hx.
      destruct (Z_lt_le_dec frame x) as [Hlt|Hle]; [exact Hlt|].
      assert (Hin : In x (filter (fun x => x <=? frame) (update_frames t))).
      { apply filter_In. split; [exact Hx | now apply Z.leb_le]. }
      rewrite Ef in Hin. destruct Hin.
    + split; [discriminate|]. intros [_ [Hlt|Hall]]; [lia|].
      assert (Hin : In x (filter (fun x => x <=? frame) (update_frames t))).
      { rewrite Ef. now left. }
      apply filter_In in Hin. destruct Hin as (Hin & Hle). apply Z.leb_le in Hle.
      apply Hall in Hin. lia.
Qed.

Lemma get_spawnframe_largest_witness :
  0 <= 3 /\
  In 2 (update_frames trace_two_epochs) /\
  2 <= 3 /\
  forall x, In x (update_frames trace_two_epochs) -> x <= 3 -> x <= 2.
Proof.
  apply (get_spawnframe_largest trace_two_epochs 3 2). reflexivity.
Defined.

(** ** [find_ids] and [get_ids] *)

Lemma insert_sorted_perm (x : Z) (l : list Z) : Permutation (insert_sorted x l) (x :: l).
Proof.
  induction l as [|y l IH]; simpl; [reflexivity|].
  destruct (x <? y); [reflexivity|].
  rewrite IH. apply perm_swap.
Qed.

Lemma sorted_perm (l : list Z) : Permutation (sorted l) l.
Proof.
  unfold sorted.
  assert (Hgen : forall acc, Permutation (fold_left (fun acc x => insert_sorted x acc) l acc)
                               (l ++ acc)).
  { induction l as [|x l IH]; intros acc; simpl; [reflexivity|].
    rewrite IH, insert_sorted_perm. symmetry. apply Permutation_middle. }
  rewrite Hgen. now rewrite app_nil_r.
Qed.

Lemma insert_sorted_lt (x : Z) (l : list Z) :
  StronglySorted Z.lt l -> ~ In x l -> StronglySorted Z.lt (insert_sorted x l).
Proof.
  induction l as [|y l IH]; simpl; intros Hs Hnin.
  - constructor; constructor.
  - inversion Hs as [|? ? Hs' Hall]; subst.
    destruct (x <? y) eqn:E.
    + apply Z.ltb_lt in E. constructor; [exact Hs|].
      constructor; [exact E|]. rewrite Forall_forall in *. intros z Hz.
      apply Hall in Hz. lia.
    + apply Z.ltb_ge in E. constructor; [apply IH; [assumption | intros Hin; apply Hnin; now right]|].
      rewrite Forall_forall in *. intros z Hz.
      apply (Permutation_in _ (insert_sorted_perm x l)) in Hz.
      destruct Hz as [<-|Hz]; [|now apply Hall].
      assert (y <> x) by (intros Heq; apply Hnin; now left). lia.
Qed.

(** Sorting a list without repetitions gives a strictly ascending list. *)
Lemma sorted_strict (l : list Z) : NoDup l -> StronglySorted Z.lt (sorted l).
Proof.
  unfold sorted.
  assert (Hgen : forall acc,
             StronglySorted Z.lt acc -> NoDup (l ++ acc) ->
             StronglySorted Z.lt (fold_left (fun acc x => insert_sorted x acc) l acc)).
  { induction l as [|x l IH]; intros acc Hs Hnd; simpl; [exact Hs|].
    simpl in Hnd. inversion Hnd as [|? ? Hnin Hnd']; subst.
    apply IH.
    - apply insert_sorted_lt; [exact Hs|]. intros Hin. apply Hnin.
      apply in_or_app. now right.
    - apply (Permutation_NoDup (l := x :: l ++ acc)); [|exact Hnd].
      rewrite (insert_sorted_perm x acc). apply Permutation_middle. }
  intros Hnd. apply Hgen; [constructor | now rewrite app_nil_r].
Qed.

Lemma spawned_classes_from (fr : frame) (a : Z) :
  forall (out : dict Z string),
    dget a (fold_left (fun out r =>
                         match rep_value r with
                         | Spawned c => dset (actor_id r) c out
                         | _ => out
                         end) fr out) =
    fold_left (fun acc r =>
                 match rep_value r with
                 | Spawned c => if Z.eq_dec a (actor_id r) then Some c else acc
                 | _ => acc
                 end) fr (dget a out).
Proof.
  induction fr as [|r fr IH]; intros out; simpl; [reflexivity|].
  rewrite IH. f_equal.
  destruct (rep_value r) as [c| |]; try reflexivity.
  destruct (Z.eq_dec a (actor_id r)) as [->|Hne].
  - apply dget_dset_same.
  - apply dget_dset_other. congruence.
Qed.

Lemma spawned_classes_NoDup (fr : frame) : NoDup (dkeys (spawned_classes fr)).
Proof.
  unfold spawned_classes.
  assert (Hgen : forall out : dict Z string,
             NoDup (dkeys out) ->
             NoDup (dkeys (fold_left (fun out r =>
                                        match rep_value r with
                                        | Spawned c => dset (actor_id r) c out
                                        | _ => out
                                        end) fr out))).
  { induction fr as [|r fr IH]; intros out Hnd; simpl; [exact Hnd|].
    apply IH. destruct (rep_value r); auto. now apply dkeys_dset_NoDup. }
  apply Hgen. constructor.
Qed.

(** Rebuilding a dictionary key by key, over keys without repetitions,
    gives those keys in that order and the same values. *)
Lemma rebuild_spec (d : dict Z string) :
  forall (ks : list Z) (acc : dict Z string),
    NoDup (dkeys acc ++ ks) ->
    (forall k, In k ks -> In k (dkeys d)) ->
    let res := fold_left (fun acc k => match dget k d with
                                       | Some c => dset k c acc
                                       | None => acc
                                       end) ks acc in
    dkeys res = dkeys acc ++ ks /\
    forall k, dget k res = if in_dec Z.eq_dec k ks then dget k d else dget k acc.
Proof.
  induction ks as [|k0 ks IH]; intros acc Hnd Hsub; simpl.
  - split; [now rewrite app_nil_r | reflexivity].
  - destruct (In_keys_dget k0 d (Hsub k0 (or_introl eq_refl))) as (c & Hc).
    rewrite Hc.
    assert (Hfresh : ~ In k0 (dkeys acc)).
    { intros Hin. apply NoDup_remove_2 in Hnd. apply Hnd. apply in_or_app. now left. }
    destruct (IH (dset k0 c acc)) as (Hkeys & Hget).
    + rewrite dkeys_dset_fresh by exact Hfresh. rewrite <- app_assoc. exact Hnd.
    + intros k Hk. apply Hsub. now right.
    + split.
      * rewrite Hkeys, dkeys_dset_fresh by exact Hfresh. now rewrite <- app_assoc.
      * intros k. rewrite Hget.
        destruct (Z.eq_dec k0 k) as [->|Hne].
        -- destruct (in_dec Z.eq_dec k ks) as [Hin|Hnin]; [reflexivity|].
           rewrite dget_dset_same. now rewrite Hc.
        -- destruct (in_dec Z.eq_dec k ks); [reflexivity|].
           now apply dget_dset_other.
Qed.

Lemma sort_items_spec (d : dict Z string) :
  NoDup (dkeys d) ->
  dkeys (sort_items d) = sorted (dkeys d) /\
  forall k, dget k (sort_items d) = dget k d.
Proof.
  intros Hnd. unfold sort_items.
  destruct (rebuild_spec d (sorted (dkeys d)) []) as (Hkeys & Hget).
  - simpl. apply (Permutation_NoDup (l := dkeys d)); [|exact Hnd].
    symmetry. apply sorted_perm.
  - intros k Hk. apply (Permutation_in _ (sorted_perm (dkeys d))). exact Hk.
  - split; [exact Hkeys|]. intros k. rewrite Hget.
    destruct (in_dec Z.eq_dec k (sorted (dkeys d))) as [Hin|Hnin]; [reflexivity|].
    simpl. symmetry. apply dget_None_keys. intros Hin. apply Hnin.
    apply (Permutation_in _ (Permutation_sym (sorted_perm (dkeys d)))). exact Hin.
Qed.

Lemma find_ids_unfold (t : replay) (spawnframe : Z) (ids : dict Z string) :
  find_ids t spawnframe = Ok ids ->
  In spawnframe (update_frames t) /\
  exists fr,
    py_index (frames t) spawnframe = Ok fr /\
    ids = sort_items (spawned_classes fr).
Proof.
  unfold find_ids. destruct (Zmem spawnframe (update_frames t)) eqn:Emem;
    [|discriminate]. simpl negb. cbv iota.
  intros Hrun. apply bind_Ok_inv in Hrun. destruct Hrun as (fr & Hfr & Hrun).
  inversion Hrun; subst. clear Hrun. split.
  - unfold Zmem in Emem. apply existsb_exists in Emem.
    destruct Emem as (x & Hin & Heq). apply Z.eqb_eq in Heq. now subst.
  - exists fr. auto.
Qed.

Lemma sort_items_spawned (fr : frame) :
  StronglySorted Z.lt (dkeys (sort_items (spawned_classes fr))) /\
  forall a, dget a (sort_items (spawned_classes fr)) = spawn_class_of fr a.
Proof.
  destruct (sort_items_spec (spawned_classes fr) (spawned_classes_NoDup fr))
    as (Hkeys & Hget).
  split.
  - rewrite Hkeys. apply sorted_strict. apply spawned_classes_NoDup.
  - intros a. rewrite Hget. unfold spawned_classes, spawn_class_of.
    now rewrite spawned_classes_from.
Qed.

(** [find_ids] returns the actors spawned in the frame in ascending order
    of their ids, each with the class of its last spawn there. *)
Theorem find_ids_spec (t : replay) (spawnframe : Z) (ids : dict Z string) :
  find_ids t spawnframe = Ok ids ->
  In spawnframe (update_frames t) /\
  exists fr,
    py_index (frames t) spawnframe = Ok fr /\
    StronglySorted Z.lt (dkeys ids) /\
    forall a, dget a ids = spawn_class_of fr a.
Proof.
  intros Hrun. apply find_ids_unfold in Hrun. destruct Hrun as (Hsf & fr & Hfr & ->).
  split; [exact Hsf|]. exists fr. split; [exact Hfr|]. apply sort_items_spawned.
Qed.

Lemma In_dget_NoDup {V : Type} (d : dict Z V) (k : Z) (v : V) :
  NoDup (dkeys d) -> In (k, v) d -> dget k d = Some v.
Proof.
  induction d as [|[k0 v0] d IH]; simpl; intros Hnd Hin; [destruct Hin|].
  inversion Hnd as [|? ? Hnin Hnd']; subst.
  destruct Hin as [[= -> ->]|Hin].
  - destruct (key_dec k k); congruence.
  - destruct (key_dec k k0) as [->|Hne]; [|auto].
    exfalso. apply Hnin. change k0 with (fst (k0, v)). now apply in_map.
Qed.

Lemma StronglySorted_lt_NoDup (l : list Z) : StronglySorted Z.lt l -> NoDup l.
Proof.
  induction 1 as [|x l Hs IH Hall]; constructor; [|exact IH].
  rewrite Forall_forall in Hall. intros Hin. apply Hall in Hin. lia.
Qed.

Lemma NoDup_map_fst_filter {A B : Type} (f : A * B -> bool) (l : list (A * B)) :
  NoDup (map fst l) -> NoDup (map fst (filter f l)).
Proof.
  induction l as [|x l IH]; simpl; intros Hnd; [constructor|].
  inversion Hnd as [|? ? Hnin Hnd']; subst.
  destruct (f x); simpl; [|auto].
  constructor; [|auto]. intros Hin. apply Hnin.
  apply in_map_iff in Hin. destruct Hin as (y & Hy & Hin).
  apply filter_In in Hin. rewrite <- Hy. apply in_map. tauto.
Qed.

Lemma smem_true_In (x : string) (l : list string) : smem x l = true -> In x l.
Proof. apply smem_In. Qed.

(** [get_ids] returns, in strictly ascending order, exactly the actors
    whose last spawn in the frame of the given update frame has the
    requested class; the class must be in the trace's catalogue. *)
Theorem get_ids_spec (t : replay) (obj : string) (spawnframe : Z) (ids : list Z) :
  get_ids t obj spawnframe None = Ok ids ->
  In obj (objects t) /\
  In spawnframe (update_frames t) /\
  exists fr,
    py_index (frames t) spawnframe = Ok fr /\
    StronglySorted Z.lt ids /\
    forall a, In a ids <-> spawn_class_of fr a = Some obj.
Proof.
  unfold get_ids. destruct (smem obj (objects t)) eqn:Eobj; [|discriminate].
  simpl negb. cbv iota. cbn [bind]. intros Hrun.
  apply bind_Ok_inv in Hrun. destruct Hrun as (helper & Hhelper & Hrun).
  inversion Hrun; subst. clear Hrun.
  apply find_ids_unfold in Hhelper.
  destruct Hhelper as (Hsf & fr & Hfr & ->).
  destruct (sort_items_spawned fr) as (Hsorted & Hget).
  split; [now apply smem_true_In|]. split; [exact Hsf|].
  exists fr. split; [exact Hfr|].
  pose proof (StronglySorted_lt_NoDup _ Hsorted) as Hnd.
  split.
  - apply sorted_strict. now apply NoDup_map_fst_filter.
  - intros a. rewrite <- Hget. split.
    + intros Hin. apply (Permutation_in _ (sorted_perm _)) in Hin.
      apply in_map_iff in Hin. destruct Hin as ([a' c] & Ha & Hin). simpl in Ha. subst a'.
      apply filter_In in Hin. destruct Hin as (Hin & Hc). simpl in Hc.
      apply String.eqb_eq in Hc. subst c. now apply In_dget_NoDup.
    + intros Hd. apply (Permutation_in _ (Permutation_sym (sorted_perm _))).
      apply in_map_iff. exists (a, obj). split; [reflexivity|].
      apply filter_In. split; [now apply dget_In | apply String.eqb_refl].
Qed.

Lemma get_ids_spec_witness :
  In "TAGame.Car_TA" (objects trace_basic) /\
  In 0 (update_frames trace_basic) /\
  exists fr,
    py_index (frames trace_basic) 0 = Ok fr /\
    StronglySorted Z.lt [2; 3] /\
    forall a, In a [2; 3] <-> spawn_class_of fr a = Some "TAGame.Car_TA".
Proof.
  apply (get_ids_spec trace_basic "TAGame.Car_TA" 0 [2; 3]). reflexivity.
Defined.

Lemma find_ids_spec_witness :
  In 0 (update_frames trace_basic) /\
  exists fr,
    py_index (frames trace_basic) 0 = Ok fr /\
    StronglySorted Z.lt
      (dkeys [(1, "TAGame.Ball_TA"); (2, "TAGame.Car_TA"); (3, "TAGame.Car_TA")]) /\
    forall a, dget a [(1, "TAGame.Ball_TA"); (2, "TAGame.Car_TA"); (3, "TAGame.Car_TA")] =
              spawn_class_of fr a.
Proof.
  apply (find_ids_spec trace_basic 0). reflexivity.
Defined.

(** The resolver's lookups fail with [KeyError] for a frame that is not an
    update frame and with [IndexError] for an update frame outside the
    frame list, and in no other case. *)
Theorem find_ids_error (t : replay) (spawnframe : Z) (e : exn) :
  find_ids t spawnframe = Raise e <->
  (e = KeyError /\ ~ In spawnframe (update_frames t)) \/
  (e = IndexError /\ In spawnframe (update_frames t) /\
   ~ (- Z.of_nat (List.length (frames t)) <= spawnframe < Z.of_nat (List.length (frames t)))).
Proof.
  unfold find_ids.
  assert (Hmem : Zmem spawnframe (update_frames t) = true <-> In spawnframe (update_frames t)).
  { unfold Zmem. rewrite existsb_exists. split.
    - intros (x & Hin & Heq). apply Z.eqb_eq in Heq. now subst.
    - intros Hin. exists spawnframe. split; [exact Hin | apply Z.eqb_refl]. }
  destruct (Zmem spawnframe (update_frames t)) eqn:E; simpl negb; cbv iota.
  - assert (Hin : In spawnframe (update_frames t)) by now apply Hmem.
    unfold py_index.
    set (n := Z.of_nat (List.length (frames t))).
    set (j := if spawnframe <? 0 then n + spawnframe else spawnframe).
    destruct ((j <? 0) || (n <=? j)) eqn:Eout; cbn [bind].
    + split; [intros [= <-]|].
      * right. split; [reflexivity|]. split; [exact Hin|].
        apply orb_true_iff in Eout. unfold j in Eout.
        destruct (spawnframe <? 0) eqn:Eneg;
          [apply Z.ltb_lt in Eneg | apply Z.ltb_ge in Eneg];
          destruct Eout as [Eo|Eo];
          [apply Z.ltb_lt in Eo | apply Z.leb_le in Eo
          |apply Z.ltb_lt in Eo | apply Z.leb_le in Eo]; lia.
      * intros [[_ Hn]|[-> _]]; [contradiction | reflexivity].
    + apply orb_false_iff in Eout. destruct Eout as (Ej & En).
      apply Z.ltb_ge in Ej. apply Z.leb_gt in En.
      destruct (nth_error (frames t) (Z.to_nat j)) as [fr|] eqn:Enth; cbn [bind].
      * split; [discriminate|].
        intros [[_ Hn]|[_ [_ Hn]]]; [contradiction|].
        exfalso. apply Hn. unfold j in Ej, En.
        destruct (spawnframe <? 0) eqn:Eneg;
          [apply Z.ltb_lt in Eneg | apply Z.ltb_ge in Eneg]; lia.
      * apply nth_error_None in Enth. lia.
  - assert (Hnin : ~ In spawnframe (update_frames t)).
    { intros Hin. apply Hmem in Hin. congruence. }
    split; [intros [= <-]; now left|].
    intros [[-> _]|[_ [Hin _]]]; [reflexivity | contradiction].
Qed.

(** ** [find_teams] *)

Lemma team_append_In (teams teams' : teams_t) (team actor : Z) :
  team_append teams team actor = Ok teams' ->
  (team = 0 \/ team = 1) /\
  (forall x, In x (fst teams') <-> In x (fst teams) \/ (x = actor /\ team = 0)) /\
  (forall x, In x (snd teams') <-> In x (snd teams) \/ (x = actor /\ team = 1)).
Proof.
  unfold team_append.
  destruct (team =? 0) eqn:E0; [apply Z.eqb_eq in E0 | apply Z.eqb_neq in E0].
  - intros [= <-]. simpl. split; [now left|]. split; intros x.
    + rewrite in_app_iff. simpl. intuition.
    + intuition lia.
  - destruct (team =? 1) eqn:E1; [apply Z.eqb_eq in E1 | discriminate].
    intros [= <-]. simpl. split; [now right|]. split; intros x.
    + intuition lia.
    + rewrite in_app_iff. simpl. intuition.
Qed.

Lemma paint_entries_In (actor : Z) (updated : list entry) :
  forall (teams teams' : teams_t),
    for_each (fun teams e =>
                if negb (entry_id e =? COLOR_ID) then Ok teams
                else match entry_value e with
                     | TeamPaint team => team_append teams team actor
                     | _ => Raise KeyError
                     end) updated teams = Ok teams' ->
    (forall x, In x (fst teams') <->
               In x (fst teams) \/
               (x = actor /\ exists e, In e updated /\ entry_id e = COLOR_ID /\
                                       entry_value e = TeamPaint 0)) /\
    (forall x, In x (snd teams') <->
               In x (snd teams) \/
               (x = actor /\ exists e, In e updated /\ entry_id e = COLOR_ID /\
                                       entry_value e = TeamPaint 1)).
Proof.
  induction updated as [|e updated IH]; intros teams teams' Hrun; simpl in Hrun.
  - inversion Hrun; subst. split; intros x; split; try tauto;
      intros [H|[_ (e & [] & _)]]; exact H.
  - apply bind_Ok_inv in Hrun. destruct Hrun as (teams1 & Hstep & Hrun).
    apply IH in Hrun. destruct Hrun as (H0 & H1).
    destruct (negb (entry_id e =? COLOR_ID)) eqn:Eid.
    + inversion Hstep; subst teams1. clear Hstep.
      apply negb_true_iff, Z.eqb_neq in Eid.
      split; intros x; [rewrite H0 | rewrite H1]; split;
        (intros [H|(-> & e' & Hin & Hid & Hv)]; [now left | right]);
        (split; [reflexivity|]); exists e'; simpl; try tauto;
        destruct Hin as [<-|Hin]; [contradiction | tauto | contradiction | tauto].
    + apply negb_false_iff, Z.eqb_eq in Eid.
      destruct (entry_value e) as [rb|team|] eqn:Ev; try discriminate.
      apply team_append_In in Hstep. destruct Hstep as (Hteam & Ht0 & Ht1).
      split; intros x; [rewrite H0, Ht0 | rewrite H1, Ht1]; split.
      * intros [[H|(-> & ->)]|(-> & e' & Hin & Hid & Hv)]; [now left | right | right];
          (split; [reflexivity|]); [exists e | exists e']; simpl; tauto.
      * intros [H|(-> & e' & [<-|Hin] & Hid & Hv)]; [tauto | | right; eauto].
        left. right. split; [reflexivity | congruence].
      * intros [[H|(-> & ->)]|(-> & e' & Hin & Hid & Hv)]; [now left | right | right];
          (split; [reflexivity|]); [exists e | exists e']; simpl; tauto.
      * intros [H|(-> & e' & [<-|Hin] & Hid & Hv)]; [tauto | | right; eauto].
        left. right. split; [reflexivity | congruence].
Qed.

Lemma paint_frame_In (cars : list Z) (fr : frame) :
  forall (teams teams' : teams_t),
    for_each
      (fun teams r =>
         match rep_value r with
         | Spawned _ => Ok teams
         | Destroyed =>
             if negb (Zmem (actor_id r) cars) then Ok teams else Raise KeyError
         | Updated updated =>
             if negb (Zmem (actor_id r) cars) then Ok teams
             else for_each
                    (fun teams e =>
                       if negb (entry_id e =? COLOR_ID) then Ok teams
                       else match entry_value e with
                            | TeamPaint team => team_append teams team (actor_id r)
                            | _ => Raise KeyError
                            end)
                    updated teams
         end) fr teams = Ok teams' ->
    (forall x, In x (fst teams') <-> In x (fst teams) \/ painted fr cars x 0) /\
    (forall x, In x (snd teams') <-> In x (snd teams) \/ painted fr cars x 1).
Proof.
  assert (Hnil : forall x team, ~ painted [] cars x team).
  { intros x team (r & u & e & [] & _). }
  assert (Hcons : forall r fr x team,
             painted (r :: fr) cars x team <->
             painted [r] cars x team \/ painted fr cars x team).
  { intros r fr0 x team. split.
    - intros (r' & u & e & [<-|Hin] & Hrest).
      + left. exists r, u, e. split; [now left | exact Hrest].
      + right. exists r', u, e. split; [exact Hin | exact Hrest].
    - intros [(r' & u & e & [<-|[]] & Hrest)|(r' & u & e & Hin & Hrest)].
      + exists r, u, e. split; [now left | exact Hrest].
      + exists r', u, e. split; [now right | exact Hrest]. }
  induction fr as [|r fr IH]; intros teams teams' Hrun; simpl in Hrun.
  - inversion Hrun; subst. split; intros x; split; try tauto;
      intros [H|H]; [exact H | now apply Hnil in H | exact H | now apply Hnil in H].
  - apply bind_Ok_inv in Hrun. destruct Hrun as (teams1 & Hstep & Hrun).
    apply IH in Hrun. destruct Hrun as (H0 & H1).
    assert (Hone : (forall x, In x (fst teams1) <->
                              In x (fst teams) \/ painted [r] cars x 0) /\
                   (forall x, In x (snd teams1) <->
                              In x (snd teams) \/ painted [r] cars x 1)).
    { assert (Hskip : (forall x team, ~ painted [r] cars x team) -> teams1 = teams ->
                      (forall x, In x (fst teams1) <->
                                 In x (fst teams) \/ painted [r] cars x 0) /\
                      (forall x, In x (snd teams1) <->
                                 In x (snd teams) \/ painted [r] cars x 1)).
      { intros Hno ->. split; intros x; split; try tauto;
          intros [H|H]; try exact H; now apply Hno in H. }
      destruct (rep_value r) as [c|updated|] eqn:Ev.
      - apply Hskip; [|now inversion Hstep].
        intros x team (r' & u & e & [<-|[]] & _ & _ & Hu & _). congruence.
      - destruct (negb (Zmem (actor_id r) cars)) eqn:Ecar.
        + apply Hskip; [|now inversion Hstep].
          intros x team (r' & u & e & [<-|[]] & <- & Hm & _).
          apply negb_true_iff in Ecar. congruence.
        + apply negb_false_iff in Ecar.
          apply paint_entries_In in Hstep. destruct Hstep as (Hp0 & Hp1).
          split; intros x; [rewrite Hp0 | rewrite Hp1]; split.
          * intros [H|(-> & e & Hin & Hid & Hv)]; [now left | right].
            exists r, updated, e. simpl. auto 10.
          * intros [H|(r' & u & e & [<-|[]] & <- & Hm & Hu & Hin & Hid & Hv)];
              [now left | right].
            rewrite Ev in Hu. inversion Hu; subst u. eauto.
          * intros [H|(-> & e & Hin & Hid & Hv)]; [now left | right].
            exists r, updated, e. simpl. auto 10.
          * intros [H|(r' & u & e & [<-|[]] & <- & Hm & Hu & Hin & Hid & Hv)];
              [now left | right].
            rewrite Ev in Hu. inversion Hu; subst u. eauto.
      - apply Hskip.
        + intros x team (r' & u & e & [<-|[]] & _ & _ & Hu & _). congruence.
        + destruct (negb (Zmem (actor_id r) cars)); [now inversion Hstep | discriminate]. }
    destruct Hone as (Ho0 & Ho1).
    split; intros x; [rewrite H0, Ho0 | rewrite H1, Ho1]; rewrite (Hcons r fr); tauto.
Qed.

(** [find_teams] puts an actor in team 0 (team 1) exactly when it is one of
    the cars spawned in the update frame and an update of that frame
    carries a team-paint entry with team 0 (team 1) for it. *)
Theorem find_teams_spec (t : replay) (spawnframe : Z) (teams : teams_t) :
  find_teams t spawnframe = Ok teams ->
  exists cars fr,
    get_ids t "TAGame.Car_TA" spawnframe None = Ok cars /\
    py_index (frames t) spawnframe = Ok fr /\
    (forall a, In a (fst teams) <-> painted fr cars a 0) /\
    (forall a, In a (snd teams) <-> painted fr cars a 1) /\
    (forall a, In a (fst teams) \/ In a (snd teams) -> In a cars).
Proof.
  unfold find_teams. destruct (negb (Zmem spawnframe (update_frames t))); [discriminate|].
  unfold find_teams_update. intros Hrun.
  apply bind_Ok_inv in Hrun. destruct Hrun as (cars & Hcars & Hrun).
  apply bind_Ok_inv in Hrun. destruct Hrun as (fr & Hfr & Hrun).
  apply paint_frame_In in Hrun. destruct Hrun as (H0 & H1). simpl in H0, H1.
  exists cars, fr. split; [exact Hcars|]. split; [exact Hfr|].
  assert (Hp0 : forall a, In a (fst teams) <-> painted fr cars a 0).
  { intros a. rewrite H0. tauto. }
  assert (Hp1 : forall a, In a (snd teams) <-> painted fr cars a 1).
  { intros a. rewrite H1. tauto. }
  split; [exact Hp0|]. split; [exact Hp1|].
  intros a Hin.
  assert (Hpaint : exists team, painted fr cars a team).
  { destruct Hin as [Hin|Hin]; [apply Hp0 in Hin | apply Hp1 in Hin]; eauto. }
  destruct Hpaint as (team & r & u & e & _ & _ & Hm & _).
  unfold Zmem in Hm. apply existsb_exists in Hm. destruct Hm as (x & Hx & Heq).
  apply Z.eqb_eq in Heq. now subst.
Qed.

Lemma find_teams_spec_witness :
  exists cars fr,
    get_ids trace_basic "TAGame.Car_TA" 0 None = Ok cars /\
    py_index (frames trace_basic) 0 = Ok fr /\
    (forall a, In a (fst ([2], [3])) <-> painted fr cars a 0) /\
    (forall a, In a (snd ([2], [3])) <-> painted fr cars a 1) /\
    (forall a, In a (fst ([2], [3])) \/ In a (snd ([2], [3])) -> In a cars).
Proof.
  apply (find_teams_spec trace_basic 0 ([2], [3])). reflexivity.
Defined.

(** * Further properties of the extraction *)

Lemma epoch_step_output (t : replay) (ball cars : bool) (i : Z) (st st' : gp_state) :
  epoch_step t ball cars i st = Ok st' -> output st' = output st.
Proof.
  unfold epoch_step. intros Hepoch.
  destruct (Nat.eqb _ _); [now inversion Hepoch|].
  apply bind_Ok_inv in Hepoch. destruct Hepoch as (b & _ & Hepoch).
  destruct (negb (i =? b)); [now inversion Hepoch|].
  apply bind_Ok_inv in Hepoch. destruct Hepoch as (? & _ & Hepoch).
  apply bind_Ok_inv in Hepoch. destruct Hepoch as (? & _ & Hepoch).
  apply bind_Ok_inv in Hepoch. destruct Hepoch as (? & _ & Hepoch).
  now inversion Hepoch.
Qed.

Lemma interp_loop_cases (fuel : nat) :
  forall (out out' : physics) (i : Z) (key : string) (m : Z),
    interp_loop fuel out i key m = Ok out' ->
    out' = out \/
    exists m', m <= m' < 5 /\
               has_snapshot out (i - m') key = true /\
               back_fill out i key (m' - 1) = Ok out'.
Proof.
  induction fuel as [|fuel IH]; simpl; intros out out' i key m Hrun.
  - left. now inversion Hrun.
  - destruct (m <? 5) eqn:Em; [|left; now inversion Hrun].
    apply Z.ltb_lt in Em.
    destruct (has_snapshot out (i - m) key) eqn:Eh; simpl in Hrun.
    + right. exists m. split; [lia|]. split; [exact Eh | exact Hrun].
    + apply IH in Hrun. destruct Hrun as [->|(m' & Hm' & Hh & Hfill)]; [now left|].
      right. exists m'. split; [lia|]. split; [exact Hh | exact Hfill].
Qed.

(** An induction principle for the frame loop: a property of the
    collection, indexed by the frame being processed, that survives the
    write of the current frame, every back-fill below it, and the move to
    the next frame, holds when the loop is left. *)
Section FrameInvariant.
Variable interpolate : bool.
Variable D : Z -> physics -> Prop.

Hypothesis D_write :
  forall n out key av lv loc rot,
    0 <= n -> D n out ->
    (exists ball_id teams actor, key = entity_key ball_id teams actor) ->
    D n (set_snapshot out n key (make_snapshot av lv loc rot)).

Hypothesis D_fill :
  interpolate = true ->
  forall n out key s p j,
    0 <= n -> D n out ->
    snap_at out n key = Some s ->
    has_snapshot out p key = true ->
    p < j < n ->
    D n (set_snapshot out j key s).

Hypothesis D_next : forall n out, D n out -> D (n + 1) out.

Lemma D_back_fill (n : Z) (key : string) (p m : Z) (out out' : physics) :
  interpolate = true ->
  0 <= n -> n - m - 1 = p ->
  D n out ->
  has_snapshot out p key = true ->
  back_fill out n key m = Ok out' ->
  D n out'.
Proof.
  intros Hint Hn Hp HD Hhas. unfold back_fill. intros Hrun.
  assert (Hinv : D n out' /\ has_snapshot out' p key = true).
  { eapply for_each_invariant
      with (P := fun o => D n o /\ has_snapshot o p key = true);
      [split; [exact HD | exact Hhas] | | exact Hrun].
    intros o k o' Hk (HDo & Hho) Hstep.
    apply in_seq in Hk.
    apply back_fill_step_inv in Hstep. destruct Hstep as (s & Hs & ->).
    split.
    - apply (D_fill Hint n o key s p); auto. lia.
    - rewrite has_snapshot_set_other; [exact Hho | left; lia]. }
  exact (proj1 Hinv).
Qed.

Lemma D_store (n : Z) (key : string) (av lv loc : vec3) (rot : quaternion)
  (out out' : physics) :
  0 <= n -> D n out ->
  (exists ball_id teams actor, key = entity_key ball_id teams actor) ->
  store_snapshot interpolate out n key (make_snapshot av lv loc rot) = Ok out' ->
  D n out'.
Proof.
  intros Hn HD Hkey. unfold store_snapshot, interpolate_back.
  pose proof (D_write n out key av lv loc rot Hn HD Hkey) as H1.
  assert (Hcase : interpolate = true \/ interpolate = false)
    by (destruct interpolate; auto).
  destruct Hcase as [Eint|Eint]; rewrite Eint; simpl negb; cbv iota;
    [|now intros [= <-]].
  destruct ((n =? 0) || has_snapshot _ (n - 1) key); [now intros [= <-]|].
  intros Hrun. apply interp_loop_cases in Hrun.
  destruct Hrun as [->|(m & Hm & Hh & Hfill)]; [exact H1|].
  eapply (D_back_fill n key (n - m) (m - 1)); eauto. lia.
Qed.

Lemma D_replication_step (n : Z) (ball_id car_ids : list Z) (teams : teams_t)
  (out out' : physics) (r : replication) :
  0 <= n -> D n out ->
  replication_step interpolate n ball_id car_ids teams out r = Ok out' ->
  D n out'.
Proof.
  intros Hn HD. unfold replication_step. intros Hrun.
  destruct (rep_value r) as [c|updated|]; try (now inversion Hrun; subst).
  destruct (negb (Zmem (actor_id r) (ball_id ++ car_ids))); [now inversion Hrun; subst|].
  apply bind_Ok_inv in Hrun. destruct Hrun as ([rb|] & _ & Hrun);
    [|now inversion Hrun; subst].
  destruct (angular_velocity rb) as [av|]; [|now inversion Hrun; subst].
  destruct (linear_velocity rb) as [lv|]; [|now inversion Hrun; subst].
  eapply D_store; [exact Hn | exact HD | | exact Hrun]. eauto.
Qed.

Lemma D_frame_step (t : replay) (ball cars : bool) (n : Z) (fr : frame)
  (st st' : gp_state) :
  0 <= n -> D n (output st) ->
  frame_step t ball cars interpolate n fr st = Ok st' ->
  D n (output st').
Proof.
  intros Hn HD. unfold frame_step. intros Hrun.
  apply bind_Ok_inv in Hrun. destruct Hrun as (st1 & Hepoch & Hrun).
  apply bind_Ok_inv in Hrun. destruct Hrun as (out & Hreps & Hrun).
  inversion Hrun; subst; simpl. clear Hrun.
  apply epoch_step_output in Hepoch.
  eapply for_each_invariant with (P := D n); [| |exact Hreps].
  - now rewrite Hepoch.
  - intros o r o' _ Ho Hstep. eapply D_replication_step; eauto.
Qed.

Lemma D_frames_loop (t : replay) (ball cars : bool) :
  forall (fs : list frame) (i : Z) (st st' : gp_state),
    0 <= i -> D (i - 1) (output st) ->
    frames_loop t ball cars interpolate i fs st = Ok st' ->
    D (i + Z.of_nat (List.length fs) - 1) (output st').
Proof.
  induction fs as [|fr fs IH]; intros i st st' Hi HD Hrun; simpl in Hrun.
  - inversion Hrun; subst. simpl. now rewrite Z.add_0_r.
  - apply bind_Ok_inv in Hrun. destruct Hrun as (st1 & Hstep & Hrun).
    apply D_next in HD. replace (i - 1 + 1) with i in HD by lia.
    pose proof (D_frame_step t ball cars i fr st st1 Hi HD Hstep) as HD1.
    apply IH in Hrun; [|lia|now replace (i + 1 - 1) with i by lia].
    replace (i + Z.of_nat (List.length (fr :: fs)) - 1)
      with (i + 1 + Z.of_nat (List.length fs) - 1) by (simpl List.length; lia).
    exact Hrun.
Qed.

Lemma D_get_physics (t : replay) (ball cars : bool) (phys : physics) :
  D (-1) [] ->
  get_physics_with t ball cars interpolate = Ok phys ->
  D (Z.of_nat (List.length (frames t)) - 1) phys.
Proof.
  intros HD. unfold get_physics_with. intros Hrun.
  destruct (negb (ball || cars)); [discriminate|].
  destruct (update_frames t) as [|u0 ?]; [discriminate|].
  destruct (negb (u0 =? 0)); [discriminate|].
  apply bind_Ok_inv in Hrun. destruct Hrun as (st & Hloop & Hrun).
  inversion Hrun; subst. clear Hrun.
  apply (D_frames_loop t ball cars (frames t) 0 gp_init st) in Hloop; [exact Hloop|lia|exact HD].
Qed.

End FrameInvariant.

Lemma entity_key_shape (ball_id : list Z) (teams : teams_t) (actor : Z) :
  is_entity_key (entity_key ball_id teams actor).
Proof.
  unfold entity_key, is_entity_key.
  destruct (Zmem actor ball_id); [now left|]. right. exists actor.
  destruct (Zmem actor (snd teams)); [now right | now left].
Qed.

Lemma dkeys_set_snapshot (out : physics) (i : Z) (key : string) (s : snapshot) (j : Z) :
  In j (dkeys (set_snapshot out i key s)) <-> j = i \/ In j (dkeys out).
Proof.
  unfold set_snapshot. destruct (dget i out); apply dkeys_dset_In.
Qed.

Lemma dget_set_snapshot_other (out : physics) (i j : Z) (key : string) (s : snapshot) :
  j <> i -> dget j (set_snapshot out i key s) = dget j out.
Proof.
  intros Hne. unfold set_snapshot.
  destruct (dget i out); apply dget_dset_other; congruence.
Qed.

Lemma dget_set_snapshot_same (out : physics) (i : Z) (key : string) (s : snapshot) :
  dget i (set_snapshot out i key s) =
  Some (dset key s (match dget i out with Some fr => fr | None => [] end)).
Proof.
  unfold set_snapshot. destruct (dget i out); apply dget_dset_same.
Qed.

Lemma has_snapshot_key (out : physics) (p : Z) (key : string) :
  has_snapshot out p key = true -> In p (dkeys out) /\ exists fr, dget p out = Some fr /\ In key (dkeys fr).
Proof.
  unfold has_snapshot. destruct (dget p out) as [fr|] eqn:E; [|discriminate].
  destruct (dget key fr) as [s|] eqn:Ek; [|discriminate]. intros _.
  split; [eapply dget_In_keys; eauto|]. exists fr. split; [reflexivity|].
  eapply dget_In_keys; eauto.
Qed.

Lemma dset_not_nil {K V : Type} `{KeyDec K} (k : K) (v : V) (d : dict K V) :
  dset k v d <> [].
Proof.
  destruct d as [|[k' v'] d]; simpl; [discriminate|].
  destruct (key_dec k k'); discriminate.
Qed.

(** Writing a snapshot under a well-formed key keeps the collection well
    formed, provided the frame written is within the bounds. *)
Lemma collection_ok_set (n j : Z) (out : physics) (key : string) (s : snapshot) :
  0 <= j <= n -> is_entity_key key ->
  collection_ok n out -> collection_ok n (set_snapshot out j key s).
Proof.
  intros Hj Hkey (Hnd & Hrange & Hfr). split; [|split].
  - unfold set_snapshot. destruct (dget j out); now apply dkeys_dset_NoDup.
  - intros j' Hin. apply dkeys_set_snapshot in Hin. destruct Hin as [->|Hin]; auto.
  - intros j' fr Hget. destruct (Z.eq_dec j' j) as [->|Hne].
    + rewrite dget_set_snapshot_same in Hget. inversion Hget; subst. clear Hget.
      split; [apply dset_not_nil|].
      destruct (dget j out) as [fr0|] eqn:E.
      * destruct (Hfr j fr0 E) as (_ & Hnd0 & Hk0). split; [now apply dkeys_dset_NoDup|].
        intros k Hk. apply dkeys_dset_In in Hk. destruct Hk as [->|Hk]; auto.
      * split; [apply dkeys_dset_NoDup; constructor|].
        intros k Hk. apply dkeys_dset_In in Hk. destruct Hk as [->|[]]. exact Hkey.
    + rewrite dget_set_snapshot_other in Hget by exact Hne. eauto.
Qed.

Lemma collection_ok_get_physics (t : replay) (ball cars interpolate : bool)
  (phys : physics) :
  get_physics_with t ball cars interpolate = Ok phys ->
  collection_ok (Z.of_nat (List.length (frames t)) - 1) phys.
Proof.
  apply (D_get_physics interpolate collection_ok).
  - intros n out key av lv loc rot Hn Hok (b & tm & a & ->).
    apply collection_ok_set; [lia | apply entity_key_shape | exact Hok].
  - intros _ n out key s p j Hn Hok Hs Hhas Hj.
    apply has_snapshot_key in Hhas. destruct Hhas as (Hp & fr & Hfr & Hk).
    pose proof Hok as (Hnd & Hrange & Hfrs).
    apply collection_ok_set; [|apply (Hfrs p fr Hfr); exact Hk|exact Hok].
    apply Hrange in Hp. lia.
  - intros n out (Hnd & Hrange & Hfr). split; [exact Hnd|]. split; [|exact Hfr].
    intros j Hj. apply Hrange in Hj. lia.
  - split; [constructor|]. split; [intros j []|]. intros j fr. discriminate.
Qed.

(** Every frame index stored by the extraction is the index of a frame of
    the trace, no stored frame is empty, and every entity key stored is
    ['ball'] or a team digit 0 or 1 followed by ['_car_'] and an actor id. *)
Theorem physics_well_formed (t : replay) (ball cars interpolate : bool)
  (phys : physics) (j : Z) (fr : dict string snapshot) :
  get_physics_with t ball cars interpolate = Ok phys ->
  dget j phys = Some fr ->
  0 <= j < Z.of_nat (List.length (frames t)) /\
  fr <> [] /\
  frame_truthy phys j = true /\
  forall k, In k (dkeys fr) -> is_entity_key k.
Proof.
  intros Hrun Hget. apply collection_ok_get_physics in Hrun.
  destruct Hrun as (_ & Hrange & Hfr).
  destruct (Hfr j fr Hget) as (Hne & _ & Hkeys).
  split; [apply dget_In_keys in Hget; apply Hrange in Hget; lia|].
  split; [exact Hne|]. split; [|exact Hkeys].
  unfold frame_truthy. rewrite Hget. destruct fr; [contradiction | reflexivity].
Qed.

Lemma physics_well_formed_witness :
  0 <= 1 < Z.of_nat (List.length (frames trace_basic)) /\
  match dget 1 physics_basic with Some fr => fr | None => [] end <> [] /\
  frame_truthy physics_basic 1 = true /\
  forall k, In k (dkeys (match dget 1 physics_basic with Some fr => fr | None => [] end)) ->
            is_entity_key k.
Proof.
  apply (physics_well_formed trace_basic true true true physics_basic 1); reflexivity.
Defined.






(** ** A single update frame *)

Lemma replication_step_no_ids (interpolate : bool) (i : Z) (teams : teams_t)
  (out : physics) (r : replication) :
  replication_step interpolate i [] [] teams out r = Ok out.
Proof.
  unfold replication_step. destruct (rep_value r); reflexivity.
Qed.

Lemma frames_loop_single_boundary (t : replay) (ball cars interpolate : bool) :
  List.length (update_frames t) = 1%nat ->
  forall (fs : list frame) (i : Z),
    frames_loop t ball cars interpolate i fs gp_init = Ok gp_init.
Proof.
  intros Hlen. induction fs as [|fr fs IH]; intros i; simpl; [reflexivity|].
  unfold frame_step. rewrite epoch_step_last_boundary by (rewrite Hlen; reflexivity).
  cbn [bind gp_init output ball_id car_ids teams update_pointer].
  assert (Hreps : for_each (replication_step interpolate i [] [] ([], [])) fr [] = Ok []).
  { induction fr as [|r fr IHfr]; simpl; [reflexivity|].
    rewrite replication_step_no_ids. simpl. exact IHfr. }
  rewrite Hreps. cbn [bind]. apply IH.
Qed.

(** A trace whose list of update frames is just [0] yields an empty
    collection, whatever its frames contain: the epoch cursor never
    resolves the only boundary, so no actor id is ever searched for. *)
Theorem single_update_frame_gives_no_physics (t : replay) (ball cars interpolate : bool) :
  update_frames t = [0] ->
  (ball || cars) = true ->
  get_physics_with t ball cars interpolate = Ok [].
Proof.
  intros Huf Hbc. unfold get_physics_with. rewrite Hbc, Huf. simpl negb. cbv iota.
  simpl (negb (0 =? 0)). cbv iota.
  rewrite frames_loop_single_boundary by (rewrite Huf; reflexivity). reflexivity.
Qed.

Lemma single_update_frame_gives_no_physics_witness :
  get_physics_with trace_single_boundary true true true = Ok [].
Proof.
  apply (single_update_frame_gives_no_physics trace_single_boundary true true true);
    reflexivity.
Defined.

(** * Further properties of the event detector *)

Lemma kickoffs_loop_keep (fuel : nat) (phys : physics) (g : Z) :
  forall (goal_frames : list Z) (acc out : dict Z Z),
    ~ In g goal_frames ->
    kickoffs_loop fuel phys goal_frames acc = Some out ->
    dget g out = dget g acc.
Proof.
  induction goal_frames as [|g0 gs IH]; intros acc out Hnin Hrun; simpl in Hrun.
  - now inversion Hrun.
  - destruct (kickoff_scan fuel phys g0 false) as [w0|]; [|discriminate].
    rewrite (IH _ _ (fun H => Hnin (or_intror H)) Hrun).
    apply dget_dset_other. intros ->. apply Hnin. now left.
Qed.

Lemma kickoffs_loop_entries (fuel : nat) (phys : physics) :
  forall (goal_frames : list Z) (acc out : dict Z Z),
    kickoffs_loop fuel phys goal_frames acc = Some out ->
    (forall g, In g goal_frames -> dget g out = kickoff_scan fuel phys g false) /\
    (forall g w, dget g out = Some w ->
                 dget g acc = Some w \/
                 (In g goal_frames /\ kickoff_scan fuel phys g false = Some w)).
Proof.
  induction goal_frames as [|g0 gs IH]; intros acc out Hrun; simpl in Hrun.
  - inversion Hrun; subst. split; [intros g []|]. intros g w Hg. now left.
  - destruct (kickoff_scan fuel phys g0 false) as [w0|] eqn:E; [|discriminate].
    pose proof Hrun as Hrun'. apply IH in Hrun. destruct Hrun as (Hall & Hfrom). split.
    + intros g [<-|Hin]; [|auto].
      destruct (in_dec Z.eq_dec g0 gs) as [Hin|Hnin]; [auto|].
      rewrite (kickoffs_loop_keep fuel phys g0 gs _ out Hnin Hrun').
      now rewrite dget_dset_same.
    + intros g w Hg. destruct (Hfrom g w Hg) as [Hacc|[Hin Hscan]].
      * destruct (Z.eq_dec g0 g) as [->|Hne].
        -- rewrite dget_dset_same in Hacc. inversion Hacc; subst.
           right. split; [now left | exact E].
        -- rewrite dget_dset_other in Hacc by exact Hne. now left.
      * right. split; [now right | exact Hscan].
Qed.

Lemma kickoffs_loop_mono (phys : physics) (fuel fuel' : nat) :
  (fuel <= fuel')%nat ->
  forall (goal_frames : list Z) (acc out : dict Z Z),
    kickoffs_loop fuel phys goal_frames acc = Some out ->
    kickoffs_loop fuel' phys goal_frames acc = Some out.
Proof.
  intros Hle. induction goal_frames as [|g0 gs IH]; intros acc out Hrun; simpl in *.
  - exact Hrun.
  - destruct (kickoff_scan fuel phys g0 false) as [w0|] eqn:E; [|discriminate].
    rewrite (kickoff_scan_mono phys fuel fuel' g0 false w0 Hle E). now apply IH.
Qed.

(** If every goal frame of the list has a kickoff, some amount of fuel
    serves them all. *)
Lemma kickoffs_loop_complete (phys : physics) :
  forall (goal_frames : list Z) (acc : dict Z Z),
    (forall g, In g goal_frames -> exists w, scan_finds phys g w) ->
    exists fuel out, kickoffs_loop fuel phys goal_frames acc = Some out.
Proof.
  induction goal_frames as [|g0 gs IH]; intros acc Hall.
  - exists 0%nat, acc. reflexivity.
  - destruct (Hall g0 (or_introl eq_refl)) as (w0 & f0 & Hscan).
    destruct (IH (dset g0 w0 acc) (fun g H => Hall g (or_intror H))) as (f1 & out & Hrest).
    exists (Nat.max f0 f1), out. simpl.
    rewrite (kickoff_scan_mono phys f0 (Nat.max f0 f1) g0 false w0 (Nat.le_max_l _ _) Hscan).
    apply (kickoffs_loop_mono phys f1 (Nat.max f0 f1) (Nat.le_max_r _ _)). exact Hrest.
Qed.

Lemma kickoffs_loop_scans (fuel : nat) (phys : physics) :
  forall (goal_frames : list Z) (acc out : dict Z Z),
    kickoffs_loop fuel phys goal_frames acc = Some out ->
    forall g, In g goal_frames -> exists w, kickoff_scan fuel phys g false = Some w.
Proof.
  induction goal_frames as [|g0 gs IH]; intros acc out Hrun g Hin; simpl in Hrun.
  - destruct Hin.
  - destruct (kickoff_scan fuel phys g0 false) as [w0|] eqn:E; [|discriminate].
    destruct Hin as [<-|Hin]; [eauto|]. eapply IH; eauto.
Qed.

(** A result of [find_kickoffs] always has the entry of the opening
    kickoff (key 0), and every entry maps a scanned frame (frame 0 or a
    goal frame other than the last) to a frame strictly after it whose
    ten-frame window is fully stored and whose predecessor has no
    snapshots. *)
Theorem find_kickoffs_entries (fuel : nat) (t : replay) (phys : physics)
  (out : dict Z Z) :
  find_kickoffs fuel t phys = Some (Ok out) ->
  (exists w, dget 0 out = Some w) /\
  forall g w,
    dget g out = Some w ->
    g < w /\
    window_all phys w = true /\
    frame_truthy phys (w - 1) = false /\
    (g = 0 \/ exists goals, find_goals t phys = Ok goals /\
                            In g (drop_last (dkeys goals))).
Proof.
  unfold find_kickoffs. destruct (find_goals t phys) as [goals|e]; [|discriminate].
  destruct (kickoffs_loop fuel phys (drop_last (dkeys goals) ++ [0]) []) as [o|] eqn:E;
    [|discriminate].
  intros [= <-]. pose proof (kickoffs_loop_scans _ _ _ _ _ E) as Hscans.
  apply kickoffs_loop_entries in E. destruct E as (Hall & Hfrom). split.
  - assert (Hin : In 0 (drop_last (dkeys goals) ++ [0])) by (apply in_or_app; right; now left).
    destruct (Hscans 0 Hin) as (w & Hw). exists w. rewrite (Hall 0 Hin). exact Hw.
  - intros g w Hg. destruct (Hfrom g w Hg) as [Hacc|[Hin Hscan]]; [discriminate|].
    assert (Hfinds : scan_finds phys g w) by (exists fuel; exact Hscan).
    destruct (kickoff_scan_previous_frame phys g w Hfinds) as (Hlt & Hprev).
    apply kickoff_scan_sound in Hscan. destruct Hscan as (_ & Hready & _).
    split; [exact Hlt|]. split; [exact Hready|]. split; [exact Hprev|].
    apply in_app_or in Hin. destruct Hin as [Hin|[<-|[]]]; [right; eauto | now left].
Qed.

Lemma find_kickoffs_entries_witness :
  (exists w, dget 0 [(0, 10)] = Some w) /\
  forall g w,
    dget g [(0, 10)] = Some w ->
    g < w /\
    window_all physics_possession w = true /\
    frame_truthy physics_possession (w - 1) = false /\
    (g = 0 \/ exists goals, find_goals trace_possession physics_possession = Ok goals /\
                            In g (drop_last (dkeys goals))).
Proof.
  apply (find_kickoffs_entries 11 trace_possession physics_possession [(0, 10)]).
  reflexivity.
Defined.

(** The scan from a frame leaves its loop exactly when a window without
    snapshots is followed by a window of stored frames. *)
Lemma scan_finds_reset_then_stored (phys : physics) (goal_frame : Z) :
  (exists w, scan_finds phys goal_frame w) <-> reset_then_stored phys goal_frame.
Proof.
  unfold reset_then_stored. split.
  - intros (w & fuel & Hrun). apply kickoff_scan_sound in Hrun.
    destruct Hrun as (_ & Hall & w0 & (Hle & Hany & _) & Hw0 & _).
    exists w0, w. split; [lia|]. split; [exact Hany | exact Hall].
  - intros (w0 & w & Hle & Hany & Hall).
    destruct (kickoff_scan_complete phys w Hall (Z.to_nat (w - goal_frame))
                goal_frame false) as (w' & Hrun).
    + rewrite Z2Nat.id; lia.
    + right. exists w0. split; [lia | exact Hany].
    + exists w', (S (Z.to_nat (w - goal_frame))). exact Hrun.
Qed.

(** [find_kickoffs] comes back (with a result or with the exception of
    [find_goals]) exactly when [find_goals] raises or every frame it scans
    from - frame 0 and every goal frame but the last - is followed by a
    window of ten frames without snapshots and, at or after that one, by a
    window of ten frames that all have snapshots. *)
Theorem find_kickoffs_returns_iff (t : replay) (phys : physics) :
  (exists fuel r, find_kickoffs fuel t phys = Some r) <->
  (exists e, find_goals t phys = Raise e) \/
  (exists goals,
      find_goals t phys = Ok goals /\
      forall g, In g (drop_last (dkeys goals) ++ [0]) ->
                exists w0 w, g <= w0 <= w /\
                             window_any phys w0 = false /\ window_all phys w = true).
Proof.
  unfold find_kickoffs. destruct (find_goals t phys) as [goals|e].
  - split.
    + intros (fuel & r & Hrun). right. exists goals. split; [reflexivity|].
      destruct (kickoffs_loop fuel phys (drop_last (dkeys goals) ++ [0]) []) as [o|] eqn:E;
        [|discriminate].
      intros g Hin. destruct (kickoffs_loop_scans _ _ _ _ _ E g Hin) as (w & Hw).
      apply (scan_finds_reset_then_stored phys g). exists w, fuel. exact Hw.
    + intros [(e & He)|(goals' & Heq & Hall)]; [discriminate|].
      inversion Heq; subst goals'.
      destruct (kickoffs_loop_complete phys (drop_last (dkeys goals) ++ [0]) [])
        as (fuel & out & Hrun).
      { intros g Hin. apply scan_finds_reset_then_stored. now apply Hall. }
      exists fuel, (Ok out). now rewrite Hrun.
  - split; [intros _; left; eauto|]. intros _. exists 0%nat. eauto.
Qed.

(** ** [poss_intervals] and [time_before_goals] *)

Lemma ball_samples_length (phys : physics) (goal last : Z) (samples : list (Z * Z)) :
  ball_samples phys goal last = Ok samples ->
  (List.length samples <= Z.to_nat (goal - last))%nat.
Proof.
  unfold ball_samples, Zrange_down.
  set (body := fun acc frame =>
                 snap <- dlookup frame phys ;;
                 match dget "ball" snap with
                 | None => Ok acc
                 | Some b =>
                     y <- component b "location" "y" ;;
                     v <- component b "linear_velocity" "y" ;;
                     Ok (acc ++ [(y, v)])
                 end).
  assert (Hgen : forall (l : list Z) (acc res : list (Z * Z)),
             for_each body l acc = Ok res ->
             (List.length res <= List.length acc + List.length l)%nat).
  { induction l as [|f l IH]; intros acc res Hrun; simpl in Hrun.
    - inversion Hrun; subst. lia.
    - apply bind_Ok_inv in Hrun. destruct Hrun as (acc1 & Hstep & Hrun).
      apply IH in Hrun. simpl.
      assert (Hacc1 : (List.length acc1 <= S (List.length acc))%nat).
      { unfold body in Hstep.
        apply bind_Ok_inv in Hstep. destruct Hstep as (snap & _ & Hstep).
        destruct (dget "ball" snap) as [b|]; [|inversion Hstep; subst; lia].
        apply bind_Ok_inv in Hstep. destruct Hstep as (y & _ & Hstep).
        apply bind_Ok_inv in Hstep. destruct Hstep as (v & _ & Hstep).
        inversion Hstep; subst. rewrite length_app. simpl. lia. }
      lia. }
  intros Hrun. apply Hgen in Hrun. rewrite length_map, length_seq in Hrun.
  simpl in Hrun. exact Hrun.
Qed.

Lemma poss_interval_bounds (phys : physics) (threshold : Q) (goal team start stop : Z) :
  poss_interval phys threshold goal team = Ok (start, stop) ->
  stop = goal /\
  (0 <= threshold)%Q /\ (threshold <= 1)%Q /\
  exists last, last_kickoff phys goal = Ok last /\ last < start <= goal.
Proof.
  unfold poss_interval. intros Hrun.
  apply bind_Ok_inv in Hrun. destruct Hrun as (last & Hlast & Hrun).
  apply bind_Ok_inv in Hrun. destruct Hrun as (samples & Hsamples & Hrun).
  apply bind_Ok_inv in Hrun. destruct Hrun as (k & Hk & Hrun).
  inversion Hrun; subst. clear Hrun.
  apply find_window_size_spec in Hk. rewrite length_map in Hk.
  destruct Hk as (H0 & H1 & Hlt & _).
  apply ball_samples_length in Hsamples.
  pose proof (last_kickoff_spec phys _ last Hlast) as (Hl & _).
  split; [reflexivity|]. split; [exact H0|]. split; [exact H1|].
  exists last. split; [exact Hlast | lia].
Qed.

Lemma poss_intervals_loop (phys : physics) (threshold : Q) :
  forall (goals : dict Z Z) (acc ivs : list (Z * Z)),
    for_each (fun output g =>
                iv <- poss_interval phys threshold (fst g) (snd g) ;;
                Ok (output ++ [iv])) goals acc = Ok ivs ->
    exists new,
      ivs = acc ++ new /\
      map snd new = dkeys goals /\
      (goals <> [] -> (0 <= threshold)%Q /\ (threshold <= 1)%Q) /\
      forall start stop, In (start, stop) new ->
                         exists last, last_kickoff phys stop = Ok last /\
                                      last < start <= stop.
Proof.
  induction goals as [|[g tm] goals IH]; intros acc ivs Hrun; simpl in Hrun.
  - inversion Hrun; subst. exists []. rewrite app_nil_r.
    repeat split; try reflexivity; try congruence. intros ? ? [].
  - apply bind_Ok_inv in Hrun. destruct Hrun as (acc1 & Hstep & Hrun).
    apply bind_Ok_inv in Hstep. destruct Hstep as ([start stop] & Hiv & Hacc).
    inversion Hacc; subst acc1. clear Hacc. simpl in Hiv.
    apply poss_interval_bounds in Hiv. destruct Hiv as (-> & H0 & H1 & last & Hlast & Hb).
    apply IH in Hrun. destruct Hrun as (new & -> & Hsnd & _ & Hall).
    exists ((start, g) :: new). rewrite <- app_assoc. split; [reflexivity|].
    split; [simpl; now rewrite Hsnd|]. split; [auto|].
    intros s e [[= <- <-]|Hin]; [eauto | auto].
Qed.

Lemma poss_intervals_inv (t : replay) (phys : physics) (threshold : Q)
  (intervals : list (Z * Z)) :
  poss_intervals t phys threshold = Ok intervals ->
  exists goals,
    find_goals t phys = Ok goals /\
    map snd intervals = dkeys goals /\
    forall start stop, In (start, stop) intervals -> start <= stop.
Proof.
  unfold poss_intervals. intros Hrun.
  apply bind_Ok_inv in Hrun. destruct Hrun as (goals & Hgoals & Hrun).
  apply poss_intervals_loop in Hrun. destruct Hrun as (new & -> & Hsnd & _ & Hall).
  exists goals. split; [exact Hgoals|]. split; [exact Hsnd|].
  intros start stop Hin. simpl in Hin. destruct (Hall start stop Hin) as (last & _ & Hb).
  lia.
Qed.

(** [poss_intervals] returns one interval per detected goal, in the order
    of the goals, each ending at its goal frame and starting after the last
    frame below the goal that has no entry in the collection, and never
    after the goal. *)
Theorem poss_intervals_shape (t : replay) (phys : physics) (threshold : Q)
  (intervals : list (Z * Z)) :
  poss_intervals t phys threshold = Ok intervals ->
  exists goals,
    find_goals t phys = Ok goals /\
    map snd intervals = dkeys goals /\
    forall start stop,
      In (start, stop) intervals ->
      exists last, last_kickoff phys stop = Ok last /\
                   dget last phys = None /\
                   last < start <= stop.
Proof.
  unfold poss_intervals. intros Hrun.
  apply bind_Ok_inv in Hrun. destruct Hrun as (goals & Hgoals & Hrun).
  apply poss_intervals_loop in Hrun. destruct Hrun as (new & -> & Hsnd & _ & Hall).
  exists goals. split; [exact Hgoals|]. split; [exact Hsnd|].
  intros start stop Hin. simpl in Hin. destruct (Hall start stop Hin) as (last & Hlast & Hb).
  exists last. split; [exact Hlast|]. split; [|exact Hb].
  now apply last_kickoff_spec in Hlast.
Qed.

Lemma poss_intervals_shape_witness :
  exists goals,
    find_goals trace_possession physics_possession = Ok goals /\
    map snd [(10, 25)] = dkeys goals /\
    forall start stop,
      In (start, stop) [(10, 25)] ->
      exists last, last_kickoff physics_possession stop = Ok last /\
                   dget last physics_possession = None /\
                   last < start <= stop.
Proof.
  apply (poss_intervals_shape trace_possession physics_possession 0 [(10, 25)]).
  reflexivity.
Defined.

(** A threshold outside [0, 1] is rejected only when there is a goal to
    scan: [poss_intervals] then returns normally exactly when [find_goals]
    finds no goal, and the result is the empty list. *)
Theorem poss_intervals_bad_threshold (t : replay) (phys : physics) (threshold : Q)
  (intervals : list (Z * Z)) :
  ~ ((0 <= threshold)%Q /\ (threshold <= 1)%Q) ->
  (poss_intervals t phys threshold = Ok intervals <->
   find_goals t phys = Ok [] /\ intervals = []).
Proof.
  intros Hbad. unfold poss_intervals. split.
  - intros Hrun. apply bind_Ok_inv in Hrun. destruct Hrun as (goals & Hgoals & Hrun).
    apply poss_intervals_loop in Hrun. destruct Hrun as (new & -> & Hsnd & Hthr & _).
    destruct goals as [|g goals]; [|exfalso; apply Hbad, Hthr; discriminate].
    destruct new; [|discriminate]. auto.
  - intros (Hgoals & ->). rewrite Hgoals. reflexivity.
Qed.

Lemma poss_intervals_bad_threshold_witness :
  poss_intervals trace_basic physics_basic 2 = Ok [] <->
  find_goals trace_basic physics_basic = Ok [] /\ @nil (Z * Z) = [].
Proof.
  apply (poss_intervals_bad_threshold trace_basic physics_basic 2 []).
  intros (_ & Hle). vm_compute in Hle. apply Hle. reflexivity.
Defined.

(** [time_before_goals] gives one duration per detected goal, each a
    non-negative number of seconds. *)
Theorem time_before_goals_nonneg (t : replay) (phys : physics) (times : list Q) :
  time_before_goals t phys = Ok times ->
  (exists goals, find_goals t phys = Ok goals /\
                 List.length times = List.length goals) /\
  forall x, In x times -> (0 <= x)%Q.
Proof.
  unfold time_before_goals. intros Hrun.
  apply bind_Ok_inv in Hrun. destruct Hrun as (ivs & Hivs & Hrun).
  inversion Hrun; subst. clear Hrun.
  apply poss_intervals_inv in Hivs. destruct Hivs as (goals & Hgoals & Hsnd & Hall).
  split.
  - exists goals. split; [exact Hgoals|].
    rewrite length_map, <- (length_map snd), Hsnd. unfold dkeys. now rewrite length_map.
  - intros x Hx. apply in_map_iff in Hx. destruct Hx as ([start stop] & <- & Hin).
    pose proof (Hall start stop Hin) as Hb. simpl.
    apply Qle_shift_div_l; [reflexivity|]. rewrite Qmult_0_l.
    unfold Qle. simpl. lia.
Qed.

Lemma time_before_goals_nonneg_witness :
  (exists goals, find_goals trace_possession physics_possession = Ok goals /\
                 List.length [(inject_Z (25 - 10) / inject_Z 30)%Q] = List.length goals) /\
  forall x, In x [(inject_Z (25 - 10) / inject_Z 30)%Q] -> (0 <= x)%Q.
Proof.
  apply (time_before_goals_nonneg trace_possession physics_possession). reflexivity.
Defined.

(** * Further properties of the feature builder *)


Lemma filter_keys_In (f : string -> bool) (snap : dict string snapshot) :
  forall k, In k (filter f (dkeys snap)) -> In k (dkeys snap).
Proof. intros k Hk. apply filter_In in Hk. tauto. Qed.




Lemma is_entity_key_nonempty (k : string) : is_entity_key k -> k <> "".
Proof.
  intros [->|(a & [->| ->])]; discriminate.
Qed.

Lemma flat_map_length_const {A B : Type} (f : A -> list B) (n : nat) (l : list A) :
  (forall x, In x l -> List.length (f x) = n) ->
  List.length (flat_map f l) = (n * List.length l)%nat.
Proof.
  induction l as [|x l IH]; intros Hall; simpl; [lia|].
  rewrite length_app, (Hall x (or_introl eq_refl)), IH by (intros y Hy; apply Hall; now right).
  lia.
Qed.

(** On the collection built by the extraction, a stored frame with a ball
    and at most three cars per team always yields a vector: the optional
    label, the ball's 13 values, then for team 0 and for team 1 the 13
    values of each car of the team followed by zeros up to three cars.
    Each car of a team appears once; the order of the cars within the team
    is the iteration order of the team's [set], not that of the frame. *)
Theorem create_feature_layout (o : set_order) (t : replay) (ball cars interpolate : bool)
  (phys : physics) (frame : Z) (scorer : option Z)
  (phys_snapshot : dict string snapshot) (b : snapshot) :
  get_physics_with t ball cars interpolate = Ok phys ->
  valid_scorer scorer ->
  dget frame phys = Some phys_snapshot ->
  dget "ball" phys_snapshot = Some b ->
  (List.length (filter (starts_with "0") (dkeys phys_snapshot)) <= TEAM_SIZE)%nat ->
  (List.length (filter (starts_with "1") (dkeys phys_snapshot)) <= TEAM_SIZE)%nat ->
  create_feature o phys frame scorer =
  Some (Ok (Some (label_of scorer ++ get_leaf_nodes b ++
                  team_block o phys_snapshot "0" ++ team_block o phys_snapshot "1"))) /\
  List.length (get_leaf_nodes b) = 13%nat /\
  forall c, c = "0"%char \/ c = "1"%char ->
    Permutation (filter (starts_with c) (dkeys phys_snapshot)) (team_cars o phys_snapshot c) /\
    (forall k, In k (team_cars o phys_snapshot c) ->
               exists s, dget k phys_snapshot = Some s /\
                         leaves_at phys_snapshot k = get_leaf_nodes s /\
                         List.length (get_leaf_nodes s) = 13%nat) /\
    team_block o phys_snapshot c =
    flat_map (leaves_at phys_snapshot) (team_cars o phys_snapshot c) ++
    repeat 0 (13 * (3 - List.length (team_cars o phys_snapshot c))) /\
    List.length (team_block o phys_snapshot c) = 39%nat.
Proof.
  intros Hphys Hvalid Hframe Hball H0 H1.
  pose proof (collection_ok_get_physics _ _ _ _ _ Hphys) as (_ & _ & Hfr).
  destruct (Hfr frame phys_snapshot Hframe) as (_ & Hnd & Hkeys).
  pose proof (snapshots_have_13_leaves _ _ _ _ _ Hphys) as Hall.
  assert (H13 : forall k s, dget k phys_snapshot = Some s ->
                            List.length (get_leaf_nodes s) = 13%nat).
  { intros k s Hk. apply (Hall frame k). unfold snap_at. now rewrite Hframe. }
  assert (Hb13 : List.length (get_leaf_nodes b) = 13%nat) by (eapply H13; eauto).
  assert (Hperm : forall c, Permutation (filter (starts_with c) (dkeys phys_snapshot))
                              (team_cars o phys_snapshot c)).
  { intros c. unfold team_cars. apply set_iter_of_NoDup. now apply NoDup_filter. }
  assert (Hcar : forall c k, In k (team_cars o phys_snapshot c) ->
                             exists s, dget k phys_snapshot = Some s /\
                                       leaves_at phys_snapshot k = get_leaf_nodes s /\
                                       List.length (get_leaf_nodes s) = 13%nat).
  { intros c k Hk. apply team_cars_keys, In_keys_dget in Hk. destruct Hk as (s & Hs).
    exists s. split; [exact Hs|]. split; [unfold leaves_at; now rewrite Hs | eauto]. }
  assert (Hblock : forall c,
             (List.length (filter (starts_with c) (dkeys phys_snapshot)) <= TEAM_SIZE)%nat ->
             List.length (team_block o phys_snapshot c) = 39%nat).
  { intros c Hc. unfold team_block.
    rewrite length_app, zero_padding_length.
    rewrite (flat_map_length_const (leaves_at phys_snapshot) 13).
    - rewrite <- (Permutation_length (Hperm c)). unfold TEAM_SIZE in *. lia.
    - intros k Hk. destruct (Hcar c k Hk) as (s & _ & -> & Hlen). exact Hlen. }
  assert (Hsize : forall c,
             (List.length (filter (starts_with c) (dkeys phys_snapshot)) <= TEAM_SIZE)%nat ->
             (List.length (team_cars o phys_snapshot c) <= TEAM_SIZE)%nat).
  { intros c Hc. now rewrite <- (Permutation_length (Hperm c)). }
  split; [|split; [exact Hb13|]].
  - rewrite (create_feature_single_frame o phys frame scorer phys_snapshot b); auto.
    + unfold assembled.
      assert (Hlen : List.length (label_of scorer ++ get_leaf_nodes b ++
                                  team_block o phys_snapshot "0" ++
                                  team_block o phys_snapshot "1") =
                     (List.length (label_of scorer) + 91)%nat).
      { rewrite !length_app, Hb13, !Hblock by assumption. lia. }
      rewrite Hlen. destruct Hvalid as [->|[->| ->]]; reflexivity.
    + intros E. apply Hkeys in E. now apply is_entity_key_nonempty in E.
  - intros c Hc. split; [apply Hperm|]. split; [apply Hcar|]. split; [reflexivity|].
    apply Hblock. destruct Hc as [->| ->]; assumption.
Qed.

Lemma create_feature_layout_witness :
  create_feature reversed_order physics_two_cars 1 (Some 1) =
  Some (Ok (Some (label_of (Some 1) ++ get_leaf_nodes (snapshot_at 100 5) ++
                  team_block reversed_order
                    [("ball", snapshot_at 100 5); ("0_car_2", snapshot_at 20 0);
                     ("1_car_3", snapshot_at 30 0); ("0_car_4", snapshot_at 40 0)] "0" ++
                  team_block reversed_order
                    [("ball", snapshot_at 100 5); ("0_car_2", snapshot_at 20 0);
                     ("1_car_3", snapshot_at 30 0); ("0_car_4", snapshot_at 40 0)] "1"))) /\
  team_cars reversed_order
    [("ball", snapshot_at 100 5); ("0_car_2", snapshot_at 20 0);
     ("1_car_3", snapshot_at 30 0); ("0_car_4", snapshot_at 40 0)] "0" =
  ["0_car_4"; "0_car_2"] /\
  team_block reversed_order
    [("ball", snapshot_at 100 5); ("0_car_2", snapshot_at 20 0);
     ("1_car_3", snapshot_at 30 0); ("0_car_4", snapshot_at 40 0)] "0" =
  get_leaf_nodes (snapshot_at 40 0) ++ get_leaf_nodes (snapshot_at 20 0) ++ repeat 0 13.
Proof.
  destruct (create_feature_layout reversed_order trace_two_cars true true true
              physics_two_cars 1 (Some 1)
              [("ball", snapshot_at 100 5); ("0_car_2", snapshot_at 20 0);
               ("1_car_3", snapshot_at 30 0); ("0_car_4", snapshot_at 40 0)]
              (snapshot_at 100 5)) as (Hrun & _ & _).
  - reflexivity.
  - right. right. reflexivity.
  - reflexivity.
  - reflexivity.
  - vm_compute. lia.
  - vm_compute. lia.
  - split; [exact Hrun|]. split; reflexivity.
Defined.

(** The vector is not determined by the collection: the two cars of team 0
    of [trace_two_cars] change places with the iteration order. *)
Lemma create_feature_depends_on_set_order :
  create_feature key_order physics_two_cars 1 None <>
  create_feature reversed_order physics_two_cars 1 None.
Proof. vm_compute. discriminate. Qed.

(** ** [shave_phys] *)

Lemma create_feature_fuel_head (o : set_order) (phys : physics) (s : Z) :
  forall (fuel : nat) (frame : Z) (v : list Z),
    create_feature_fuel o fuel phys frame (Some s) = Some (Ok (Some v)) ->
    (s = 0 \/ s = 1) /\ exists rest, v = s :: rest.
Proof.
  induction fuel as [|fuel IH]; intros frame v Hrun; [discriminate|].
  simpl in Hrun.
  destruct (negb ((s =? 0) || (s =? 1))) eqn:Es; [discriminate|].
  destruct (dget frame phys) as [snap|]; [|discriminate].
  destruct (negb (smem "ball" (dkeys snap))); [discriminate|].
  destruct (smem "" (dkeys snap)); [discriminate|].
  destruct (group_values snap ["ball"]) as [vb|]; [|discriminate].
  destruct (TEAM_SIZE <? List.length (set_iter o (filter (starts_with "0") (dkeys snap))))%nat; [eauto|].
  destruct (group_values snap (set_iter o (filter (starts_with "0") (dkeys snap)))) as [v0|];
    [|discriminate].
  destruct (TEAM_SIZE <? List.length (set_iter o (filter (starts_with "1") (dkeys snap))))%nat; [eauto|].
  destruct (group_values snap (set_iter o (filter (starts_with "1") (dkeys snap)))) as [v1|];
    [|discriminate].
  destruct (_ && _); [discriminate|].
  inversion Hrun; subst. clear Hrun. split.
  - apply negb_false_iff, orb_true_iff in Es.
    destruct Es as [E|E]; apply Z.eqb_eq in E; auto.
  - simpl. eauto.
Qed.

(** Every row of the dataset built by [shave_phys] on the extraction's
    collection has 92 entries, as many as the header written by
    [create_csv_header] has columns, and starts with the side (0 or 1)
    recorded by [find_goals] for some goal. *)
Theorem shave_phys_rows (o : set_order) (t : replay) (ball cars interpolate : bool) (phys : physics)
  (slice_interval : Z) (threshold : Q) (dataset : list (list Z)) :
  get_physics_with t ball cars interpolate = Ok phys ->
  shave_phys o t phys slice_interval threshold = Ok dataset ->
  forall row,
    In row dataset ->
    List.length row = List.length csv_schema /\
    List.length row = 92%nat /\
    exists goals goal side rest,
      find_goals t phys = Ok goals /\
      dget goal goals = Some side /\
      (side = 0 \/ side = 1) /\
      row = side :: rest.
Proof.
  intros Hphys Hrun.
  pose proof (snapshots_have_13_leaves _ _ _ _ _ Hphys) as Hall.
  unfold shave_phys in Hrun.
  apply bind_Ok_inv in Hrun. destruct Hrun as (intervals & _ & Hrun).
  apply bind_Ok_inv in Hrun. destruct Hrun as (goals & Hgoals & Hrun).
  set (RowOk := fun row : list Z =>
              List.length row = List.length csv_schema /\
              List.length row = 92%nat /\
              exists goals goal side rest,
                find_goals t phys = Ok goals /\
                dget goal goals = Some side /\
                (side = 0 \/ side = 1) /\
                row = side :: rest).
  change (forall row, In row dataset -> RowOk row).
  eapply for_each_invariant with (P := fun d => forall row, In row d -> RowOk row);
    [ | | exact Hrun]; [intros row [] | ].
  intros d [start stop] d' _ Hd Hstep. simpl in Hstep.
  apply bind_Ok_inv in Hstep. destruct Hstep as (scorer & Hscorer & Hstep).
  apply bind_Ok_inv in Hstep. destruct Hstep as (sampled & _ & Hstep).
  unfold dlookup in Hscorer.
  destruct (dget stop goals) as [side|] eqn:Eside; [|discriminate].
  inversion Hscorer; subst scorer. clear Hscorer.
  eapply for_each_invariant with (P := fun d => forall row, In row d -> RowOk row);
    [exact Hd | | exact Hstep].
  intros d1 i d2 _ Hd1 Hrow.
  apply bind_Ok_inv in Hrow. destruct Hrow as ([v|] & Hcall & Hd2);
    inversion Hd2; subst d2; [|exact Hd1].
  intros row Hin. apply in_app_or in Hin. destruct Hin as [Hin|[<-|[]]]; [auto|].
  unfold create_feature_call in Hcall.
  destruct (create_feature o phys i (Some side)) as [r|] eqn:Ecf; [|discriminate].
  subst r. unfold create_feature in Ecf.
  pose proof (create_feature_fuel_length o phys (Some side) Hall _ _ _ Ecf) as Hlen.
  destruct (create_feature_fuel_head o phys side _ _ _ Ecf) as (Hside & rest & ->).
  simpl in Hlen. unfold RowOk. split; [exact Hlen|]. split; [exact Hlen|].
  exists goals, stop, side, rest. auto.
Qed.

Lemma shave_phys_rows_witness :
  List.length row_possession = List.length csv_schema /\
  List.length row_possession = 92%nat /\
  exists goals goal side rest,
    find_goals trace_possession physics_possession = Ok goals /\
    dget goal goals = Some side /\
    (side = 0 \/ side = 1) /\
    row_possession = side :: rest.
Proof.
  apply (shave_phys_rows key_order trace_possession true true true physics_possession 5 0
           dataset_possession).
  - reflexivity.
  - reflexivity.
  - left. reflexivity.
Defined.

Lemma py_range_backwards (start stop step : Z) :
  start <= stop -> step < 0 -> py_range start stop step = Ok [].
Proof.
  intros Hle Hstep. unfold py_range.
  assert (E0 : (step =? 0) = false) by (apply Z.eqb_neq; lia).
  assert (E1 : (0 <? step) = false) by (apply Z.ltb_ge; lia).
  rewrite E0, E1.
  assert (Hq : (start - stop - step - 1) / - step < 1).
  { apply Z.div_lt_upper_bound; lia. }
  replace (Z.to_nat ((start - stop - step - 1) / - step)) with 0%nat by lia.
  reflexivity.
Qed.

(** With a negative [slice_interval] no frame is sampled and the dataset
    is empty; with [slice_interval] 0 the call raises [ValueError] as soon
    as there is an interval to sample, and returns the empty dataset when
    there is none. *)
Theorem shave_phys_nonpositive_stride (o : set_order) (t : replay) (phys : physics)
  (slice_interval : Z) (threshold : Q) (intervals : list (Z * Z)) :
  slice_interval <= 0 ->
  poss_intervals t phys threshold = Ok intervals ->
  shave_phys o t phys slice_interval threshold =
  if slice_interval <? 0 then Ok []
  else match intervals with
       | [] => Ok []
       | _ :: _ => Raise ValueError
       end.
Proof.
  intros Hstep Hivs. unfold shave_phys. rewrite Hivs. cbn [bind].
  apply poss_intervals_inv in Hivs. destruct Hivs as (goals & Hgoals & Hsnd & Hall).
  rewrite Hgoals. cbn [bind].
  assert (Hlook : forall start stop, In (start, stop) intervals ->
                                     exists side, dlookup stop goals = Ok side).
  { intros start stop Hin.
    assert (Hk : In stop (dkeys goals)).
    { rewrite <- Hsnd. change stop with (snd (start, stop)). now apply in_map. }
    apply In_keys_dget in Hk. destruct Hk as (side & Hside).
    exists side. unfold dlookup. now rewrite Hside. }
  destruct (slice_interval <? 0) eqn:Eneg.
  - apply Z.ltb_lt in Eneg. clear Hsnd.
    induction intervals as [|[start stop] ivs IH]; simpl; [reflexivity|].
    destruct (Hlook start stop (or_introl eq_refl)) as (side & ->). cbn [bind].
    pose proof (Hall start stop (or_introl eq_refl)) as Hb.
    rewrite py_range_backwards by lia. cbn [bind for_each].
    apply IH.
    + intros s e Hin. apply Hall. now right.
    + intros s e Hin. apply (Hlook s e). now right.
  - apply Z.ltb_ge in Eneg. assert (slice_interval = 0) by lia. subst slice_interval.
    destruct intervals as [|[start stop] ivs]; simpl; [reflexivity|].
    destruct (Hlook start stop (or_introl eq_refl)) as (side & ->). reflexivity.
Qed.

Lemma shave_phys_nonpositive_stride_witness :
  shave_phys key_order trace_possession physics_possession 0 0 =
  if 0 <? 0 then Ok []
  else match [(10, 25)] with
       | [] => Ok []
       | _ :: _ => Raise ValueError
       end.
Proof.
  apply (shave_phys_nonpositive_stride key_order trace_possession physics_possession 0 0 [(10, 25)]).
  - lia.
  - reflexivity.
Defined.

(** * Interpolation over a whole run *)

Lemma has_snapshot_iff (out : physics) (j : Z) (k : string) :
  has_snapshot out j k = true <-> exists s, snap_at out j k = Some s /\ s <> [].
Proof.
  rewrite has_snapshot_snap_at. destruct (snap_at out j k) as [[|x s]|]; split.
  - discriminate.
  - intros (s & [= <-] & Hne). contradiction.
  - intros _. eexists. split; [reflexivity | discriminate].
  - reflexivity.
  - discriminate.
  - intros (s & Hs & _). discriminate.
Qed.

(** What one store with interpolation does to the cells of the collection:
    it writes the snapshot at frame [n] and at the [g] frames before it,
    for some [g] from 0 to 3. *)
Lemma store_snapshot_cells (out out' : physics) (n : Z) (key : string) (s : snapshot) :
  store_snapshot true out n key s = Ok out' ->
  exists g,
    0 <= g <= 3 /\
    (forall j k, (k = key /\ n - g <= j <= n) -> snap_at out' j k = Some s) /\
    (forall j k, ~ (k = key /\ n - g <= j <= n) -> snap_at out' j k = snap_at out j k) /\
    (forall j, n - g <= j < n -> has_snapshot out j key = false) /\
    (1 <= g -> has_snapshot out (n - g - 1) key = true) /\
    (g = 0 -> n = 0 \/ has_snapshot out (n - 1) key = true \/
              forall j, n - 4 <= j < n -> has_snapshot out j key = false).
Proof.
  intros Hrun.
  assert (Hplain : out' = set_snapshot out n key s ->
                   (n = 0 \/ has_snapshot out (n - 1) key = true \/
                    forall j, n - 4 <= j < n -> has_snapshot out j key = false) ->
                   exists g,
                     0 <= g <= 3 /\
                     (forall j k, (k = key /\ n - g <= j <= n) -> snap_at out' j k = Some s) /\
                     (forall j k, ~ (k = key /\ n - g <= j <= n) ->
                                  snap_at out' j k = snap_at out j k) /\
                     (forall j, n - g <= j < n -> has_snapshot out j key = false) /\
                     (1 <= g -> has_snapshot out (n - g - 1) key = true) /\
                     (g = 0 -> n = 0 \/ has_snapshot out (n - 1) key = true \/
                               forall j, n - 4 <= j < n -> has_snapshot out j key = false)).
  { intros -> Hwhy. exists 0. split; [lia|]. split; [|split; [|split; [|split]]].
    - intros j k (-> & Hj). assert (j = n) by lia. subst j. apply snap_at_set_same.
    - intros j k Hjk. apply snap_at_set_other.
      destruct (Z.eq_dec j n) as [->|Hne]; [|now left].
      right. intros ->. apply Hjk. split; [reflexivity | lia].
    - intros j Hj. lia.
    - intros Hg. lia.
    - intros _. exact Hwhy. }
  unfold store_snapshot, interpolate_back in Hrun. simpl negb in Hrun. cbv iota in Hrun.
  destruct (n =? 0) eqn:En.
  { apply Z.eqb_eq in En. inversion Hrun; subst out'. apply Hplain; auto. }
  apply Z.eqb_neq in En. simpl orb in Hrun.
  rewrite has_snapshot_set_other in Hrun by (left; lia).
  destruct (bool_dec (has_snapshot out (n - 1) key) true) as [E1|E1].
  { rewrite E1 in Hrun. inversion Hrun; subst out'. apply Hplain; auto. }
  apply not_true_is_false in E1. rewrite E1 in Hrun.
  set (out1 := set_snapshot out n key s) in *.
  assert (Hs1 : snap_at out1 n key = Some s) by apply snap_at_set_same.
  assert (Hsame : forall j, j <> n -> has_snapshot out1 j key = has_snapshot out j key).
  { intros j Hj. unfold out1. apply has_snapshot_set_other. now left. }
  assert (Hfill : forall g : nat,
             (1 <= g <= 3)%nat ->
             (forall j, n - Z.of_nat g <= j < n -> has_snapshot out j key = false) ->
             has_snapshot out (n - Z.of_nat g - 1) key = true ->
             exists g',
               0 <= g' <= 3 /\
               (forall j k, (k = key /\ n - g' <= j <= n) -> snap_at out' j k = Some s) /\
               (forall j k, ~ (k = key /\ n - g' <= j <= n) ->
                            snap_at out' j k = snap_at out j k) /\
               (forall j, n - g' <= j < n -> has_snapshot out j key = false) /\
               (1 <= g' -> has_snapshot out (n - g' - 1) key = true) /\
               (g' = 0 -> n = 0 \/ has_snapshot out (n - 1) key = true \/
                          forall j, n - 4 <= j < n -> has_snapshot out j key = false)).
  { intros g Hg Hgap Hprev.
    rewrite (interp_loop_fill out1 n key s g Hg Hs1) in Hrun.
    - destruct (back_fill_spec n key s g out1 Hs1) as (o & Ho & Hfilled & Hrest).
      rewrite Ho in Hrun. inversion Hrun; subst o. clear Hrun.
      exists (Z.of_nat g). split; [lia|]. split; [|split; [|split; [|split]]].
      + intros j k (-> & Hj). destruct (Z.eq_dec j n) as [->|Hne].
        * rewrite Hrest; [exact Hs1 | right; right; lia].
        * apply Hfilled. lia.
      + intros j k Hjk.
        assert (Hout : k <> key \/ j < n - Z.of_nat g \/ n < j).
        { destruct (string_dec k key) as [->|Hk]; [|now left].
          right. destruct (Z_lt_le_dec j (n - Z.of_nat g)); [now left|].
          destruct (Z_lt_le_dec n j); [now right|]. exfalso. apply Hjk. split; [reflexivity|lia]. }
        rewrite Hrest.
        * unfold out1. apply snap_at_set_other.
          destruct Hout as [Hk|Hj]; [now right | left; lia].
        * destruct Hout as [Hk|[Hj|Hj]]; [now left | right; now left | right; right; lia].
      + exact Hgap.
      + intros _. exact Hprev.
      + intros Hz. lia.
    - intros j Hj. rewrite Hsame by lia. now apply Hgap.
    - rewrite Hsame by lia. exact Hprev. }
  destruct (has_snapshot out (n - 2) key) eqn:E2.
  { apply (Hfill 1%nat);
      [lia | |replace (n - Z.of_nat 1 - 1) with (n - 2) by lia; exact E2].
    intros j Hj. assert (j = n - 1) by lia. now subst. }
  destruct (has_snapshot out (n - 3) key) eqn:E3.
  { apply (Hfill 2%nat);
      [lia | |replace (n - Z.of_nat 2 - 1) with (n - 3) by lia; exact E3].
    intros j Hj. assert (Hc : j = n - 1 \/ j = n - 2) by lia. destruct Hc; now subst. }
  destruct (has_snapshot out (n - 4) key) eqn:E4.
  { apply (Hfill 3%nat);
      [lia | |replace (n - Z.of_nat 3 - 1) with (n - 4) by lia; exact E4].
    intros j Hj. assert (Hc : j = n - 1 \/ j = n - 2 \/ j = n - 3) by lia.
    destruct Hc as [?|[?|?]]; now subst. }
  assert (Hwin : forall j, n - 4 <= j < n -> has_snapshot out j key = false).
  { intros j Hj.
    assert (Hc : j = n - 1 \/ j = n - 2 \/ j = n - 3 \/ j = n - 4) by lia.
    destruct Hc as [?|[?|[?|?]]]; now subst. }
  apply Hplain; [|auto].
  pose proof (store_snapshot_no_fill out n key s Hwin) as Hno.
  unfold store_snapshot, interpolate_back in Hno. simpl negb in Hno. cbv iota in Hno.
  assert (En' : (n =? 0) = false) by (now apply Z.eqb_neq).
  rewrite En' in Hno. simpl orb in Hno.
  rewrite has_snapshot_set_other in Hno by (left; lia).
  rewrite E1 in Hno. fold out1 in Hno. rewrite Hno in Hrun. now inversion Hrun.
Qed.

Lemma has_snapshot_of_snap (out : physics) (j : Z) (k : string) (s : snapshot) :
  snap_at out j k = Some s -> s <> [] -> has_snapshot out j k = true.
Proof.
  intros Hs Hne. apply has_snapshot_iff. eauto.
Qed.

(** One store keeps the relation between the two collections. *)
Lemma refines_store (n : Z) (raw int int' : physics) (key : string) (s : snapshot) :
  0 <= n -> s <> [] ->
  refines n raw int ->
  store_snapshot true int n key s = Ok int' ->
  refines n (set_snapshot raw n key s) int'.
Proof.
  intros Hn Hs (R1 & R2 & R3 & R4 & R5) Hrun.
  apply store_snapshot_cells in Hrun.
  destruct Hrun as (g & Hg & Hnew & Hold & Hgap & Hprev & Hzero).
  set (raw' := set_snapshot raw n key s).
  assert (Hraw_int : forall j k, has_snapshot raw j k = true -> has_snapshot int j k = true).
  { intros j k Hh. apply has_snapshot_iff in Hh. destruct Hh as (s0 & Hs0 & Hne).
    apply (has_snapshot_of_snap int j k s0); auto. }
  assert (Hin_range : forall j k, {k = key /\ n - g <= j <= n} + {~ (k = key /\ n - g <= j <= n)}).
  { intros j k. destruct (string_dec k key) as [->|Hk]; [|right; tauto].
    destruct (Z_le_dec (n - g) j); [|right; lia].
    destruct (Z_le_dec j n); [left; auto | right; lia]. }
  assert (Hint' : forall j k, has_snapshot int' j k = true <->
                              (k = key /\ n - g <= j <= n) \/ has_snapshot int j k = true).
  { intros j k. destruct (Hin_range j k) as [Hr|Hr].
    - split; [now left|]. intros _. apply (has_snapshot_of_snap int' j k s); auto.
    - rewrite !has_snapshot_snap_at, (Hold j k Hr). tauto. }
  assert (Hraw' : forall j k, has_snapshot raw j k = true -> has_snapshot raw' j k = true).
  { intros j k Hh. destruct (Z.eq_dec j n) as [->|Hj].
    - destruct (string_dec k key) as [->|Hk].
      + apply (has_snapshot_of_snap raw' n key s); [apply snap_at_set_same | exact Hs].
      + unfold raw'. rewrite has_snapshot_set_other; auto.
    - unfold raw'. rewrite has_snapshot_set_other; auto. }
  assert (Hraw'n : has_snapshot raw' n key = true).
  { apply (has_snapshot_of_snap raw' n key s); [apply snap_at_set_same | exact Hs]. }
  split; [|split; [|split; [|split]]].
  - (* raw' is contained in int' *)
    intros j k s0 Hs0. destruct (Z.eq_dec j n) as [->|Hj];
      [destruct (string_dec k key) as [->|Hk]|].
    + unfold raw' in Hs0. rewrite snap_at_set_same in Hs0. inversion Hs0; subst s0.
      apply Hnew. split; [reflexivity | lia].
    + unfold raw' in Hs0. rewrite snap_at_set_other in Hs0 by auto.
      rewrite Hold by tauto. auto.
    + unfold raw' in Hs0. rewrite snap_at_set_other in Hs0 by auto.
      destruct (Hin_range j k) as [(-> & Hr)|Hr]; [|rewrite Hold by exact Hr; auto].
      exfalso. pose proof (R1 _ _ _ Hs0) as Hi.
      apply has_snapshot_of_snap in Hi; [|eapply R5; eauto].
      rewrite Hgap in Hi by lia. discriminate.
  - (* every cell of int' is a raw' cell or lies in a short gap of raw' *)
    intros j k Hh. apply Hint' in Hh. destruct Hh as [(-> & Hr)|Hh].
    + destruct (Z.eq_dec j n) as [->|Hj]; [now left|]. right.
      assert (Hg1 : 1 <= g) by lia. specialize (Hprev Hg1).
      destruct (R2 _ _ Hprev) as [Hp|(p & i & Hpi & Hd & Hp & Hi)].
      * exists (n - g - 1), n. repeat split; auto; lia.
      * exfalso. pose proof (Hraw_int _ _ Hi) as Hii.
        pose proof (R4 _ _ Hii) as Hib.
        destruct (Z.eq_dec i n) as [->|Hin].
        -- assert (Hmid : has_snapshot int (n - 1) key = true).
           { apply (R3 (n - g - 1) n key); auto; lia. }
           rewrite Hgap in Hmid by lia. discriminate.
        -- rewrite Hgap in Hii by lia. discriminate.
    + destruct (R2 _ _ Hh) as [Hr|(p & i & Hpi & Hd & Hp & Hi)]; [left; auto|].
      right. exists p, i. repeat split; auto; lia.
  - (* no short gap is left in int' *)
    intros p i k Hpi Hd Hp Hi j Hj. apply Hint'.
    destruct (Hin_range j k) as [Hr|Hr]; [now left|]. right.
    apply Hint' in Hp. apply Hint' in Hi.
    assert (Hib : i <= n).
    { destruct Hi as [(_ & Hr')|Hi]; [lia|]. apply R4 in Hi. lia. }
    destruct (string_dec k key) as [->|Hk].
    + assert (Hjlow : j < n - g) by (destruct (Z_lt_le_dec j (n - g)); [auto | exfalso; apply Hr; split; [reflexivity | lia]]).
      assert (Hp' : has_snapshot int p key = true).
      { destruct Hp as [(_ & Hr')|Hp]; [lia | exact Hp]. }
      destruct Hi as [(_ & Hri)|Hi]; [|apply (R3 p i key); auto].
      destruct (Z_le_dec 1 g) as [Hg1|Hg0].
      * specialize (Hprev Hg1).
        destruct (Z.eq_dec j (n - g - 1)) as [->|Hne]; [exact Hprev|].
        apply (R3 p (n - g - 1) key); auto; lia.
      * assert (g = 0) by lia. subst g. assert (i = n) by lia. subst i.
        destruct (Hzero eq_refl) as [Hz|[Hz|Hz]].
        -- apply R4 in Hp'. lia.
        -- destruct (Z.eq_dec j (n - 1)) as [->|Hne]; [exact Hz|].
           apply (R3 p (n - 1) key); auto; lia.
        -- rewrite Hz in Hp' by lia. discriminate.
    + destruct Hp as [(Hk' & _)|Hp]; [contradiction|].
      destruct Hi as [(Hk' & _)|Hi]; [contradiction|].
      apply (R3 p i k); auto.
  - (* frame bounds *)
    intros j k Hh. apply Hint' in Hh.
    destruct Hh as [(-> & Hr)|Hh]; [|now apply R4 in Hh].
    destruct (Z_le_dec 1 g) as [Hg1|Hg0]; [|lia].
    specialize (Hprev Hg1). apply R4 in Hprev. lia.
  - (* snapshots are non-empty *)
    intros j k s0 Hs0. destruct (Hin_range j k) as [Hr|Hr].
    + rewrite (Hnew j k Hr) in Hs0. inversion Hs0; now subst.
    + rewrite (Hold j k Hr) in Hs0. eauto.
Qed.

Lemma refines_next (n : Z) (raw int : physics) :
  refines n raw int -> refines (n + 1) raw int.
Proof.
  intros (R1 & R2 & R3 & R4 & R5). repeat split; auto.
  - apply R4 in H. lia.
  - apply R4 in H. lia.
Qed.

Lemma make_snapshot_nonempty (av lv loc : vec3) (rot : quaternion) :
  make_snapshot av lv loc rot <> [].
Proof. unfold make_snapshot. apply dset_not_nil. Qed.

Lemma refines_replication_step (n : Z) (ball_id car_ids : list Z) (teams : teams_t)
  (raw raw' int int' : physics) (r : replication) :
  0 <= n ->
  refines n raw int ->
  replication_step false n ball_id car_ids teams raw r = Ok raw' ->
  replication_step true n ball_id car_ids teams int r = Ok int' ->
  refines n raw' int'.
Proof.
  intros Hn HR. unfold replication_step.
  destruct (rep_value r) as [c|updated|]; try (intros [= <-] [= <-]; exact HR).
  destruct (negb (Zmem (actor_id r) (ball_id ++ car_ids))); [intros [= <-] [= <-]; exact HR|].
  destruct (find_phys updated) as [[rb|]|e]; cbn [bind];
    [|intros [= <-] [= <-]; exact HR|discriminate].
  destruct (angular_velocity rb) as [av|]; [|intros [= <-] [= <-]; exact HR].
  destruct (linear_velocity rb) as [lv|]; [|intros [= <-] [= <-]; exact HR].
  intros Hraw Hint. unfold store_snapshot in Hraw at 1. simpl in Hraw.
  inversion Hraw; subst raw'. clear Hraw.
  eapply refines_store; eauto. apply make_snapshot_nonempty.
Qed.

Lemma refines_replications (n : Z) (ball_id car_ids : list Z) (teams : teams_t)
  (fr : frame) :
  0 <= n ->
  forall (raw raw' int int' : physics),
    refines n raw int ->
    for_each (replication_step false n ball_id car_ids teams) fr raw = Ok raw' ->
    for_each (replication_step true n ball_id car_ids teams) fr int = Ok int' ->
    refines n raw' int'.
Proof.
  intros Hn. induction fr as [|r fr IH]; intros raw raw' int int' HR Hraw Hint;
    simpl in Hraw, Hint.
  - inversion Hraw; inversion Hint; subst. exact HR.
  - apply bind_Ok_inv in Hraw. destruct Hraw as (raw1 & Hr1 & Hraw).
    apply bind_Ok_inv in Hint. destruct Hint as (int1 & Hi1 & Hint).
    eapply IH; [|exact Hraw|exact Hint].
    eapply refines_replication_step; eauto.
Qed.

Lemma epoch_step_same_control (t : replay) (ball cars : bool) (i : Z)
  (st1 st2 st1' st2' : gp_state) :
  same_control st1 st2 ->
  epoch_step t ball cars i st1 = Ok st1' ->
  epoch_step t ball cars i st2 = Ok st2' ->
  same_control st1' st2'.
Proof.
  intros (Hp & Hb & Hc & Ht). unfold epoch_step. rewrite Hp, Hb, Hc, Ht.
  destruct (Nat.eqb _ _).
  { intros [= <-] [= <-]. repeat split; assumption. }
  destruct (nth_error (update_frames t) (update_pointer st2)) as [b|]; cbn [bind];
    [|discriminate].
  destruct (negb (i =? b)).
  { intros [= <-] [= <-]. repeat split; assumption. }
  destruct (if ball then get_ids t "TAGame.Ball_TA" b None else Ok (ball_id st2))
    as [bid|]; cbn [bind]; [|discriminate].
  destruct (if cars then get_ids t "TAGame.Car_TA" b None else Ok (car_ids st2))
    as [cid|]; cbn [bind]; [|discriminate].
  destruct (if cars then find_teams t b else Ok (teams st2)) as [tm|]; cbn [bind];
    [|discriminate].
  intros [= <-] [= <-]. repeat split; simpl; congruence.
Qed.

Lemma refines_frame_step (t : replay) (ball cars : bool) (n : Z) (fr : frame)
  (st1 st2 st1' st2' : gp_state) :
  0 <= n ->
  same_control st1 st2 ->
  refines n (output st1) (output st2) ->
  frame_step t ball cars false n fr st1 = Ok st1' ->
  frame_step t ball cars true n fr st2 = Ok st2' ->
  same_control st1' st2' /\ refines n (output st1') (output st2').
Proof.
  intros Hn Hsame HR. unfold frame_step. intros H1 H2.
  apply bind_Ok_inv in H1. destruct H1 as (s1 & He1 & H1).
  apply bind_Ok_inv in H2. destruct H2 as (s2 & He2 & H2).
  apply bind_Ok_inv in H1. destruct H1 as (o1 & Hr1 & H1).
  apply bind_Ok_inv in H2. destruct H2 as (o2 & Hr2 & H2).
  inversion H1; inversion H2; subst. clear H1 H2. simpl.
  pose proof (epoch_step_same_control _ _ _ _ _ _ _ _ Hsame He1 He2) as (Hp & Hb & Hc & Ht).
  apply epoch_step_output in He1. apply epoch_step_output in He2.
  split; [repeat split; assumption|].
  rewrite Hb, Hc, Ht in Hr1.
  eapply refines_replications; [exact Hn| |exact Hr1|exact Hr2].
  now rewrite He1, He2.
Qed.

Lemma refines_frames_loop (t : replay) (ball cars : bool) :
  forall (fs : list frame) (i : Z) (st1 st2 st1' st2' : gp_state),
    0 <= i ->
    same_control st1 st2 ->
    refines (i - 1) (output st1) (output st2) ->
    frames_loop t ball cars false i fs st1 = Ok st1' ->
    frames_loop t ball cars true i fs st2 = Ok st2' ->
    refines (i + Z.of_nat (List.length fs) - 1) (output st1') (output st2').
Proof.
  induction fs as [|fr fs IH]; intros i st1 st2 st1' st2' Hi Hsame HR H1 H2;
    simpl in H1, H2.
  - inversion H1; inversion H2; subst. simpl. now rewrite Z.add_0_r.
  - apply bind_Ok_inv in H1. destruct H1 as (s1 & Hs1 & H1).
    apply bind_Ok_inv in H2. destruct H2 as (s2 & Hs2 & H2).
    apply refines_next in HR. replace (i - 1 + 1) with i in HR by lia.
    destruct (refines_frame_step _ _ _ _ _ _ _ _ _ Hi Hsame HR Hs1 Hs2) as (Hsame' & HR').
    replace (i + Z.of_nat (List.length (fr :: fs)) - 1)
      with (i + 1 + Z.of_nat (List.length fs) - 1) by (simpl List.length; lia).
    eapply IH; [lia | exact Hsame' | | exact H1 | exact H2].
    now replace (i + 1 - 1) with i by lia.
Qed.

(** Over a whole run, interpolation only adds snapshots and only inside
    short gaps: every snapshot of the run without interpolation is in the
    run with interpolation, unchanged; every other snapshot of the latter
    lies strictly between two snapshots of the former, for the same key,
    that are at most 4 frames apart; and between two such snapshots every
    frame has a snapshot for the key. *)
Theorem interpolation_fills_exactly_short_gaps (t : replay) (ball cars : bool)
  (raw int : physics) :
  get_physics_with t ball cars false = Ok raw ->
  get_physics_with t ball cars true = Ok int ->
  (forall j k s, snap_at raw j k = Some s -> snap_at int j k = Some s) /\
  (forall j k, has_snapshot int j k = true ->
               has_snapshot raw j k = true \/
               exists p i, p < j < i /\ i - p <= 4 /\
                           has_snapshot raw p k = true /\ has_snapshot raw i k = true) /\
  (forall p i k, p < i -> i - p <= 4 ->
                 has_snapshot raw p k = true -> has_snapshot raw i k = true ->
                 forall j, p < j < i -> has_snapshot int j k = true).
Proof.
  unfold get_physics_with. intros Hraw Hint.
  destruct (negb (ball || cars)); [discriminate|].
  destruct (update_frames t) as [|u0 ?]; [discriminate|].
  destruct (negb (u0 =? 0)); [discriminate|].
  apply bind_Ok_inv in Hraw. destruct Hraw as (st1 & Hl1 & Hraw).
  apply bind_Ok_inv in Hint. destruct Hint as (st2 & Hl2 & Hint).
  inversion Hraw; inversion Hint; subst. clear Hraw Hint.
  assert (Hinit : refines (0 - 1) (output gp_init) (output gp_init)).
  { unfold refines. simpl. split; [|split; [|split; [|split]]].
    - intros j k s Hs. discriminate.
    - intros j k Hh. discriminate.
    - intros p i k _ _ Hp. discriminate.
    - intros j k Hh. discriminate.
    - intros j k s Hs. discriminate. }
  pose proof (refines_frames_loop t ball cars (frames t) 0 gp_init gp_init st1 st2
                ltac:(lia) ltac:(repeat split) Hinit Hl1 Hl2) as (R1 & R2 & R3 & R4 & R5).
  split; [exact R1|]. split; [exact R2|].
  intros p i k Hpi Hd Hp Hi. apply (R3 p i k Hpi Hd).
  - apply has_snapshot_iff in Hp. destruct Hp as (s & Hs & Hne).
    apply (has_snapshot_of_snap _ p k s); auto.
  - apply has_snapshot_iff in Hi. destruct Hi as (s & Hs & Hne).
    apply (has_snapshot_of_snap _ i k s); auto.
Qed.

Lemma interpolation_fills_exactly_short_gaps_witness :
  (forall j k s, snap_at physics_gap3_raw j k = Some s ->
                 snap_at physics_gap3 j k = Some s) /\
  (forall j k, has_snapshot physics_gap3 j k = true ->
               has_snapshot physics_gap3_raw j k = true \/
               exists p i, p < j < i /\ i - p <= 4 /\
                           has_snapshot physics_gap3_raw p k = true /\
                           has_snapshot physics_gap3_raw i k = true) /\
  (forall p i k, p < i -> i - p <= 4 ->
                 has_snapshot physics_gap3_raw p k = true ->
                 has_snapshot physics_gap3_raw i k = true ->
                 forall j, p < j < i -> has_snapshot physics_gap3 j k = true).
Proof.
  apply (interpolation_fills_exactly_short_gaps trace_gap3 true true
           physics_gap3_raw physics_gap3); reflexivity.
Defined.

(** * [find_goals] on the extraction's collection *)

Lemma possible_goals_total (phys : physics) :
  (forall j fr b, In (j, fr) phys -> dget "ball" fr = Some b ->
                  exists y, component b "location" "y" = Ok y) ->
  possible_goals phys = Ok (candidate_frames phys).
Proof.
  unfold possible_goals, candidate_frames.
  assert (Hgen : forall (l : physics) (acc : list Z),
             (forall j fr b, In (j, fr) l -> dget "ball" fr = Some b ->
                             exists y, component b "location" "y" = Ok y) ->
             for_each (fun acc kv =>
                         y <- component (snd kv) "location" "y" ;;
                         Ok (if GOAL_Y <? Z.abs y then acc ++ [fst kv] else acc))
               (ball_only l) acc = Ok (acc ++ map fst (filter goal_entry l))).
  { induction l as [|[j fr] l IH]; intros acc Hl; simpl.
    - now rewrite app_nil_r.
    - unfold goal_entry at 1. simpl snd.
      destruct (dget "ball" fr) as [b|] eqn:Eb.
      + destruct (Hl j fr b (or_introl eq_refl) Eb) as (y & Hy).
        simpl. rewrite Hy. cbn [bind].
        rewrite IH by (intros j' fr' b' Hin; apply (Hl j' fr' b'); now right).
        destruct (GOAL_Y <? Z.abs y); simpl; [now rewrite <- app_assoc | reflexivity].
      + simpl. apply IH. intros j' fr' b' Hin. apply (Hl j' fr' b'). now right. }
  intros Hl. now rewrite Hgen.
Qed.

Lemma goals_loop_length (candidates : list Z) :
  forall (ms : list mark) (acc : dict Z Z),
    (List.length (goals_loop_from candidates ms acc) <= List.length acc + List.length ms)%nat.
Proof.
  assert (Hset : forall (k v : Z) (d : dict Z Z),
             (List.length (dset k v d) <= S (List.length d))%nat).
  { intros k v. induction d as [|[k' v'] d IH]; simpl; [lia|].
    destruct (key_dec k k'); simpl; lia. }
  unfold goals_loop_from.
  induction ms as [|m ms IH]; intros acc; simpl; [lia|].
  destruct (first_candidate candidates (mark_frame m)) as [g|].
  - specialize (IH (dset g (team_of_mark m) acc)). specialize (Hset g (team_of_mark m) acc). lia.
  - specialize (IH acc). lia.
Qed.

Lemma location_y_of_make_snapshot (av lv loc : vec3) (rot : quaternion) :
  component (make_snapshot av lv loc rot) "location" "y" = Ok (vy loc).
Proof. reflexivity. Qed.

(** On the collection built by the extraction [find_goals] never raises;
    it records at most one goal per scoring mark, each with side 0 or 1,
    at a frame of the trace whose ball snapshot has [|location.y|] beyond
    the goal line. *)
Theorem find_goals_on_extraction (t : replay) (ball cars interpolate : bool)
  (phys : physics) :
  get_physics_with t ball cars interpolate = Ok phys ->
  exists goals,
    find_goals t phys = Ok goals /\
    (List.length goals <= List.length (scores t))%nat /\
    forall goal side,
      dget goal goals = Some side ->
      (side = 0 \/ side = 1) /\
      0 <= goal < Z.of_nat (List.length (frames t)) /\
      exists b y,
        snap_at phys goal "ball" = Some b /\
        component b "location" "y" = Ok y /\
        GOAL_Y < Z.abs y.
Proof.
  intros Hphys.
  pose proof (collection_ok_get_physics _ _ _ _ _ Hphys) as (Hnd & Hrange & _).
  assert (Hloc : all_snapshots (fun s => exists y, component s "location" "y" = Ok y) phys).
  { eapply all_snapshots_get_physics; [|exact Hphys].
    intros rb s _. unfold snapshot_of_body.
    destruct (angular_velocity rb); [|discriminate].
    destruct (linear_velocity rb); [|discriminate].
    intros [= <-]. eexists. apply location_y_of_make_snapshot. }
  assert (Hcell : forall j fr b, In (j, fr) phys -> dget "ball" fr = Some b ->
                                 snap_at phys j "ball" = Some b).
  { intros j fr b Hin Hb. unfold snap_at.
    now rewrite (In_dget_NoDup phys j fr Hnd Hin). }
  unfold find_goals. rewrite possible_goals_total.
  2:{ intros j fr b Hin Hb. apply (Hloc j "ball"). eapply Hcell; eauto. }
  cbn [bind]. eexists. split; [reflexivity|]. split.
  - unfold goals_loop. pose proof (goals_loop_length (candidate_frames phys) (scores t) []) as H.
    simpl in H. exact H.
  - intros goal side Hget. unfold goals_loop in Hget.
    apply goals_loop_spec in Hget.
    destruct Hget as [(before & m & after & _ & Hfirst & Hteam & _)|[Hnil _]];
      [|discriminate].
    split.
    { rewrite <- Hteam. unfold team_of_mark. destruct (String.eqb _ _); auto. }
    apply first_candidate_spec in Hfirst.
    destruct Hfirst as (bf & af & Hc & _ & _).
    assert (Hin : In goal (candidate_frames phys)).
    { rewrite Hc. apply in_or_app. right. now left. }
    unfold candidate_frames in Hin. apply in_map_iff in Hin.
    destruct Hin as ([j fr] & Hj & Hin). simpl in Hj. subst j.
    apply filter_In in Hin. destruct Hin as (Hin & Hentry).
    split.
    { assert (Hk : In goal (dkeys phys)).
      { unfold dkeys. change goal with (fst (goal, fr)). now apply in_map. }
      apply Hrange in Hk. lia. }
    unfold goal_entry in Hentry. simpl in Hentry.
    destruct (dget "ball" fr) as [b|] eqn:Eb; [|discriminate].
    destruct (component b "location" "y") as [y|] eqn:Ey; [|discriminate].
    exists b, y. split; [eapply Hcell; eauto|]. split; [exact Ey|].
    now apply Z.ltb_lt.
Qed.

Lemma find_goals_on_extraction_witness :
  exists goals,
    find_goals trace_possession physics_possession = Ok goals /\
    (List.length goals <= List.length (scores trace_possession))%nat /\
    forall goal side,
      dget goal goals = Some side ->
      (side = 0 \/ side = 1) /\
      0 <= goal < Z.of_nat (List.length (frames trace_possession)) /\
      exists b y,
        snap_at physics_possession goal "ball" = Some b /\
        component b "location" "y" = Ok y /\
        GOAL_Y < Z.abs y.
Proof.
  apply (find_goals_on_extraction trace_possession true true true physics_possession).
  reflexivity.
Defined.
